(** * Host side of the core-device protocol: [artiq/coredevice/comm_generic.py]

    A shallow embedding of [CommGeneric]: the frame reader, the frame
    writer, the RPC value decoder and the serve loop, followed by the
    properties established about them. *)

From Stdlib Require Import ZArith List Lia Bool String Ascii.
From Stdlib Require Import Strings.Byte DecimalString.
From stdpp Require Import base option list gmap.

#[local] Set Warnings "-register-all".

Local Open Scope Z_scope.

(** ** Bytes and [struct] *)

Module Struct.

(** [struct.unpack("B", ...)] on one byte. *)
Definition byte_val (b : byte) : Z := Z.of_N (Byte.to_N b).

Definition byte_of_Z (z : Z) : byte :=
  match Byte.of_N (Z.to_N (z mod 256)) with
  | Some b => b
  | None => x00
  end.

(** Big-endian value of a byte string, most significant byte first. *)
Definition be_unsigned (bs : list byte) : Z :=
  fold_left (fun acc b => acc * 256 + byte_val b) bs 0.

(** Two's complement reading of a [w]-bit pattern. *)
Definition to_signed (w : Z) (v : Z) : Z :=
  if v <? 2 ^ (w - 1) then v else v - 2 ^ w.

(** The [n] low-order bytes of [v], most significant first. *)
Fixpoint be_bytes (n : nat) (v : Z) : list byte :=
  match n with
  | O => []
  | S k => byte_of_Z (v / 256 ^ Z.of_nat k) :: be_bytes k v
  end.

(** [struct.unpack] raises [struct.error] unless the buffer has exactly
    the size of the format; [None] stands for that error. *)
Definition unpack_B (bs : list byte) : option Z :=
  match bs with
  | [b] => Some (byte_val b)
  | _ => None
  end.

Definition unpack_l (bs : list byte) : option Z :=
  if Nat.eqb (length bs) 4 then Some (to_signed 32 (be_unsigned bs)) else None.

Definition unpack_q (bs : list byte) : option Z :=
  if Nat.eqb (length bs) 8 then Some (to_signed 64 (be_unsigned bs)) else None.

(** A float64 is kept as its 64-bit pattern; no arithmetic is done on it. *)
Definition unpack_d (bs : list byte) : option Z :=
  if Nat.eqb (length bs) 8 then Some (be_unsigned bs) else None.

(** [struct.pack] raises [struct.error] when the argument is out of the
    range of the format. *)
Definition pack_B (v : Z) : option (list byte) :=
  if (0 <=? v) && (v <=? 255) then Some [byte_of_Z v] else None.

Definition pack_l (v : Z) : option (list byte) :=
  if (- 2 ^ 31 <=? v) && (v <=? 2 ^ 31 - 1)
  then Some (be_bytes 4 (v mod 2 ^ 32)) else None.

Definition pack_q (v : Z) : option (list byte) :=
  if (- 2 ^ 63 <=? v) && (v <=? 2 ^ 63 - 1)
  then Some (be_bytes 8 (v mod 2 ^ 64)) else None.

Definition pack_d (bits : Z) : option (list byte) :=
  if (0 <=? bits) && (bits <? 2 ^ 64) then Some (be_bytes 8 bits) else None.

(** [struct.pack(">ll", a, b)] *)
Definition pack_ll (a b : Z) : option (list byte) :=
  match pack_l a, pack_l b with
  | Some x, Some y => Some (x ++ y)
  | _, _ => None
  end.

(** [struct.pack(">llB", a, b, c)] *)
Definition pack_llB (a b c : Z) : option (list byte) :=
  match pack_l a, pack_l b, pack_B c with
  | Some x, Some y, Some z => Some (x ++ y ++ z)
  | _, _, _ => None
  end.

End Struct.
Import Struct.

(** ** Message kinds *)

Inductive _H2DMsgType :=
| LOG_REQUEST | IDENT_REQUEST | SWITCH_CLOCK
| LOAD_LIBRARY | RUN_KERNEL
| RPC_REPLY | RPC_EXCEPTION
| FLASH_READ_REQUEST | FLASH_WRITE_REQUEST | FLASH_ERASE_REQUEST
| FLASH_REMOVE_REQUEST.

Inductive _D2HMsgType :=
| LOG_REPLY | IDENT_REPLY | CLOCK_SWITCH_COMPLETED | CLOCK_SWITCH_FAILED
| LOAD_COMPLETED | LOAD_FAILED
| KERNEL_FINISHED | KERNEL_STARTUP_FAILED | KERNEL_EXCEPTION
| RPC_REQUEST
| FLASH_READ_REPLY | FLASH_OK_REPLY | FLASH_ERROR_REPLY.

#[global] Instance _H2DMsgType_eq_dec : EqDecision _H2DMsgType.
Proof. solve_decision. Defined.

#[global] Instance _D2HMsgType_eq_dec : EqDecision _D2HMsgType.
Proof. solve_decision. Defined.

(** The [.value] of an enumeration member. *)
Definition H2D_value (ty : _H2DMsgType) : Z :=
  match ty with
  | LOG_REQUEST => 1 | IDENT_REQUEST => 2 | SWITCH_CLOCK => 3
  | LOAD_LIBRARY => 4 | RUN_KERNEL => 5
  | RPC_REPLY => 6 | RPC_EXCEPTION => 7
  | FLASH_READ_REQUEST => 8 | FLASH_WRITE_REQUEST => 9
  | FLASH_ERASE_REQUEST => 10 | FLASH_REMOVE_REQUEST => 11
  end.

Definition D2H_value (ty : _D2HMsgType) : Z :=
  match ty with
  | LOG_REPLY => 1 | IDENT_REPLY => 2 | CLOCK_SWITCH_COMPLETED => 3
  | CLOCK_SWITCH_FAILED => 4
  | LOAD_COMPLETED => 5 | LOAD_FAILED => 6
  | KERNEL_FINISHED => 7 | KERNEL_STARTUP_FAILED => 8 | KERNEL_EXCEPTION => 9
  | RPC_REQUEST => 10
  | FLASH_READ_REPLY => 11 | FLASH_OK_REPLY => 12 | FLASH_ERROR_REPLY => 13
  end.

(** [_D2HMsgType(raw_type)]: lookup of a member by value; [None] is the
    [ValueError] the enumeration raises for a value that has no member. *)
Definition D2H_of_value (raw_type : Z) : option _D2HMsgType :=
  match raw_type with
  | 1 => Some LOG_REPLY | 2 => Some IDENT_REPLY
  | 3 => Some CLOCK_SWITCH_COMPLETED | 4 => Some CLOCK_SWITCH_FAILED
  | 5 => Some LOAD_COMPLETED | 6 => Some LOAD_FAILED
  | 7 => Some KERNEL_FINISHED | 8 => Some KERNEL_STARTUP_FAILED
  | 9 => Some KERNEL_EXCEPTION
  | 10 => Some RPC_REQUEST
  | 11 => Some FLASH_READ_REPLY | 12 => Some FLASH_OK_REPLY
  | 13 => Some FLASH_ERROR_REPLY
  | _ => None
  end.

(** ** Python values that cross the RPC boundary *)

(** A [str] is kept as its UTF-8 encoding, which determines it. *)
Definition text := list byte.

Definition text_of (s : string) : text := list_byte_of_string s.

Inductive py_value :=
| VSentinel                                   (* [CommGeneric._rpc_sentinel] *)
| VTuple (items : list py_value)
| VNone
| VBool (b : bool)
| VInt (z : Z)
| VFloat (bits : Z)
| VFraction (numerator denominator : Z)
| VStr (utf8 : text)
| VList (items : list py_value)
| VRange (lower upper step : Z)
| VObject (o : nat).                          (* a host object, by identity *)

(** [type(v).__name__] *)
Definition type_name (v : py_value) : text :=
  text_of match v with
          | VSentinel => "object"
          | VTuple _ => "tuple"
          | VNone => "NoneType"
          | VBool _ => "bool"
          | VInt _ => "int"
          | VFloat _ => "float"
          | VFraction _ _ => "Fraction"
          | VStr _ => "str"
          | VList _ => "list"
          | VRange _ _ _ => "range"
          | VObject _ => "object"
          end.

(** ** Exceptions *)

(** One entry of [traceback.extract_tb]. *)
Record frame_summary := Frame {
  fs_filename : text;
  fs_lineno : Z;
  fs_name : text
}.

(** Modelled from the spec: the class [ARTIQException] of
    [artiq.language.core], which this file imports and does not define.
    Its fields are those of the Remote Exception Record, under the names
    by which [_serve_rpc] reads them and in the order in which
    [_serve_exception] passes them to the constructor. *)
Record artiq_exception := ArtiqExn {
  name : text;
  message : text;
  param : list Z;
  filename : text;
  line : Z;
  column : Z;
  function : text
}.

(** Where an exception object sits in the class hierarchy, as far as the
    [except] clauses of [_serve_rpc] can tell. *)
Inductive exn_class :=
| IsARTIQException (fields : artiq_exception)
| IsException
| IsBaseException.

(** An exception raised while the [try] body of [_serve_rpc] runs.
    [he_frames] are the frames of the callee that were active when it was
    raised, outermost first; the frame of [_serve_rpc] itself is not among
    them. *)
Record host_exn := HostExn {
  he_class : exn_class;
  he_type_name : text;
  he_str : text;
  he_frames : list frame_summary
}.

(** The exceptions that leave a method of [CommGeneric]. The first seven
    are raised by the code of the class, with the values it formats into
    their text; the others come from the channel, from the library and
    from the interpreter. *)
Inductive py_exn :=
| IOError_read_underrun (remaining : Z)       (* "Read underrun" *)
| OSError_connection_closed                   (* "Connection closed" *)
| ValueError_msg_type (raw_type : Z)          (* no such [_D2HMsgType] *)
| IOError_header_overrun (remaining : Z)      (* "Read overrun in message header" *)
| IOError_incorrect_reply (got : option _D2HMsgType) (expected : _D2HMsgType)
| IOError_chunk_overrun (length remaining : Z) (ty : option _D2HMsgType)
| IOError_unknown_rpc_tag (tag : ascii)       (* "Unknown RPC value tag" *)
| TransportError                              (* [self.read] failed *)
| KeyError (key : Z)                          (* [rpc_map[key]] *)
| UnicodeDecodeError                          (* [bytes.decode] *)
| ZeroDivisionError                           (* [Fraction(n, 0)] *)
| TypeError                                   (* [range] of a non-integer *)
| ValueError_range_step                       (* [range] with a zero step *)
| ValueError_unpack                           (* too many values to unpack *)
| IndexError                                  (* [exn.param[index]] *)
| StructError                                 (* [struct.error] *)
| AttributeError                              (* [None.value] *)
| NameError (ident : string)                  (* a name that is not bound *)
| RaisedARTIQException (e : artiq_exception)  (* raised by [_serve_exception] *)
| Propagated (e : host_exn).                  (* raised by a callable, not caught *)

(** ** The object state and the transport *)

(** The attributes of a [CommGeneric] object, and the byte channel behind
    [read] and [write]: [rx] holds the bytes the channel will deliver, in
    order, and [tx] the arguments of the [write] calls made so far. *)
Record CommGeneric := Comm {
  _read_type : option _D2HMsgType;
  _write_type : option _H2DMsgType;
  _read_length : Z;
  _write_buffer : list (list byte);
  rx : list byte;
  tx : list (list byte)
}.

(** [CommGeneric.__init__] *)
Definition __init__ (channel : list byte) : CommGeneric :=
  Comm None None 0 [] channel [].

Definition set_read_type (ty : _D2HMsgType) (s : CommGeneric) : CommGeneric :=
  Comm (Some ty) (_write_type s) (_read_length s) (_write_buffer s) (rx s) (tx s).

Definition set_write_type (ty : _H2DMsgType) (s : CommGeneric) : CommGeneric :=
  Comm (_read_type s) (Some ty) (_read_length s) (_write_buffer s) (rx s) (tx s).

Definition set_read_length (n : Z) (s : CommGeneric) : CommGeneric :=
  Comm (_read_type s) (_write_type s) n (_write_buffer s) (rx s) (tx s).

Definition set_write_buffer (b : list (list byte)) (s : CommGeneric) : CommGeneric :=
  Comm (_read_type s) (_write_type s) (_read_length s) b (rx s) (tx s).

Definition set_rx (bs : list byte) (s : CommGeneric) : CommGeneric :=
  Comm (_read_type s) (_write_type s) (_read_length s) (_write_buffer s) bs (tx s).

Definition set_tx (ws : list (list byte)) (s : CommGeneric) : CommGeneric :=
  Comm (_read_type s) (_write_type s) (_read_length s) (_write_buffer s) (rx s) ws.

(** The outcome of a method call: a value, an exception, or no outcome
    within the loop bound. The object state is kept in the first two. *)
Inductive result (A : Type) :=
| Done (a : A) (s : CommGeneric)
| Raise (e : py_exn) (s : CommGeneric)
| Diverge.
Arguments Done {A} a s.
Arguments Raise {A} e s.
Arguments Diverge {A}.

Definition M (A : Type) : Type := CommGeneric -> result A.

#[global] Instance M_ret : MRet M := fun A a s => Done a s.

#[global] Instance M_bind : MBind M := fun A B f m s =>
  match m s with
  | Done a s' => f a s'
  | Raise e s' => Raise e s'
  | Diverge => Diverge
  end.

Definition raise {A} (e : py_exn) : M A := fun s => Raise e s.
Definition gets {A} (f : CommGeneric -> A) : M A := fun s => Done (f s) s.
Definition modify (f : CommGeneric -> CommGeneric) : M unit := fun s => Done tt (f s).

(** A [None] from [struct] is a [struct.error]. *)
Definition struct_ {A} (o : option A) : M A :=
  match o with
  | Some a => mret a
  | None => raise StructError
  end.

(** [[body for _ in range(n)]]: the body is run [n] times, in order. *)
Fixpoint repeatM {A} (n : nat) (body : M A) : M (list A) :=
  match n with
  | O => mret []
  | S k => x ← body; xs ← repeatM k body; mret (x :: xs)
  end.

(** [self.read(length)]: exactly [length] bytes, or a failure of the
    channel. A channel that has fewer bytes left fails (where a real one
    would block or report end of file). The source does not say what a
    negative length does; the model lets it fail, and the statements that
    bear on the bytes taken are made for lengths that are not negative. *)
Definition read (length : Z) : M (list byte) := fun s =>
  if (0 <=? length) && (length <=? Z.of_nat (List.length (rx s)))
  then Done (take (Z.to_nat length) (rx s))
            (set_rx (drop (Z.to_nat length) (rx s)) s)
  else Raise TransportError s.

(** [self.write(data)]. The channel of the model takes every write: a
    failure of the transport in the middle of a message is outside the
    model, and the statements on the writer say which writes are issued
    by a call that returns, or that none is issued. *)
Definition write (data : list byte) : M unit :=
  modify (fun s => set_tx (tx s ++ [data]) s).

(** ** Reader interface *)

(** The synchronisation loop of [_read_header], by recursion on the bytes
    the channel delivers: [sync_count] is the loop variable, and each
    iteration takes one byte with [self.read(1)]. [None] is the failure of
    that read. *)
Fixpoint wait_sync (sync_count : Z) (pending : list byte) : option (list byte) :=
  match pending with
  | [] => if sync_count <? 4 then None else Some []
  | sync_byte :: rest =>
      if sync_count <? 4 then
        if byte_val sync_byte =? 0x5a
        then wait_sync (sync_count + 1) rest
        else wait_sync 0 rest
      else Some pending
  end.

(** The loop entered with the count [sync_count]: it leaves on the
    channel what follows the synchronisation sequence, or fails with the
    read that found the channel empty. *)
Definition sync_from (sync_count : Z) : M unit := fun s =>
  match wait_sync sync_count (rx s) with
  | Some rest => Done tt (set_rx rest s)
  | None => Raise TransportError (set_rx [] s)
  end.

(** [sync_count = 0], then the loop. *)
Definition sync : M unit := sync_from 0.

(** The part of [_read_header] after the synchronisation loop. *)
Definition read_message_header : M unit :=
  bs ← read 4;
  len ← struct_ (unpack_l bs);
  modify (set_read_length len);;
  (if len =? 0 then raise OSError_connection_closed else mret tt);;
  bs ← read 1;
  raw_type ← struct_ (unpack_B bs);
  match D2H_of_value raw_type with
  | None => raise (ValueError_msg_type raw_type)
  | Some ty =>
      modify (set_read_type ty);;
      r ← gets _read_length;
      if r <? 9 then raise (IOError_header_overrun r)
      else modify (set_read_length (r - 9))
  end.

(** [self.open()] does nothing on a channel that is open, which is the
    case throughout. *)
Definition _read_header : M unit :=
  r ← gets _read_length;
  if 0 <? r then raise (IOError_read_underrun r)
  else sync;; read_message_header.

Definition _read_expect (ty : _D2HMsgType) : M unit :=
  got ← gets _read_type;
  if decide (got = Some ty) then mret tt
  else raise (IOError_incorrect_reply got ty).

Definition _read_empty (ty : _D2HMsgType) : M unit :=
  _read_header;; _read_expect ty.

Definition _read_chunk (length : Z) : M (list byte) :=
  r ← gets _read_length;
  if r <? length
  then ty ← gets _read_type; raise (IOError_chunk_overrun length r ty)
  else modify (set_read_length (r - length));; read length.

Definition _read_int8 : M Z :=
  bs ← _read_chunk 1; struct_ (unpack_B bs).

Definition _read_int32 : M Z :=
  bs ← _read_chunk 4; struct_ (unpack_l bs).

Definition _read_int64 : M Z :=
  bs ← _read_chunk 8; struct_ (unpack_q bs).

Definition _read_float64 : M Z :=
  bs ← _read_chunk 8; struct_ (unpack_d bs).

Definition _read_bytes : M (list byte) :=
  n ← _read_int32; _read_chunk n.

(** [bytes.decode('utf-8')] succeeds on the well-formed UTF-8 byte
    sequences (no overlong forms, no surrogates, nothing above U+10FFFF). *)
Definition between (lo hi : Z) (b : byte) : bool :=
  (lo <=? byte_val b) && (byte_val b <=? hi).

Definition second_of_three (b0 b1 : byte) : bool :=
  if byte_val b0 =? 0xe0 then between 0xa0 0xbf b1
  else if byte_val b0 =? 0xed then between 0x80 0x9f b1
  else between 0x80 0xbf b1.

Definition second_of_four (b0 b1 : byte) : bool :=
  if byte_val b0 =? 0xf0 then between 0x90 0xbf b1
  else if byte_val b0 =? 0xf4 then between 0x80 0x8f b1
  else between 0x80 0xbf b1.

Fixpoint utf8_valid (bs : list byte) : bool :=
  match bs with
  | [] => true
  | b0 :: r0 =>
      if between 0x00 0x7f b0 then utf8_valid r0
      else
        match r0 with
        | [] => false
        | b1 :: r1 =>
            if between 0xc2 0xdf b0
            then between 0x80 0xbf b1 && utf8_valid r1
            else
              match r1 with
              | [] => false
              | b2 :: r2 =>
                  if between 0xe0 0xef b0
                  then second_of_three b0 b1 && between 0x80 0xbf b2
                       && utf8_valid r2
                  else
                    match r2 with
                    | [] => false
                    | b3 :: r3 =>
                        between 0xf0 0xf4 b0 && second_of_four b0 b1
                        && between 0x80 0xbf b2 && between 0x80 0xbf b3
                        && utf8_valid r3
                    end
              end
        end
  end.

Definition decode_utf8 (bs : list byte) : M text :=
  if utf8_valid bs then mret bs else raise UnicodeDecodeError.

(** [self._read_bytes()[:-1].decode('utf-8')] *)
Definition _read_string : M text :=
  bs ← _read_bytes; decode_utf8 (removelast bs).

(** ** Writer interface *)

Definition _write_header (ty : _H2DMsgType) : M unit :=
  modify (set_write_type ty);;
  modify (set_write_buffer []).

(** [for x in xs: body(x)] *)
Fixpoint forM_ {A} (xs : list A) (body : A -> M unit) : M unit :=
  match xs with
  | [] => mret tt
  | x :: rest => body x;; forM_ rest body
  end.

(** [sum([len(chunk) for chunk in buffer])] *)
Definition total_length (buffer : list (list byte)) : Z :=
  fold_right Z.add 0 (map (fun chunk => Z.of_nat (List.length chunk)) buffer).

Definition _write_flush : M unit :=
  buffer ← gets _write_buffer;
  let length := total_length buffer in
  ty ← gets _write_type;
  match ty with
  | None => raise AttributeError
  | Some ty =>
      header ← struct_ (pack_llB 0x5a5a5a5a (9 + length) (H2D_value ty));
      write header;;
      buffer ← gets _write_buffer;
      forM_ buffer write
  end.

Definition _write_empty (ty : _H2DMsgType) : M unit :=
  _write_header ty;; _write_flush.

Definition _write_chunk (chunk : list byte) : M unit :=
  modify (fun s => set_write_buffer (_write_buffer s ++ [chunk]) s).

Definition _write_int8 (value : Z) : M unit :=
  bs ← struct_ (pack_B value); _write_chunk bs.

Definition _write_int32 (value : Z) : M unit :=
  bs ← struct_ (pack_l value); _write_chunk bs.

Definition _write_int64 (value : Z) : M unit :=
  bs ← struct_ (pack_q value); _write_chunk bs.

Definition _write_float64 (bits : Z) : M unit :=
  bs ← struct_ (pack_d bits); _write_chunk bs.

Definition _write_bytes (value : list byte) : M unit :=
  _write_int32 (Z.of_nat (List.length value));;
  _write_chunk value.

(** [value.encode("utf-8") + b"\0"]. A text is held as its UTF-8 bytes,
    so the argument is a [str] that has an encoding; the failure of
    [encode] on a lone surrogate is outside the model. *)
Definition _write_string (value : text) : M unit :=
  _write_bytes (value ++ [x00]).

(** ** RPC values *)

(** [fractions.Fraction(numerator, denominator)] on two integers: the
    fraction in lowest terms with a positive denominator. *)
Definition Fraction (numerator denominator : Z) : M py_value :=
  if denominator =? 0 then raise ZeroDivisionError
  else
    let g := Z.gcd numerator denominator in
    let g := if denominator <? 0 then - g else g in
    mret (VFraction (numerator / g) (denominator / g)).

(** [isinstance(v, int)], with the integer: [bool] is a subclass of [int]. *)
Definition as_int (v : py_value) : option Z :=
  match v with
  | VInt z => Some z
  | VBool b => Some (if b then 1 else 0)
  | _ => None
  end.

(** [range(lower, upper, step)] takes integers and a non-zero step. *)
Definition range (lower upper step : py_value) : M py_value :=
  match as_int lower, as_int upper, as_int step with
  | Some lo, Some hi, Some st =>
      if st =? 0 then raise ValueError_range_step
      else mret (VRange lo hi st)
  | _, _, _ => raise TypeError
  end.

(** [chr] of a byte value. *)
Definition chr (v : Z) : ascii := ascii_of_N (Z.to_N v).

(** [rpc_map[key]] *)
Definition getitem (rpc_map : gmap Z py_value) (key : Z) : M py_value :=
  match rpc_map !! key with
  | Some v => mret v
  | None => raise (KeyError key)
  end.

(** The body of [_receive_rpc_value]; [self] stands for the method in its
    recursive calls. *)
Definition receive_rpc_value_body (self : M py_value)
    (rpc_map : gmap Z py_value) : M py_value :=
  v ← _read_int8;
  let tag := chr v in
  if Ascii.eqb tag "000" then mret VSentinel
  else if Ascii.eqb tag "t" then
    length ← _read_int8;
    items ← repeatM (Z.to_nat length) self;
    mret (VTuple items)
  else if Ascii.eqb tag "n" then mret VNone
  else if Ascii.eqb tag "b" then
    x ← _read_int8; mret (VBool (negb (x =? 0)))
  else if Ascii.eqb tag "i" then
    x ← _read_int32; mret (VInt x)
  else if Ascii.eqb tag "I" then
    x ← _read_int64; mret (VInt x)
  else if Ascii.eqb tag "f" then
    x ← _read_float64; mret (VFloat x)
  else if Ascii.eqb tag "F" then
    numerator ← _read_int64;
    denominator ← _read_int64;
    Fraction numerator denominator
  else if Ascii.eqb tag "s" then
    x ← _read_string; mret (VStr x)
  else if Ascii.eqb tag "l" then
    length ← _read_int32;
    items ← repeatM (Z.to_nat length) self;
    mret (VList items)
  else if Ascii.eqb tag "r" then
    lower ← self;
    upper ← self;
    step ← self;
    range lower upper step
  else if Ascii.eqb tag "o" then
    index ← _read_int32; getitem rpc_map index
  else raise (IOError_unknown_rpc_tag tag).

(** [_receive_rpc_value], with a bound on the depth of the recursion. *)
Fixpoint receive_rpc_value_rec (depth : nat) (rpc_map : gmap Z py_value)
  : M py_value :=
  match depth with
  | O => fun _ => Diverge
  | S depth' =>
      receive_rpc_value_body (receive_rpc_value_rec depth' rpc_map) rpc_map
  end.

(** Every level of the recursion has read a tag byte, so the number of
    bytes the channel still holds bounds the depth. *)
Definition _receive_rpc_value (rpc_map : gmap Z py_value) : M py_value :=
  fun s => receive_rpc_value_rec (S (List.length (rx s))) rpc_map s.

(** [value is self._rpc_sentinel] *)
Definition is_rpc_sentinel (value : py_value) : bool :=
  match value with
  | VSentinel => true
  | _ => false
  end.

(** One turn of the [while True] loop of [_receive_rpc_args]; [continue]
    stands for the turns that follow, with the list [args] as it is then. *)
Definition receive_rpc_args_body
    (continue : list py_value -> M (list py_value))
    (rpc_map : gmap Z py_value) (args : list py_value) : M (list py_value) :=
  value ← _receive_rpc_value rpc_map;
  if is_rpc_sentinel value then mret args
  else continue (args ++ [value]).

(** The loop, with a bound on the number of turns. *)
Fixpoint receive_rpc_args_loop (bound : nat) (rpc_map : gmap Z py_value)
    (args : list py_value) : M (list py_value) :=
  match bound with
  | O => fun _ => Diverge
  | S bound' =>
      receive_rpc_args_body
        (fun args' => receive_rpc_args_loop bound' rpc_map args') rpc_map args
  end.

(** The loop entered with the list [args]. Every turn reads at least a tag
    byte, so the bytes left on the channel bound the number of turns. *)
Definition receive_rpc_args_from (rpc_map : gmap Z py_value)
    (args : list py_value) : M (list py_value) :=
  fun s => receive_rpc_args_loop (S (List.length (rx s))) rpc_map args s.

Definition _receive_rpc_args (rpc_map : gmap Z py_value) : M (list py_value) :=
  receive_rpc_args_from rpc_map [].

(** ** Serving RPCs *)

(** The names the module binds at its top level: its imports, [logger] and
    its classes. *)
Definition module_globals : list string :=
  ["struct"; "logging"; "traceback"; "Enum"; "Fraction"; "core_language";
   "logger"; "_H2DMsgType"; "_D2HMsgType"; "UnsupportedDevice";
   "CommGeneric"]%string.

(** What calling a host object does. *)
Inductive call_outcome :=
| Returns (v : py_value)
| Raises (e : host_exn).

(** [str] of an integer. *)
Definition decimal (z : Z) : text :=
  text_of (DecimalString.NilZero.string_of_int (Z.to_int z)).

(** The file name under which the frames of this module appear in a
    traceback. It is the path the module was loaded from; the text below,
    the path inside the package, stands for it. *)
Definition this_file : text := text_of "artiq/coredevice/comm_generic.py".

Section Host.

(** [invoke o args] is what calling the host object [o] with the
positional arguments [args] does. *)
Variable invoke : nat -> list py_value -> call_outcome.

(** The global names bound when the code runs. *)
Variable globals : list string.

Definition name_bound (ident : string) : bool :=
  existsb (String.eqb ident) globals.

(** The call of [rpc_map[service]] with [args] as positional arguments. *)
Definition call_service (rpc_map : gmap Z py_value) (service : Z)
    (args : list py_value) : call_outcome :=
  match rpc_map !! service with
  | None => Raises (HostExn IsException (text_of "KeyError") (decimal service) [])
  | Some (VObject o) => invoke o args
  | Some v =>
      Raises (HostExn IsException (text_of "TypeError")
                (text_of "'" ++ type_name v ++ text_of "' object is not callable")
                [])
  end.

(** [-2**31 < result < 2**31-1] *)
Definition in_rpc_range (result : Z) : bool :=
  (- 2 ^ 31 <? result) && (result <? 2 ^ 31 - 1).

(** The condition of line 332, under which line 333 raises. *)
Definition rpc_result_rejected (result : py_value) : bool :=
  match as_int result with
  | None => true
  | Some r => negb (in_rpc_range r)
  end.

(** The body of the [try] statement: the result, or the exception with
    the line of [_serve_rpc] that was executing. *)
Definition try_body (rpc_map : gmap Z py_value) (service : Z)
    (args : list py_value) : py_value + (Z * host_exn) :=
  match call_service rpc_map service args with
  | Raises e => inr (331, e)
  | Returns result =>
      if rpc_result_rejected result
      then inr (333, HostExn IsException (text_of "ValueError")
                       (text_of "An RPC must return an int(width=32)") [])
      else inl result
  end.

(** [exn.param[index]] *)
Definition param_item (exn : artiq_exception) (index : nat) : M Z :=
  match param exn !! index with
  | Some p => mret p
  | None => raise IndexError
  end.

(** The handler of [except ARTIQException as exn]. *)
Definition handle_artiq_exception (exn : artiq_exception) : M unit :=
  _write_header RPC_EXCEPTION;;
  _write_string (name exn);;
  _write_string (message exn);;
  forM_ [0; 1; 2]%nat (fun index => p ← param_item exn index; _write_int64 p);;
  _write_string (filename exn);;
  _write_int32 (line exn);;
  _write_int32 (column exn);;
  _write_string (function exn);;
  _write_flush.

(** [traceback.extract_tb(exn.__traceback__)]: the frame of
    [_serve_rpc], where the exception was caught, then the frames of the
    callee. *)
Definition extract_tb (lineno : Z) (exn : host_exn) : list frame_summary :=
  Frame this_file lineno (text_of "_serve_rpc") :: he_frames exn.

(** The handler of [except Exception as exn]. *)
Definition handle_exception (lineno : Z) (exn : host_exn) : M unit :=
  _write_header RPC_EXCEPTION;;
  _write_string (he_type_name exn);;
  _write_string (he_str exn);;
  forM_ [0; 1; 2]%nat (fun _ => _write_int64 0);;
  match extract_tb lineno exn with
  | [Frame filename line function] =>
      _write_string filename;;
      _write_int32 line;;
      _write_int32 (-1);;
      _write_string function;;
      _write_flush
  | _ => raise ValueError_unpack
  end.

(** The [except] clauses, tried in order once the [try] body has raised.
    Matching the first clause evaluates the name [ARTIQException]. *)
Definition handle (lineno : Z) (exn : host_exn) : M unit :=
  if name_bound "ARTIQException" then
    match he_class exn with
    | IsARTIQException fields => handle_artiq_exception fields
    | IsException => handle_exception lineno exn
    | IsBaseException => raise (Propagated exn)
    end
  else raise (NameError "ARTIQException").

Definition _serve_rpc (rpc_map : gmap Z py_value) : M unit :=
  service ← _read_int32;
  args ← _receive_rpc_args rpc_map;
  match try_body rpc_map service args with
  | inr (lineno, exn) => handle lineno exn
  | inl result =>
      _write_header RPC_REPLY;;
      match as_int result with
      | Some r => _write_int32 r
      | None => raise StructError
      end;;
      _write_flush
  end.

Definition _serve_exception : M unit :=
  name ← _read_string;
  message ← _read_string;
  params ← repeatM 3 _read_int64;
  filename ← _read_string;
  line ← _read_int32;
  column ← _read_int32;
  function ← _read_string;
  count ← _read_int32;
  backtrace ← repeatM (Z.to_nat count) _read_int32;
  raise (RaisedARTIQException
           (ArtiqExn name message params filename line column function)).

(** One turn of the [while True] loop of [serve]; [continue] stands for
the turns that follow. *)
Definition serve_body (continue : M unit) (rpc_map : gmap Z py_value) : M unit :=
  _read_header;;
  ty ← gets _read_type;
  if decide (ty = Some RPC_REQUEST) then
    _serve_rpc rpc_map;; continue
  else if decide (ty = Some KERNEL_EXCEPTION) then
    _serve_exception;; continue
  else
    _read_expect KERNEL_FINISHED.

(** The loop, with a bound on the number of turns. *)
Fixpoint serve_loop (bound : nat) (rpc_map : gmap Z py_value) : M unit :=
  match bound with
  | O => fun _ => Diverge
  | S bound' => serve_body (serve_loop bound' rpc_map) rpc_map
  end.

(** Every turn reads a header from the channel. *)
Definition serve (rpc_map : gmap Z py_value) : M unit :=
  fun s => serve_loop (S (List.length (rx s))) rpc_map s.

End Host.

(** ** Vocabulary of the statements *)

(** The operations of the reader interface. *)
Inductive reader_op :=
| Op_read_header
| Op_read_expect (ty : _D2HMsgType)
| Op_read_empty (ty : _D2HMsgType)
| Op_read_chunk (length : Z)
| Op_read_int8
| Op_read_int32
| Op_read_int64
| Op_read_float64
| Op_read_bytes
| Op_read_string.

(** The state an operation leaves behind, whether it returns or raises. *)
Definition state_after {A} (r : result A) : option CommGeneric :=
  match r with
  | Done _ s => Some s
  | Raise _ s => Some s
  | Diverge => None
  end.

Definition returned {A} (r : result A) : bool :=
  match r with
  | Done _ _ => true
  | _ => false
  end.

Definition run_reader_op (op : reader_op) (s : CommGeneric) : option CommGeneric * bool :=
  match op with
  | Op_read_header => let r := _read_header s in (state_after r, returned r)
  | Op_read_expect ty => let r := _read_expect ty s in (state_after r, returned r)
  | Op_read_empty ty => let r := _read_empty ty s in (state_after r, returned r)
  | Op_read_chunk n => let r := _read_chunk n s in (state_after r, returned r)
  | Op_read_int8 => let r := _read_int8 s in (state_after r, returned r)
  | Op_read_int32 => let r := _read_int32 s in (state_after r, returned r)
  | Op_read_int64 => let r := _read_int64 s in (state_after r, returned r)
  | Op_read_float64 => let r := _read_float64 s in (state_after r, returned r)
  | Op_read_bytes => let r := _read_bytes s in (state_after r, returned r)
  | Op_read_string => let r := _read_string s in (state_after r, returned r)
  end.

(** The operations that parse a message header. *)
Definition parses_header (op : reader_op) : bool :=
  match op with
  | Op_read_header | Op_read_empty _ => true
  | _ => false
  end.

(** The synchronisation sequence, 5a 5a 5a 5a. *)
Definition sync_sequence : list byte := [x5a; x5a; x5a; x5a].

(** [decodes rpc_map s vs s'] : from state [s], successive calls of
    [_receive_rpc_value] return the values [vs], none of them the
    sentinel, and leave state [s']. *)
Inductive decodes (rpc_map : gmap Z py_value)
  : CommGeneric -> list py_value -> CommGeneric -> Prop :=
| decodes_nil s : decodes rpc_map s [] s
| decodes_cons s v s1 vs s2 :
    _receive_rpc_value rpc_map s = Done v s1 ->
    is_rpc_sentinel v = false ->
    decodes rpc_map s1 vs s2 ->
    decodes rpc_map s (v :: vs) s2.

(** An operation that, started with at most [L] bytes left on the channel,
    has an outcome and puts no byte back on the channel. *)
Definition settles {A} (L : nat) (m : M A) : Prop :=
  forall s, (List.length (rx s) <= L)%nat ->
    match m s with
    | Done _ s' => (List.length (rx s') <= List.length (rx s))%nat
    | Raise _ s' => (List.length (rx s') <= List.length (rx s))%nat
    | Diverge => False
    end.

(** An operation that has an outcome and leaves the remaining-body-length
    non-negative if it found it so. *)
Definition keeps_nonneg {A} (m : M A) : Prop :=
  forall s, 0 <= _read_length s ->
    match m s with
    | Done _ s' => 0 <= _read_length s'
    | Raise _ s' => 0 <= _read_length s'
    | Diverge => False
    end.

(** The length that the next header on the channel declares: the four
    bytes after the first synchronisation sequence, as [_read_header]
    unpacks them. *)
Definition declared_length (s : CommGeneric) : option Z :=
  match wait_sync 0 (rx s) with
  | Some rest => unpack_l (take 4 rest)
  | None => None
  end.

(** Two operations that do the same when started with at most [L] bytes
    left on the channel. *)
Definition agree {A} (L : nat) (m1 m2 : M A) : Prop :=
  forall s, (List.length (rx s) <= L)%nat -> m1 s = m2 s.

(** The state [s] after [n] more bytes of the body have been taken from
    the channel, which is left with [rest]. *)
Definition advance (s : CommGeneric) (n : Z) (rest : list byte) : CommGeneric :=
  Comm (_read_type s) (_write_type s) (_read_length s - n) (_write_buffer s)
    rest (tx s).

(** The wire format of RPC values, tag by tag, as the peer produces it:
    [wire rpc_map v bs] when the bytes [bs] are an encoding of the value
    [v]; [wire_seq] is the same for values laid out one after the other.
    Integers are big-endian, a string is its length, its UTF-8 bytes and a
    NUL byte, a boolean is one byte 0 or 1, a rational is the pair of its
    terms and stands for the fraction in lowest terms, and an object is
    the index under which [rpc_map] holds it. *)
Inductive wire (rpc_map : gmap Z py_value) : py_value -> list byte -> Prop :=
| wire_tuple items arity body :
    wire_seq rpc_map items body ->
    byte_val arity = Z.of_nat (List.length items) ->
    wire rpc_map (VTuple items) (x74 :: arity :: body)
| wire_none :
    wire rpc_map VNone [x6e]
| wire_bool b :
    wire rpc_map (VBool b) [x62; if b then x01 else x00]
| wire_int32 v field :
    pack_l v = Some field ->
    wire rpc_map (VInt v) (x69 :: field)
| wire_int64 v field :
    pack_q v = Some field ->
    wire rpc_map (VInt v) (x49 :: field)
| wire_float64 bits field :
    pack_d bits = Some field ->
    wire rpc_map (VFloat bits) (x66 :: field)
| wire_fraction n d g nb db :
    pack_q n = Some nb ->
    pack_q d = Some db ->
    d <> 0 ->
    g = (if d <? 0 then - Z.gcd n d else Z.gcd n d) ->
    wire rpc_map (VFraction (n / g) (d / g)) (x46 :: nb ++ db)
| wire_string utf8 field :
    utf8_valid utf8 = true ->
    pack_l (Z.of_nat (List.length (utf8 ++ [x00]))) = Some field ->
    wire rpc_map (VStr utf8) (x73 :: field ++ utf8 ++ [x00])
| wire_list items field body :
    wire_seq rpc_map items body ->
    pack_l (Z.of_nat (List.length items)) = Some field ->
    wire rpc_map (VList items) (x6c :: field ++ body)
| wire_range lower upper step lo hi st b1 b2 b3 :
    wire rpc_map lower b1 ->
    wire rpc_map upper b2 ->
    wire rpc_map step b3 ->
    as_int lower = Some lo ->
    as_int upper = Some hi ->
    as_int step = Some st ->
    st <> 0 ->
    wire rpc_map (VRange lo hi st) (x72 :: b1 ++ b2 ++ b3)
| wire_object index field v :
    pack_l index = Some field ->
    rpc_map !! index = Some v ->
    wire rpc_map v (x6f :: field)
with wire_seq (rpc_map : gmap Z py_value)
  : list py_value -> list byte -> Prop :=
| wire_seq_nil :
    wire_seq rpc_map [] []
| wire_seq_cons v vs b bs :
    wire rpc_map v b ->
    wire_seq rpc_map vs bs ->
    wire_seq rpc_map (v :: vs) (b ++ bs).

Scheme wire_mut := Minimality for wire Sort Prop
  with wire_seq_mut := Minimality for wire_seq Sort Prop.

Combined Scheme wire_mutind from wire_mut, wire_seq_mut.

(** ** Exported APIs *)

(** [reset_session]: the synchronisation sequence and a length of zero,
    in one [write]. *)
Definition reset_session : M unit :=
  header ← struct_ (pack_ll 0x5a5a5a5a 0);
  write header.

(** The exceptions of the exported operations: those of the reader and
    the writer, and the two that [check_ident] and [flash_storage_write]
    raise themselves. *)
Inductive api_exn :=
| Inner (e : py_exn)
| UnsupportedDevice (runtime_id : list byte)  (* "Unsupported runtime ID" *)
| IOError_flash_full.                         (* "Flash storage is full" *)

Inductive api_result (A : Type) :=
| Returned (a : A) (s : CommGeneric)
| Raised (e : api_exn) (s : CommGeneric)
| Unsettled.
Arguments Returned {A} a s.
Arguments Raised {A} e s.
Arguments Unsettled {A}.

Definition api {A} (r : result A) : api_result A :=
  match r with
  | Done a s => Returned a s
  | Raise e s => Raised (Inner e) s
  | Diverge => Unsettled
  end.

#[global] Instance byte_eq_dec : EqDecision byte := Byte.byte_eq_dec.

Definition check_ident (s : CommGeneric) : api_result unit :=
  match (_write_empty IDENT_REQUEST;;
         _read_header;;
         _read_expect IDENT_REPLY;;
         _read_chunk 4) s with
  | Done runtime_id s' =>
      if decide (runtime_id = text_of "AROR") then Returned tt s'
      else Raised (UnsupportedDevice runtime_id) s'
  | Raise e s' => Raised (Inner e) s'
  | Diverge => Unsettled
  end.

(** [external] is the integer that [struct.pack("B", external)] packs;
    for a [bool] that is 0 or 1. *)
Definition switch_clock (external : Z) : M unit :=
  _write_header SWITCH_CLOCK;;
  _write_int8 external;;
  _write_flush;;
  _read_empty CLOCK_SWITCH_COMPLETED.

Definition get_log : M text :=
  _write_empty LOG_REQUEST;;
  _read_header;;
  _read_expect LOG_REPLY;;
  r ← gets _read_length;
  bs ← _read_chunk r;
  decode_utf8 bs.

Definition flash_storage_read (key : text) : M (list byte) :=
  _write_header FLASH_READ_REQUEST;;
  _write_string key;;
  _write_flush;;
  _read_header;;
  _read_expect FLASH_READ_REPLY;;
  r ← gets _read_length;
  _read_chunk r.

Definition flash_storage_write (key : text) (value : list byte)
    (s : CommGeneric) : api_result unit :=
  match (_write_header FLASH_WRITE_REQUEST;;
         _write_string key;;
         _write_bytes value;;
         _write_flush;;
         _read_header) s with
  | Done _ s' =>
      if decide (_read_type s' = Some FLASH_ERROR_REPLY)
      then Raised IOError_flash_full s'
      else api (_read_expect FLASH_OK_REPLY s')
  | Raise e s' => Raised (Inner e) s'
  | Diverge => Unsettled
  end.

Definition flash_storage_erase : M unit :=
  _write_empty FLASH_ERASE_REQUEST;;
  _read_empty FLASH_OK_REPLY.

Definition flash_storage_remove (key : text) : M unit :=
  _write_header FLASH_REMOVE_REQUEST;;
  _write_string key;;
  _write_flush;;
  _read_empty FLASH_OK_REPLY.

Definition load (kernel_library : list byte) : M unit :=
  _write_header LOAD_LIBRARY;;
  _write_chunk kernel_library;;
  _write_flush;;
  _read_empty LOAD_COMPLETED.

Definition run : M unit :=
  _write_empty RUN_KERNEL.

(** ** Vocabulary of the further statements *)

(** A frame on the wire: the synchronisation sequence, the length of the
    header and the body, the code of the kind and the body. *)
Definition frame (code : Z) (body : list byte) : list byte :=
  sync_sequence ++ be_bytes 4 (9 + Z.of_nat (List.length body))
  ++ [byte_of_Z code] ++ body.

(** The operations of the writer interface that add to the message in
    preparation. *)
Inductive writer_op :=
| Op_write_chunk (chunk : list byte)
| Op_write_int8 (value : Z)
| Op_write_int32 (value : Z)
| Op_write_int64 (value : Z)
| Op_write_float64 (bits : Z)
| Op_write_bytes (value : list byte)
| Op_write_string (value : text).

Definition run_writer_op (op : writer_op) : M unit :=
  match op with
  | Op_write_chunk chunk => _write_chunk chunk
  | Op_write_int8 value => _write_int8 value
  | Op_write_int32 value => _write_int32 value
  | Op_write_int64 value => _write_int64 value
  | Op_write_float64 bits => _write_float64 bits
  | Op_write_bytes value => _write_bytes value
  | Op_write_string value => _write_string value
  end.

(** A message the way the exported operations send one: the header, the
    writes of the body, the flush. *)
Definition prepare (ty : _H2DMsgType) (ops : list writer_op) : M unit :=
  _write_header ty;; forM_ ops run_writer_op.

Definition send (ty : _H2DMsgType) (ops : list writer_op) : M unit :=
  prepare ty ops;; _write_flush.

(** The operations of the reader interface that read the body of the
    current message, one after the other, as long as they return. *)
Fixpoint run_reader_ops (ops : list reader_op) (s : CommGeneric)
  : option CommGeneric :=
  match ops with
  | [] => Some s
  | op :: ops' =>
      match run_reader_op op s with
      | (Some s', true) => run_reader_ops ops' s'
      | _ => None
      end
  end.

(** The size that an operation passes on to [_read_chunk] and that is
    not fixed by the code: the argument of [_read_chunk] itself and, for
    [_read_bytes] and [_read_string], the length field at the head of the
    channel. *)
Definition requested_size (op : reader_op) (s : CommGeneric) : option Z :=
  match op with
  | Op_read_chunk n => Some n
  | Op_read_bytes | Op_read_string => unpack_l (take 4 (rx s))
  | _ => None
  end.

(** No operation of the run asks for a negative number of bytes. What
    the channel does with such a request is left open by [read]. *)
Fixpoint sizes_nonneg (ops : list reader_op) (s : CommGeneric) : bool :=
  match ops with
  | [] => true
  | op :: ops' =>
      match requested_size op s with
      | Some n => 0 <=? n
      | None => true
      end
      && match run_reader_op op s with
         | (Some s', true) => sizes_nonneg ops' s'
         | _ => true
         end
  end.

(** The tag bytes that [_receive_rpc_value] knows. *)
Definition rpc_tags : list Z :=
  [0; 116; 110; 98; 105; 73; 102; 70; 115; 108; 114; 111].

(** An operation that, when it returns, has taken from the channel as
    many bytes as it has taken off the remaining-body-length, and has
    changed nothing else. *)
Definition reads_body {A} (m : M A) : Prop :=
  forall s a s',
    m s = Done a s' ->
    exists taken,
      rx s = taken ++ rx s'
      /\ Z.of_nat (List.length taken) = _read_length s - _read_length s'
      /\ _read_type s' = _read_type s
      /\ _write_type s' = _write_type s
      /\ _write_buffer s' = _write_buffer s
      /\ tx s' = tx s.

(** An operation that leaves the writer and the bytes transmitted as it
    found them, whether it returns or raises. *)
Definition leaves_writer {A} (m : M A) : Prop :=
  forall s,
    match m s with
    | Done _ s' =>
        _write_type s' = _write_type s
        /\ _write_buffer s' = _write_buffer s
        /\ tx s' = tx s
    | Raise _ s' =>
        _write_type s' = _write_type s
        /\ _write_buffer s' = _write_buffer s
        /\ tx s' = tx s
    | Diverge => True
    end.

(** A text as [_write_string] lays it out: the int32 length, the bytes
    and a NUL byte. *)
Definition string_field (value : text) : list byte :=
  be_bytes 4 (Z.of_nat (List.length value) + 1) ++ value ++ [x00].

(** The fields of an exception as both directions lay them out: name,
    message, three int64 parameters, file name, line, column, function. *)
Definition exception_fields (exn : artiq_exception) (p0 p1 p2 : Z) : list byte :=
  string_field (name exn) ++ string_field (message exn)
  ++ be_bytes 8 (p0 mod 2 ^ 64) ++ be_bytes 8 (p1 mod 2 ^ 64)
  ++ be_bytes 8 (p2 mod 2 ^ 64)
  ++ string_field (filename exn)
  ++ be_bytes 4 (line exn mod 2 ^ 32) ++ be_bytes 4 (column exn mod 2 ^ 32)
  ++ string_field (function exn).
(** * Properties *)

(** ** Bytes *)

Lemma byte_val_range (b : byte) : 0 <= byte_val b < 256.
Proof.
  unfold byte_val. pose proof (Byte.to_N_bounded b). lia.
Qed.

Lemma byte_of_Z_val (b : byte) : byte_of_Z (byte_val b) = b.
Proof.
  unfold byte_of_Z. pose proof (byte_val_range b).
  rewrite Z.mod_small by lia. unfold byte_val.
  rewrite N2Z.id, Byte.of_to_N. reflexivity.
Qed.

Lemma byte_val_of_Z (z : Z) : byte_val (byte_of_Z z) = z mod 256.
Proof.
  unfold byte_of_Z, byte_val.
  pose proof (Z.mod_pos_bound z 256 ltac:(lia)) as Hr.
  destruct (Byte.of_N (Z.to_N (z mod 256))) as [b|] eqn:E.
  - apply Byte.to_of_N in E. rewrite E. lia.
  - apply Byte.of_N_None_iff in E. lia.
Qed.

Lemma be_unsigned_app (xs ys : list byte) :
  be_unsigned (xs ++ ys)
  = be_unsigned xs * 256 ^ Z.of_nat (List.length ys) + be_unsigned ys.
Proof.
  unfold be_unsigned.
  assert (G : forall ys acc,
             fold_left (fun a b => a * 256 + byte_val b) ys acc
             = acc * 256 ^ Z.of_nat (List.length ys)
               + fold_left (fun a b => a * 256 + byte_val b) ys 0).
  { clear. induction ys as [|y ys IH]; intros acc; cbn [fold_left List.length].
    - change (Z.of_nat 0) with 0. lia.
    - rewrite (IH (acc * 256 + byte_val y)), (IH (0 * 256 + byte_val y)).
      rewrite Nat2Z.inj_succ, Z.pow_succ_r by lia. ring. }
  rewrite fold_left_app. apply G.
Qed.

Lemma be_unsigned_bytes (n : nat) (v : Z) :
  be_unsigned (be_bytes n v) = v mod 256 ^ Z.of_nat n.
Proof.
  induction n as [|n IH].
  - simpl. rewrite Z.mod_1_r. reflexivity.
  - change (be_bytes (S n) v)
      with ([byte_of_Z (v / 256 ^ Z.of_nat n)] ++ be_bytes n v).
    rewrite be_unsigned_app, IH.
    assert (L : forall k, List.length (be_bytes k v) = k)
      by (clear; induction k; simpl; congruence).
    rewrite L. unfold be_unsigned at 1. simpl fold_left.
    rewrite byte_val_of_Z.
    replace (Z.of_nat (S n)) with (Z.succ (Z.of_nat n)) by lia.
    rewrite Z.pow_succ_r by lia.
    assert (P : 0 < 256 ^ Z.of_nat n) by (apply Z.pow_pos_nonneg; lia).
    rewrite (Z.mul_comm 256), Z.rem_mul_r by lia. lia.
Qed.

Lemma be_bytes_length (n : nat) (v : Z) : List.length (be_bytes n v) = n.
Proof. induction n; simpl; congruence. Qed.

(** Unpacking what [pack_l] produced gives the integer back. *)
Lemma unpack_pack_l (v : Z) (bs : list byte) :
  pack_l v = Some bs -> unpack_l bs = Some v.
Proof.
  unfold pack_l, unpack_l.
  destruct (_ && _) eqn:E; [|discriminate]. intros H.
  assert (bs = be_bytes 4 (v mod 2 ^ 32)) as -> by congruence. clear H.
  rewrite be_bytes_length. change (Nat.eqb 4 4) with true. cbv iota.
  rewrite be_unsigned_bytes. f_equal. unfold to_signed.
  change (256 ^ Z.of_nat 4) with (2 ^ 32).
  rewrite Z.mod_mod by lia.
  apply andb_true_iff in E as [E1 E2].
  apply Z.leb_le in E1, E2.
  destruct (Z.ltb_spec (v mod 2 ^ 32) (2 ^ (32 - 1))) as [H|H].
  - destruct (Z.lt_ge_cases v 0) as [Hn|Hn].
    + rewrite <- (Z.mod_add v 1), Z.mod_small in H; lia.
    + apply Z.mod_small. lia.
  - destruct (Z.lt_ge_cases v 0) as [Hn|Hn].
    + rewrite <- (Z.mod_add v 1), Z.mod_small; lia.
    + rewrite Z.mod_small in H; lia.
Qed.

Lemma pack_l_nonneg (v : Z) :
  0 <= v <= 2 ^ 31 - 1 -> pack_l v = Some (be_bytes 4 v).
Proof.
  intros H. unfold pack_l.
  destruct (Z.leb_spec (- 2 ^ 31) v); [|lia].
  destruct (Z.leb_spec v (2 ^ 31 - 1)); [|lia].
  simpl. rewrite Z.mod_small by lia. reflexivity.
Qed.

(** ** The monad *)

Ltac unfold_M :=
  unfold struct_ in *;
  unfold mbind, M_bind, mret, M_ret, raise, gets, modify in *.

Lemma bind_Done {A B} (m : M A) (f : A -> M B) (s s' : CommGeneric) (a : A) :
  m s = Done a s' -> (m ≫= f) s = f a s'.
Proof. intros H. unfold mbind, M_bind. rewrite H. reflexivity. Qed.

Lemma bind_Raise {A B} (m : M A) (f : A -> M B) (s s' : CommGeneric) (e : py_exn) :
  m s = Raise e s' -> (m ≫= f) s = Raise e s'.
Proof. intros H. unfold mbind, M_bind. rewrite H. reflexivity. Qed.

(** ** The library functions, on examples *)

Example utf8_valid_two_bytes : utf8_valid [xc3; xa9] = true.
Proof. reflexivity. Qed.

Example utf8_valid_overlong : utf8_valid [xc0; x80] = false.
Proof. reflexivity. Qed.

Example utf8_valid_surrogate : utf8_valid [xed; xa0; x80] = false.
Proof. reflexivity. Qed.

Example utf8_valid_above_range : utf8_valid [xf4; x90; x80; x80] = false.
Proof. reflexivity. Qed.

Example utf8_valid_truncated : utf8_valid [xe2; x82] = false.
Proof. reflexivity. Qed.

Example utf8_valid_four_bytes : utf8_valid [xf0; x9f; x98; x80; x41] = true.
Proof. reflexivity. Qed.

Example unpack_l_negative : unpack_l [xff; xff; xff; xfe] = Some (-2).
Proof. reflexivity. Qed.

Example pack_l_negative : pack_l (-2) = Some [xff; xff; xff; xfe].
Proof. reflexivity. Qed.

Example pack_l_out_of_range : pack_l (2 ^ 31) = None.
Proof. reflexivity. Qed.

Example decimal_negative : decimal (-12) = text_of "-12".
Proof. reflexivity. Qed.

(** ** The channel *)

Lemma read_prefix (bs rest : list byte) (s : CommGeneric) :
  rx s = bs ++ rest ->
  read (Z.of_nat (List.length bs)) s = Done bs (set_rx rest s).
Proof.
  intros H. unfold read. rewrite H, length_app.
  destruct (Z.leb_spec 0 (Z.of_nat (List.length bs))); [|lia].
  destruct (Z.leb_spec (Z.of_nat (List.length bs))
              (Z.of_nat (List.length bs + List.length rest))); [|lia].
  simpl. rewrite Nat2Z.id, take_app_length, drop_app_length. reflexivity.
Qed.

Lemma read_one (b : byte) (rest : list byte) (s : CommGeneric) :
  rx s = b :: rest -> read 1 s = Done [b] (set_rx rest s).
Proof. intros H. exact (read_prefix [b] rest s H). Qed.

Lemma read_inv (n : Z) (s s' : CommGeneric) (bs : list byte) :
  read n s = Done bs s' ->
  0 <= n /\ Z.of_nat (List.length bs) = n /\ rx s = bs ++ rx s'
  /\ s' = set_rx (rx s') s.
Proof.
  unfold read.
  destruct (Z.leb_spec 0 n); simpl; [|discriminate].
  destruct (Z.leb_spec n (Z.of_nat (List.length (rx s)))); [|discriminate].
  intros [= <- <-]. simpl. rewrite take_drop, length_take. repeat split; lia.
Qed.

Lemma read_fail (n : Z) (s s' : CommGeneric) (e : py_exn) :
  read n s = Raise e s' -> s' = s.
Proof.
  unfold read. destruct (_ && _); [discriminate|]. congruence.
Qed.

(** ** Synchronisation *)

(** The loop of the source, one turn at a time: while the count is below
    4, a byte is read, and the count goes up by one on 0x5a and back to
    zero on any other byte. *)
Lemma sync_from_unfold (sync_count : Z) (s : CommGeneric) :
  sync_from sync_count s
  = if sync_count <? 4 then
      (bs ← read 1;
       sync_byte ← struct_ (unpack_B bs);
       if sync_byte =? 0x5a then sync_from (sync_count + 1)
       else sync_from 0) s
    else Done tt s.
Proof.
  destruct s as [rt wt rl wb pending out].
  destruct pending as [|b pending].
  - unfold sync_from. simpl. destruct (sync_count <? 4); reflexivity.
  - unfold sync_from at 1. simpl. destruct (sync_count <? 4); [|reflexivity].
    erewrite bind_Done by (apply read_one; reflexivity).
    unfold sync_from. unfold_M. simpl.
    destruct (byte_val b =? 90); reflexivity.
Qed.

Lemma wait_sync_done (pending : list byte) : wait_sync 4 pending = Some pending.
Proof. destruct pending; reflexivity. Qed.

Lemma wait_sync_sequence (rest : list byte) :
  wait_sync 0 (sync_sequence ++ rest) = Some rest.
Proof. simpl. apply wait_sync_done. Qed.

Lemma wait_sync_noise (prefix rest : list byte) :
  Forall (fun b => byte_val b <> 0x5a) prefix ->
  wait_sync 0 (prefix ++ rest) = wait_sync 0 rest.
Proof.
  induction 1 as [|b prefix Hb _ IH]; [reflexivity|].
  simpl. destruct (Z.eqb_spec (byte_val b) 90); [contradiction|]. exact IH.
Qed.

Lemma sync_frame (prefix rest : list byte) (s : CommGeneric) :
  Forall (fun b => byte_val b <> 0x5a) prefix ->
  rx s = prefix ++ sync_sequence ++ rest ->
  sync s = Done tt (set_rx rest s).
Proof.
  intros Hp Hrx. unfold sync, sync_from.
  rewrite Hrx, wait_sync_noise, wait_sync_sequence by assumption.
  reflexivity.
Qed.

(** ** Headers *)

(** What the header parser does with a length field and a type byte. *)
Lemma read_message_header_frame (s : CommGeneric) (field : list byte)
    (len : Z) (raw : byte) (rest : list byte) :
  rx s = field ++ raw :: rest ->
  unpack_l field = Some len ->
  read_message_header s =
    if len =? 0 then
      Raise OSError_connection_closed
        (Comm (_read_type s) (_write_type s) len (_write_buffer s)
           (raw :: rest) (tx s))
    else
      match D2H_of_value (byte_val raw) with
      | None =>
          Raise (ValueError_msg_type (byte_val raw))
            (Comm (_read_type s) (_write_type s) len (_write_buffer s)
               rest (tx s))
      | Some ty =>
          if len <? 9 then
            Raise (IOError_header_overrun len)
              (Comm (Some ty) (_write_type s) len (_write_buffer s)
                 rest (tx s))
          else
            Done tt
              (Comm (Some ty) (_write_type s) (len - 9) (_write_buffer s)
                 rest (tx s))
      end.
Proof.
  intros Hrx Hlen.
  assert (L : List.length field = 4%nat).
  { unfold unpack_l in Hlen. destruct (Nat.eqb_spec (List.length field) 4);
      [assumption|discriminate]. }
  unfold read_message_header.
  pose proof (read_prefix field (raw :: rest) s Hrx) as R4.
  rewrite L in R4. change (Z.of_nat 4) with 4 in R4.
  unfold_M. rewrite R4, Hlen. simpl.
  destruct (len =? 0); [reflexivity|].
  erewrite read_one by reflexivity. simpl.
  destruct (D2H_of_value (byte_val raw)); [|reflexivity].
  simpl. destruct (len <? 9); reflexivity.
Qed.

Ltac break_match :=
  match goal with
  | |- context [match ?x with _ => _ end] => destruct x eqn:?
  | H : context [match ?x with _ => _ end] |- _ => destruct x eqn:?
  end.


Lemma read_header_after_sync (s : CommGeneric) (prefix rest : list byte) :
  _read_length s <= 0 ->
  Forall (fun b => byte_val b <> 0x5a) prefix ->
  rx s = prefix ++ sync_sequence ++ rest ->
  _read_header s = read_message_header (set_rx rest s).
Proof.
  intros Hr Hp Hrx. unfold _read_header. unfold_M.
  destruct (Z.ltb_spec 0 (_read_length s)); [lia|].
  rewrite (sync_frame prefix rest s Hp Hrx). reflexivity.
Qed.

(** *** Synchronisation is insensitive to noise (C6) *)

(** A run of fewer than four bytes 0x5a followed by another byte leaves
    the loop with a count of zero on what follows. *)
Lemma wait_sync_broken_run (k : nat) (b : byte) (pending : list byte) :
  (k < 4)%nat -> byte_val b <> 0x5a ->
  wait_sync 0 (repeat x5a k ++ b :: pending) = wait_sync 0 pending.
Proof.
  intros Hk Hb.
  destruct k as [|[|[|[|k]]]]; [| | | |lia]; simpl;
    destruct (Z.eqb_spec (byte_val b) 90); try contradiction; reflexivity.
Qed.

(** C6: for a channel that delivers any prefix of bytes other than 0x5a,
    then four bytes 0x5a, [_read_header] (not in underrun) consumes in
    its loop exactly the prefix and the four synchronisation bytes,
    whatever follows them, and then reads the length field: the four
    bytes that follow are unpacked into the remaining length, a length of
    zero ends the call with the error of the closed connection before any
    further byte is taken, and any other length is followed by the read
    of the type byte and the checks on it. A byte other than 0x5a sends
    the loop back to a count of zero, whatever the count reached: a run
    of one, two or three bytes 0x5a followed by such a byte is consumed
    and does not count towards the sequence. *)
Theorem C6_read_header_synchronizes (s : CommGeneric) (prefix rest : list byte) :
  _read_length s <= 0 ->
  Forall (fun b => byte_val b <> 0x5a) prefix ->
  rx s = prefix ++ sync_sequence ++ rest ->
  sync s = Done tt (set_rx rest s)
  /\ (forall field raw rest' len,
        rest = field ++ raw :: rest' ->
        unpack_l field = Some len ->
        _read_header s
        = if len =? 0 then
            Raise OSError_connection_closed
              (Comm (_read_type s) (_write_type s) 0 (_write_buffer s)
                 (raw :: rest') (tx s))
          else
            match D2H_of_value (byte_val raw) with
            | None =>
                Raise (ValueError_msg_type (byte_val raw))
                  (Comm (_read_type s) (_write_type s) len (_write_buffer s)
                     rest' (tx s))
            | Some ty =>
                if len <? 9 then
                  Raise (IOError_header_overrun len)
                    (Comm (Some ty) (_write_type s) len (_write_buffer s)
                       rest' (tx s))
                else
                  Done tt
                    (Comm (Some ty) (_write_type s) (len - 9)
                       (_write_buffer s) rest' (tx s))
            end)
  /\ (forall sync_count b pending,
        sync_count < 4 -> byte_val b <> 0x5a ->
        wait_sync sync_count (b :: pending) = wait_sync 0 pending)
  /\ (forall (k : nat) b pending t,
        (k < 4)%nat -> byte_val b <> 0x5a ->
        rx t = repeat x5a k ++ b :: pending ->
        sync t = sync (set_rx pending t)).
Proof.
  intros Hr Hp Hrx.
  pose proof (sync_frame prefix rest s Hp Hrx) as Hs.
  split; [exact Hs|]. split; [|split].
  - intros field raw rest' len -> Hf.
    rewrite (read_header_after_sync s prefix _ Hr Hp Hrx).
    rewrite (read_message_header_frame (set_rx (field ++ raw :: rest') s)
               field len raw rest' eq_refl Hf).
    destruct (Z.eqb_spec len 0) as [->|]; reflexivity.
  - intros c b pending Hc Hb. simpl.
    destruct (Z.ltb_spec c 4); [|lia].
    destruct (Z.eqb_spec (byte_val b) 90); [contradiction|reflexivity].
  - intros k b pending t Hk Hb Ht. unfold sync, sync_from.
    rewrite Ht, (wait_sync_broken_run k b pending Hk Hb).
    destruct t; reflexivity.
Qed.

Lemma C6_read_header_synchronizes_witness :
  let s := __init__ [x01; x02; x5a; x5a; x5a; x5a; x00; x00; x00; x09; x07; x5a] in
  sync s = Done tt (set_rx [x00; x00; x00; x09; x07; x5a] s)
  /\ _read_header s
     = Done tt (Comm (Some KERNEL_FINISHED) None 0 [] [x5a] [])
  /\ sync (__init__ [x5a; x5a; x5a; x01; x5a; x5a; x5a; x5a; x2a])
     = sync (__init__ [x5a; x5a; x5a; x5a; x2a]).
Proof.
  intros s.
  destruct (C6_read_header_synchronizes s [x01; x02]
              [x00; x00; x00; x09; x07; x5a])
    as (H1 & H2 & _ & H4).
  - simpl. lia.
  - repeat constructor; vm_compute; discriminate.
  - reflexivity.
  - split; [exact H1|]. split.
    + exact (H2 [x00; x00; x00; x09] x07 [x5a] 9 eq_refl eq_refl).
    + exact (H4 3%nat x01 [x5a; x5a; x5a; x5a; x2a]
               (__init__ [x5a; x5a; x5a; x01; x5a; x5a; x5a; x5a; x2a])
               ltac:(lia) ltac:(vm_compute; discriminate) eq_refl).
Defined.

(** *** Headers shorter than the header itself (C5) *)

(** C5, as stated, fails: with a declared length of 5 and a type byte of
    0, which is no Device-to-Host kind, [_read_header] raises the error of
    the unknown type code, not the header overrun. *)
Lemma C5_unknown_type_before_overrun :
  let s := __init__ [x5a; x5a; x5a; x5a; x00; x00; x00; x05; x00] in
  unpack_l [x00; x00; x00; x05] = Some 5
  /\ D2H_of_value (byte_val x00) = None
  /\ _read_header s = Raise (ValueError_msg_type 0) (Comm None None 5 [] [] [])
  /\ ~ (exists remaining s', _read_header s = Raise (IOError_header_overrun remaining) s').
Proof.
  repeat split; try reflexivity.
  intros (r & s' & H). vm_compute in H. discriminate.
Qed.

(** C5, amended: for a header that declares a length between 1 and 8,
    [_read_header] consumes the synchronisation sequence, the length field
    and the type byte, and nothing after them; it then fails with the
    header overrun if the type byte is the code of a Device-to-Host kind,
    and with the error of the unknown type code if it is not. *)
Theorem C5_short_header (s : CommGeneric) (prefix field rest : list byte)
    (len : Z) (raw : byte) :
  _read_length s <= 0 ->
  Forall (fun b => byte_val b <> 0x5a) prefix ->
  rx s = prefix ++ sync_sequence ++ field ++ raw :: rest ->
  unpack_l field = Some len ->
  1 <= len <= 8 ->
  _read_header s =
    match D2H_of_value (byte_val raw) with
    | Some ty =>
        Raise (IOError_header_overrun len)
          (Comm (Some ty) (_write_type s) len (_write_buffer s) rest (tx s))
    | None =>
        Raise (ValueError_msg_type (byte_val raw))
          (Comm (_read_type s) (_write_type s) len (_write_buffer s) rest (tx s))
    end.
Proof.
  intros Hr Hp Hrx Hf Hlen.
  rewrite (read_header_after_sync s prefix (field ++ raw :: rest) Hr Hp Hrx).
  rewrite (read_message_header_frame (set_rx (field ++ raw :: rest) s)
             field len raw rest eq_refl Hf).
  simpl.
  destruct (Z.eqb_spec len 0); [lia|].
  destruct (Z.ltb_spec len 9); [|lia].
  reflexivity.
Qed.

Lemma C5_short_header_witness :
  let s := __init__ [xaa; x5a; x5a; x5a; x5a; x00; x00; x00; x08; x0a; x2a] in
  _read_header s
  = Raise (IOError_header_overrun 8) (Comm (Some RPC_REQUEST) None 8 [] [x2a] []).
Proof.
  intros s.
  apply (C5_short_header s [xaa] [x00; x00; x00; x08] [x2a] 8 x0a).
  - simpl. lia.
  - repeat constructor. vm_compute. discriminate.
  - reflexivity.
  - reflexivity.
  - lia.
Defined.

(** *** Chunks (C7) *)

(** C7: [_read_chunk n] with [r] bytes of body remaining. If [n > r] it
    raises the overrun error and leaves the object and the channel as they
    were. Otherwise it sets the remaining length to [r - n] and returns
    what [read n] returns; for a size [n] that the channel can deliver,
    that is exactly the next [n] bytes. *)
Theorem C7_read_chunk (n : Z) (s : CommGeneric) :
  let r := _read_length s in
  (r < n ->
     _read_chunk n s = Raise (IOError_chunk_overrun n r (_read_type s)) s)
  /\ (n <= r ->
        _read_chunk n s = read n (set_read_length (r - n) s))
  /\ (0 <= n <= r -> n <= Z.of_nat (List.length (rx s)) ->
        exists bs s',
          _read_chunk n s = Done bs s'
          /\ Z.of_nat (List.length bs) = n
          /\ rx s = bs ++ rx s'
          /\ _read_length s' = r - n).
Proof.
  intros r. subst r. unfold _read_chunk. unfold_M. repeat split.
  - intros H. destruct (Z.ltb_spec (_read_length s) n); [reflexivity|lia].
  - intros H. destruct (Z.ltb_spec (_read_length s) n); [lia|reflexivity].
  - intros H Hrx. destruct (Z.ltb_spec (_read_length s) n); [lia|].
    unfold read. simpl.
    destruct (Z.leb_spec 0 n); [|lia].
    destruct (Z.leb_spec n (Z.of_nat (List.length (rx s)))); [|lia].
    simpl. eexists _, _. split; [reflexivity|]. simpl.
    rewrite take_drop, length_take. repeat split; lia.
Qed.

Lemma C7_read_chunk_witness :
  let s := Comm (Some LOG_REPLY) None 5 [] [x01; x02; x03] [] in
  (5 < 6 ->
     _read_chunk 6 s = Raise (IOError_chunk_overrun 6 5 (Some LOG_REPLY)) s)
  /\ (2 <= 5 ->
        _read_chunk 2 s = read 2 (set_read_length (5 - 2) s))
  /\ (0 <= 2 <= 5 -> 2 <= Z.of_nat (List.length (rx s)) ->
        exists bs s',
          _read_chunk 2 s = Done bs s'
          /\ Z.of_nat (List.length bs) = 2
          /\ rx s = bs ++ rx s'
          /\ _read_length s' = 5 - 2).
Proof.
  intros s.
  split; [exact (proj1 (C7_read_chunk 6 s))|].
  exact (proj2 (C7_read_chunk 2 s)).
Defined.

(** *** The remaining-body-length stays non-negative (C10) *)

Lemma keeps_nonneg_bind {A B} (m : M A) (f : A -> M B) :
  keeps_nonneg m -> (forall a, keeps_nonneg (f a)) -> keeps_nonneg (m ≫= f).
Proof.
  intros Hm Hf s Hs. specialize (Hm s Hs). unfold mbind, M_bind.
  destruct (m s) as [a s'| |]; try assumption.
  exact (Hf a s' Hm).
Qed.

Lemma keeps_nonneg_struct {A} (o : option A) : keeps_nonneg (struct_ o).
Proof. intros s Hs. destruct o; exact Hs. Qed.

Lemma keeps_nonneg_read_chunk (n : Z) : keeps_nonneg (_read_chunk n).
Proof.
  intros s Hs. unfold _read_chunk, read. unfold_M.
  destruct (Z.ltb_spec (_read_length s) n); [exact Hs|]. simpl.
  destruct (_ && _); simpl; lia.
Qed.

Lemma keeps_nonneg_read_int32 : keeps_nonneg _read_int32.
Proof.
  apply keeps_nonneg_bind; [apply keeps_nonneg_read_chunk|].
  intros bs. apply keeps_nonneg_struct.
Qed.

Lemma keeps_nonneg_read_bytes : keeps_nonneg _read_bytes.
Proof.
  apply keeps_nonneg_bind; [apply keeps_nonneg_read_int32|].
  intros n. apply keeps_nonneg_read_chunk.
Qed.

Lemma keeps_nonneg_read_expect (ty : _D2HMsgType) : keeps_nonneg (_read_expect ty).
Proof.
  intros s Hs. unfold _read_expect. unfold_M. destruct (decide _); exact Hs.
Qed.

(** A header that is accepted leaves a non-negative length, whatever the
    length was before. *)
Lemma read_header_nonneg (s s' : CommGeneric) :
  _read_header s = Done tt s' -> 0 <= _read_length s'.
Proof.
  unfold _read_header, read_message_header, sync, sync_from, read. unfold_M.
  intros H. repeat (break_match; try discriminate).
  injection H as <-. simpl in *.
  match goal with E : (_ <? 9) = false |- _ => apply Z.ltb_ge in E end. lia.
Qed.

Lemma read_header_settles (s : CommGeneric) : _read_header s <> Diverge.
Proof.
  unfold _read_header, read_message_header, sync, sync_from, read. unfold_M.
  repeat (break_match; try discriminate).
Qed.

(** C10, as stated, fails: a header that declares the length -1 is
    refused, and the refusal leaves a remaining-body-length of -1 in an
    object whose remaining-body-length was 0. *)
Lemma C10_negative_after_refused_header :
  let s := __init__ [x5a; x5a; x5a; x5a; xff; xff; xff; xff; x07] in
  0 <= _read_length s
  /\ exists e s', _read_header s = Raise e s' /\ _read_length s' < 0.
Proof.
  split; [simpl; lia|].
  exists (IOError_header_overrun (-1)), (Comm (Some KERNEL_FINISHED) None (-1) [] [] []).
  split; [reflexivity|simpl; lia].
Qed.

(** A header that is refused leaves the length that was there, or the
    length the header declares. *)
Lemma read_header_refused (s s' : CommGeneric) (e : py_exn) :
  _read_header s = Raise e s' ->
  _read_length s' = _read_length s
  \/ declared_length s = Some (_read_length s').
Proof.
  unfold _read_header, read_message_header, sync, sync_from, read, declared_length.
  unfold_M.
  intros H.
  repeat (break_match; try discriminate; simplify_eq; simpl in *);
    try (left; reflexivity); right;
    change (Z.to_nat 4) with 4%nat in *; congruence.
Qed.

(** C10, amended: the remaining-body-length is zero in a new object, and
    an operation of the reader interface that finds it non-negative leaves
    it non-negative, whether the operation returns or raises, with one
    exception: [_read_header] (alone or in [_read_empty]) stores the
    declared length before it checks it, so that when it raises on a
    header that declares a negative length, that negative length is what
    remains. *)
Theorem C10_read_length_nonneg (op : reader_op) (s : CommGeneric) :
  (forall channel, _read_length (__init__ channel) = 0)
  /\ (0 <= _read_length s ->
      exists s' ok,
        run_reader_op op s = (Some s', ok)
        /\ (0 <= _read_length s'
            \/ (ok = false /\ parses_header op = true
                /\ _read_length s' < 0
                /\ declared_length s = Some (_read_length s')))).
Proof.
  split; [reflexivity|]. intros Hs.
  assert (K : forall A (m : M A), keeps_nonneg m ->
            exists s' ok, (state_after (m s), returned (m s)) = (Some s', ok)
                          /\ (0 <= _read_length s'
                              \/ (ok = false /\ false = true
                                  /\ _read_length s' < 0
                                  /\ declared_length s = Some (_read_length s')))).
  { intros A m Hm. specialize (Hm s Hs).
    destruct (m s) as [a s'|e s'|]; [| |contradiction];
      simpl; eauto. }
  assert (H : forall s' e, _read_header s = Raise e s' ->
            0 <= _read_length s'
            \/ (false = false /\ true = true
                /\ _read_length s' < 0
                /\ declared_length s = Some (_read_length s'))).
  { intros s' e E. apply read_header_refused in E as [E|E].
    - left. lia.
    - destruct (Z.lt_ge_cases (_read_length s') 0); [right|left; lia].
      repeat split; assumption. }
  destruct op; simpl.
  - pose proof (read_header_settles s) as Hd.
    destruct (_read_header s) as [[] s'|e s'|] eqn:E; [| |congruence]; simpl.
    + exists s', true. split; [reflexivity|]. left.
      exact (read_header_nonneg _ _ E).
    + exists s', false. split; [reflexivity|]. exact (H _ _ eq_refl).
  - apply K, keeps_nonneg_read_expect.
  - pose proof (read_header_settles s) as Hd.
    unfold _read_empty, mbind, M_bind.
    destruct (_read_header s) as [[] s1|e s1|] eqn:E; [| |congruence].
    + apply read_header_nonneg in E.
      unfold _read_expect. unfold_M. destruct (decide _); simpl; eauto.
    + simpl. exists s1, false. split; [reflexivity|]. exact (H _ _ eq_refl).
  - apply K, keeps_nonneg_read_chunk.
  - apply K, keeps_nonneg_bind; [apply keeps_nonneg_read_chunk|].
    intros bs. apply keeps_nonneg_struct.
  - apply K, keeps_nonneg_read_int32.
  - apply K, keeps_nonneg_bind; [apply keeps_nonneg_read_chunk|].
    intros bs. apply keeps_nonneg_struct.
  - apply K, keeps_nonneg_bind; [apply keeps_nonneg_read_chunk|].
    intros bs. apply keeps_nonneg_struct.
  - apply K, keeps_nonneg_read_bytes.
  - apply K, keeps_nonneg_bind; [apply keeps_nonneg_read_bytes|].
    intros bs s0 Hs0. unfold decode_utf8. unfold_M.
    destruct (utf8_valid _); exact Hs0.
Qed.

Lemma C10_read_length_nonneg_witness :
  let s := Comm None None 0 [] [x5a; x5a; x5a; x5a; xff; xff; xff; xfe; x07] [] in
  0 <= _read_length s
  /\ exists s' ok,
       run_reader_op Op_read_header s = (Some s', ok)
       /\ (0 <= _read_length s'
           \/ (ok = false /\ parses_header Op_read_header = true
               /\ _read_length s' < 0
               /\ declared_length s = Some (_read_length s'))).
Proof.
  intros s. assert (H : 0 <= _read_length s) by (simpl; lia).
  split; [exact H|].
  exact (proj2 (C10_read_length_nonneg Op_read_header s) H).
Defined.

(** ** The writer *)

Lemma total_length_nonneg (buffer : list (list byte)) : 0 <= total_length buffer.
Proof.
  unfold total_length. induction buffer as [|c buffer IH]; simpl; lia.
Qed.

Lemma forM_write (chunks : list (list byte)) (s : CommGeneric) :
  forM_ chunks write s = Done tt (set_tx (tx s ++ chunks) s).
Proof.
  revert s. induction chunks as [|c chunks IH]; intros s.
  - simpl. unfold_M. rewrite app_nil_r. destruct s; reflexivity.
  - simpl. unfold write. unfold_M. rewrite IH. simpl.
    rewrite <- app_assoc. reflexivity.
Qed.

Lemma pack_sync : pack_l 0x5a5a5a5a = Some sync_sequence.
Proof. reflexivity. Qed.

Lemma pack_kind (k : _H2DMsgType) :
  pack_B (H2D_value k) = Some [byte_of_Z (H2D_value k)].
Proof. destruct k; reflexivity. Qed.

(** A message that does not fit the length field is not written. *)
Lemma write_flush_too_long (s : CommGeneric) (k : _H2DMsgType) :
  _write_type s = Some k ->
  2 ^ 31 - 1 < 9 + total_length (_write_buffer s) ->
  _write_flush s = Raise StructError s.
Proof.
  intros Hk Hlen. unfold _write_flush. unfold_M. rewrite Hk.
  unfold pack_llB. rewrite pack_sync.
  unfold pack_l at 1.
  destruct (Z.leb_spec (9 + total_length (_write_buffer s)) (2 ^ 31 - 1));
    [lia|].
  rewrite andb_false_r. reflexivity.
Qed.

(** *** Flushing a message (C3) *)

(** C3, as stated, fails: after a flush the pending buffer still holds
    the chunks that were written; and a buffer of 2^31 - 9 bytes, whose
    length with the header does not fit the signed 32-bit field, is not
    written at all. *)
Lemma C3_flush_keeps_buffer :
  let s := Comm None (Some RPC_REPLY) 0 [[x00; x00; x00; x07]] [] [] in
  let big := Comm None (Some LOAD_LIBRARY) 0
               [repeat x00 (Z.to_nat (2 ^ 31 - 9))] [] [] in
  (exists s',
      _write_flush s = Done tt s'
      /\ tx s' = [[x5a; x5a; x5a; x5a; x00; x00; x00; x0d; x06];
                  [x00; x00; x00; x07]]
      /\ _write_buffer s' = [[x00; x00; x00; x07]]
      /\ _write_buffer s' <> [])
  /\ _write_flush big = Raise StructError big.
Proof.
  split.
  - exists (Comm None (Some RPC_REPLY) 0 [[x00; x00; x00; x07]] []
              [[x5a; x5a; x5a; x5a; x00; x00; x00; x0d; x06];
               [x00; x00; x00; x07]]).
    split; [vm_compute; reflexivity|]. simpl. repeat split. discriminate.
  - apply (write_flush_too_long _ LOAD_LIBRARY); [reflexivity|].
    unfold total_length.
    cbn [_write_buffer map fold_right]. rewrite repeat_length, Z2Nat.id; lia.
Qed.

(** C3, amended: for a pending message of kind [k] whose chunks, with the
    9 bytes of the header, fit the signed 32-bit length field,
    [_write_flush] writes the four bytes 5a 5a 5a 5a, the length of the
    chunks plus 9 as four big-endian bytes and the code of [k] as one
    byte, then every chunk in order; the pending buffer is left as it
    was (it is [_write_header] that empties it). *)
Theorem C3_write_flush (s : CommGeneric) (k : _H2DMsgType) :
  _write_type s = Some k ->
  9 + total_length (_write_buffer s) <= 2 ^ 31 - 1 ->
  let length := total_length (_write_buffer s) in
  let field := be_bytes 4 (9 + length) in
  let code := byte_of_Z (H2D_value k) in
  exists s',
    _write_flush s = Done tt s'
    /\ tx s' = tx s ++ (sync_sequence ++ field ++ [code]) :: _write_buffer s
    /\ concat (tx s')
       = concat (tx s) ++ sync_sequence ++ field ++ [code]
         ++ concat (_write_buffer s)
    /\ unpack_l field = Some (9 + length)
    /\ byte_val code = H2D_value k
    /\ _write_buffer s' = _write_buffer s
    /\ s' = set_tx (tx s') s.
Proof.
  intros Hk Hlen length field code.
  pose proof (total_length_nonneg (_write_buffer s)) as Hpos.
  assert (Hf : pack_l (9 + length) = Some field)
    by (apply pack_l_nonneg; subst length; lia).
  exists (set_tx (tx s ++ (sync_sequence ++ field ++ [code]) :: _write_buffer s) s).
  split; [|repeat split].
  - unfold _write_flush. unfold_M. rewrite Hk.
    unfold pack_llB. fold length. rewrite pack_sync, Hf, pack_kind.
    unfold write. unfold_M. rewrite forM_write. simpl.
    rewrite <- app_assoc. reflexivity.
  - simpl. rewrite concat_app. simpl. reflexivity.
  - apply unpack_pack_l. exact Hf.
  - subst code. rewrite byte_val_of_Z. destruct k; reflexivity.
Qed.

Lemma C3_write_flush_witness :
  let s := Comm None (Some RPC_REPLY) 0 [[x00; x00; x00; x07]] [] [] in
  exists s',
    _write_flush s = Done tt s'
    /\ tx s' = tx s ++ (sync_sequence ++ be_bytes 4 (9 + 4) ++ [x06]) :: _write_buffer s
    /\ concat (tx s')
       = concat (tx s) ++ sync_sequence ++ be_bytes 4 (9 + 4) ++ [x06]
         ++ concat (_write_buffer s)
    /\ unpack_l (be_bytes 4 (9 + 4)) = Some (9 + 4)
    /\ byte_val x06 = 6
    /\ _write_buffer s' = _write_buffer s
    /\ s' = set_tx (tx s') s.
Proof.
  intros s.
  apply (C3_write_flush s RPC_REPLY); [reflexivity|vm_compute; discriminate].
Defined.

(** ** Typed reads *)

Lemma read_chunk_prefix (bs rest : list byte) (s : CommGeneric) :
  rx s = bs ++ rest ->
  Z.of_nat (List.length bs) <= _read_length s ->
  _read_chunk (Z.of_nat (List.length bs)) s
  = Done bs (Comm (_read_type s) (_write_type s)
               (_read_length s - Z.of_nat (List.length bs))
               (_write_buffer s) rest (tx s)).
Proof.
  intros Hrx Hr. unfold _read_chunk. unfold_M.
  destruct (Z.ltb_spec (_read_length s) (Z.of_nat (List.length bs))); [lia|].
  simpl. erewrite read_prefix by exact Hrx. reflexivity.
Qed.

Lemma read_int8_step (b : byte) (rest : list byte) (s : CommGeneric) :
  rx s = b :: rest ->
  1 <= _read_length s ->
  _read_int8 s
  = Done (byte_val b) (Comm (_read_type s) (_write_type s) (_read_length s - 1)
                         (_write_buffer s) rest (tx s)).
Proof.
  intros Hrx Hr. unfold _read_int8.
  rewrite (bind_Done _ _ _ _ _ (read_chunk_prefix [b] rest s Hrx Hr)).
  reflexivity.
Qed.

Lemma unpack_l_length (bs : list byte) (v : Z) :
  unpack_l bs = Some v -> List.length bs = 4%nat.
Proof.
  unfold unpack_l. destruct (Nat.eqb_spec (List.length bs) 4); congruence.
Qed.

Lemma unpack_q_length (bs : list byte) (v : Z) :
  unpack_q bs = Some v -> List.length bs = 8%nat.
Proof.
  unfold unpack_q. destruct (Nat.eqb_spec (List.length bs) 8); congruence.
Qed.

Lemma read_int32_step (bs rest : list byte) (v : Z) (s : CommGeneric) :
  rx s = bs ++ rest ->
  unpack_l bs = Some v ->
  4 <= _read_length s ->
  _read_int32 s
  = Done v (Comm (_read_type s) (_write_type s) (_read_length s - 4)
              (_write_buffer s) rest (tx s)).
Proof.
  intros Hrx Hv Hr. unfold _read_int32.
  pose proof (read_chunk_prefix bs rest s Hrx) as H.
  rewrite (unpack_l_length _ _ Hv) in H.
  rewrite (bind_Done _ _ _ _ _ (H Hr)), Hv. reflexivity.
Qed.

Lemma read_int64_step (bs rest : list byte) (v : Z) (s : CommGeneric) :
  rx s = bs ++ rest ->
  unpack_q bs = Some v ->
  8 <= _read_length s ->
  _read_int64 s
  = Done v (Comm (_read_type s) (_write_type s) (_read_length s - 8)
              (_write_buffer s) rest (tx s)).
Proof.
  intros Hrx Hv Hr. unfold _read_int64.
  pose proof (read_chunk_prefix bs rest s Hrx) as H.
  rewrite (unpack_q_length _ _ Hv) in H.
  rewrite (bind_Done _ _ _ _ _ (H Hr)), Hv. reflexivity.
Qed.

(** ** Rationals (C4) *)

(** [Fraction] gives the fraction in lowest terms, with a positive
    denominator and the value of [numerator / denominator]. *)
Lemma Fraction_lowest_terms (numerator denominator : Z) (s : CommGeneric) :
  denominator <> 0 ->
  exists p q,
    Fraction numerator denominator s = Done (VFraction p q) s
    /\ 0 < q /\ Z.gcd p q = 1 /\ p * denominator = numerator * q.
Proof.
  intros Hd. unfold Fraction. unfold_M.
  destruct (Z.eqb_spec denominator 0); [contradiction|].
  pose proof (Z.gcd_nonneg numerator denominator) as Hg0.
  destruct (Z.gcd_divide_l numerator denominator) as [n1 Hn].
  destruct (Z.gcd_divide_r numerator denominator) as [d1 Hd1].
  remember (Z.gcd numerator denominator) as g eqn:Eg.
  assert (Hg : 0 < g).
  { destruct (Z.eq_dec g 0) as [E|E]; [|lia].
    rewrite E in Eg. symmetry in Eg. apply Z.gcd_eq_0_r in Eg. contradiction. }
  assert (Hc : Z.gcd n1 d1 = 1).
  { pose proof (Z.gcd_div_gcd numerator denominator g ltac:(lia) Eg) as G.
    rewrite Hn, Hd1 in G.
    rewrite !Z.div_mul in G by lia. exact G. }
  clear Eg.
  destruct (Z.ltb_spec denominator 0) as [Hneg|Hpos].
  - exists (- n1), (- d1). repeat split.
    + f_equal. f_equal.
      * rewrite Hn at 1. replace (n1 * g) with (- n1 * - g) by ring.
        apply Z.div_mul. lia.
      * rewrite Hd1 at 1. replace (d1 * g) with (- d1 * - g) by ring.
        apply Z.div_mul. lia.
    + nia.
    + rewrite Z.gcd_opp_l, Z.gcd_opp_r. exact Hc.
    + rewrite Hn, Hd1. ring.
  - exists n1, d1. repeat split.
    + f_equal. f_equal.
      * rewrite Hn at 1. apply Z.div_mul. lia.
      * rewrite Hd1 at 1. apply Z.div_mul. lia.
    + nia.
    + exact Hc.
    + rewrite Hn, Hd1. ring.
Qed.

(** The decoder on the tag ['F'] and two 64-bit fields. *)
Lemma receive_fraction (rpc_map : gmap Z py_value) (s : CommGeneric)
    (nb db rest : list byte) (n d : Z) :
  rx s = x46 :: nb ++ db ++ rest ->
  unpack_q nb = Some n ->
  unpack_q db = Some d ->
  17 <= _read_length s ->
  _receive_rpc_value rpc_map s
  = Fraction n d (Comm (_read_type s) (_write_type s) (_read_length s - 17)
                    (_write_buffer s) rest (tx s)).
Proof.
  intros Hrx Hn Hd Hr. unfold _receive_rpc_value.
  cbn [receive_rpc_value_rec]. unfold receive_rpc_value_body.
  rewrite (bind_Done _ _ _ _ _ (read_int8_step x46 _ s Hrx ltac:(lia))).
  change (chr (byte_val x46)) with "F"%char. cbn [Ascii.eqb Bool.eqb].
  cbv iota.
  erewrite bind_Done; [|apply (read_int64_step nb (db ++ rest) n);
                          [reflexivity|exact Hn|simpl; lia]].
  erewrite bind_Done; [|apply (read_int64_step db rest d);
                          [reflexivity|exact Hd|simpl; lia]].
  simpl. do 2 f_equal. lia.
Qed.

(** C4, as stated, fails: the pair (2, 4) is decoded as the fraction 1/2,
    and the pair (1, 0) is refused with a division by zero. *)
Lemma C4_fraction_is_reduced :
  let body n d := x46 :: be_bytes 8 n ++ be_bytes 8 d in
  let s n d := Comm (Some RPC_REQUEST) None 17 [] (body n d) [] in
  let s' := Comm (Some RPC_REQUEST) None 0 [] [] [] in
  unpack_q (be_bytes 8 2) = Some 2
  /\ unpack_q (be_bytes 8 4) = Some 4
  /\ _receive_rpc_value ∅ (s 2 4) = Done (VFraction 1 2) s'
  /\ _receive_rpc_value ∅ (s 2 4) <> Done (VFraction 2 4) s'
  /\ _receive_rpc_value ∅ (s 1 0) = Raise ZeroDivisionError s'.
Proof.
  repeat split; try (vm_compute; reflexivity).
  vm_compute. discriminate.
Qed.

(** C4, amended: on the tag ['F'] followed by two 64-bit integers [n] and
    [d], the decoder returns, when [d] is not zero, the fraction [p/q] in
    lowest terms with [q > 0] that has the value of [n/d] (the pair read
    is reduced and its sign carried by the numerator), and raises the
    division by zero when [d] is zero. *)
Theorem C4_receive_fraction (rpc_map : gmap Z py_value) (s : CommGeneric)
    (nb db rest : list byte) (n d : Z) :
  rx s = x46 :: nb ++ db ++ rest ->
  unpack_q nb = Some n ->
  unpack_q db = Some d ->
  17 <= _read_length s ->
  let s' := Comm (_read_type s) (_write_type s) (_read_length s - 17)
              (_write_buffer s) rest (tx s) in
  (d = 0 -> _receive_rpc_value rpc_map s = Raise ZeroDivisionError s')
  /\ (d <> 0 ->
      exists p q,
        _receive_rpc_value rpc_map s = Done (VFraction p q) s'
        /\ 0 < q /\ Z.gcd p q = 1 /\ p * d = n * q).
Proof.
  intros Hrx Hn Hd Hr s'.
  rewrite (receive_fraction rpc_map s nb db rest n d Hrx Hn Hd Hr).
  fold s'. split.
  - intros ->. reflexivity.
  - intros Hnz. apply Fraction_lowest_terms. exact Hnz.
Qed.

Lemma C4_receive_fraction_witness :
  let s := Comm (Some RPC_REQUEST) None 17 []
             (x46 :: be_bytes 8 6 ++ be_bytes 8 (2 ^ 64 - 4) ++ []) [] in
  let s' := Comm (Some RPC_REQUEST) None 0 [] [] [] in
  (-4 = 0 -> _receive_rpc_value ∅ s = Raise ZeroDivisionError s')
  /\ (-4 <> 0 ->
      exists p q,
        _receive_rpc_value ∅ s = Done (VFraction p q) s'
        /\ 0 < q /\ Z.gcd p q = 1 /\ p * -4 = 6 * q).
Proof.
  intros s s'.
  apply (C4_receive_fraction ∅ s (be_bytes 8 6) (be_bytes 8 (2 ^ 64 - 4)) [] 6 (-4));
    [reflexivity|vm_compute; reflexivity|vm_compute; reflexivity
    |vm_compute; discriminate].
Defined.

(** ** Every operation has an outcome *)

(** The loops of the model are bounded by the number of bytes left on the
    channel. The lemmas of this section show that the bound is never
    reached: no operation ends in [Diverge]. *)

Lemma settles_ret {A} (L : nat) (a : A) : settles L (mret a).
Proof. intros s _. simpl. reflexivity. Qed.

Lemma settles_raise {A} (L : nat) (e : py_exn) : settles L (@raise A e).
Proof. intros s _. simpl. reflexivity. Qed.

Lemma settles_gets {A} (L : nat) (f : CommGeneric -> A) : settles L (gets f).
Proof. intros s _. simpl. reflexivity. Qed.

Lemma settles_struct {A} (L : nat) (o : option A) : settles L (struct_ o).
Proof. destruct o; [apply settles_ret|apply settles_raise]. Qed.

Lemma settles_modify (L : nat) (f : CommGeneric -> CommGeneric) :
  (forall s, rx (f s) = rx s) -> settles L (modify f).
Proof. intros H s _. simpl. rewrite H. reflexivity. Qed.

Lemma settles_bind {A B} (L : nat) (m : M A) (f : A -> M B) :
  settles L m -> (forall a, settles L (f a)) -> settles L (m ≫= f).
Proof.
  intros Hm Hf s Hs. specialize (Hm s Hs). unfold mbind, M_bind.
  destruct (m s) as [a s'|e s'|]; try assumption.
  specialize (Hf a s' ltac:(lia)).
  destruct (f a s'); try assumption; lia.
Qed.

Lemma settles_weaken {A} (L L' : nat) (m : M A) :
  (L' <= L)%nat -> settles L m -> settles L' m.
Proof. intros H Hm s Hs. apply Hm. lia. Qed.

Lemma settles_read (L : nat) (n : Z) : settles L (read n).
Proof.
  intros s _. unfold read. destruct (_ && _); simpl; [|reflexivity].
  rewrite length_drop. lia.
Qed.

Create HintDb settle.

#[local] Hint Resolve settles_ret settles_raise settles_gets settles_struct
  settles_read : settle.

Ltac settle :=
  repeat first
    [ assumption
    | solve [auto with settle]
    | apply settles_modify; intros []; reflexivity
    | apply settles_bind; [|intros ?]
    | match goal with
      | |- settles _ (if ?c then _ else _) => destruct c
      | |- settles _ (match ?c with _ => _ end) => destruct c
      end ].

Lemma settles_read_chunk (L : nat) (n : Z) : settles L (_read_chunk n).
Proof. unfold _read_chunk. settle. Qed.
#[local] Hint Resolve settles_read_chunk : settle.

Lemma settles_read_int8 (L : nat) : settles L _read_int8.
Proof. unfold _read_int8. settle. Qed.

Lemma settles_read_int32 (L : nat) : settles L _read_int32.
Proof. unfold _read_int32. settle. Qed.

Lemma settles_read_int64 (L : nat) : settles L _read_int64.
Proof. unfold _read_int64. settle. Qed.

Lemma settles_read_float64 (L : nat) : settles L _read_float64.
Proof. unfold _read_float64. settle. Qed.
#[local] Hint Resolve settles_read_int8 settles_read_int32 settles_read_int64
  settles_read_float64 : settle.

Lemma settles_decode_utf8 (L : nat) (bs : list byte) : settles L (decode_utf8 bs).
Proof. unfold decode_utf8. settle. Qed.
#[local] Hint Resolve settles_decode_utf8 : settle.

Lemma settles_read_string (L : nat) : settles L _read_string.
Proof. unfold _read_string, _read_bytes. settle. Qed.

Lemma settles_Fraction (L : nat) (n d : Z) : settles L (Fraction n d).
Proof. unfold Fraction. settle. Qed.

Lemma settles_range (L : nat) (lower upper step : py_value) :
  settles L (range lower upper step).
Proof. unfold range. settle. Qed.

Lemma settles_getitem (L : nat) (rpc_map : gmap Z py_value) (key : Z) :
  settles L (getitem rpc_map key).
Proof. unfold getitem. settle. Qed.
#[local] Hint Resolve settles_read_string settles_Fraction settles_range
  settles_getitem : settle.

Lemma settles_repeatM {A} (L n : nat) (body : M A) :
  settles L body -> settles L (repeatM n body).
Proof.
  intros H. induction n as [|n IH]; simpl; settle; assumption.
Qed.
#[local] Hint Resolve settles_repeatM : settle.

(** A byte read through [_read_int8] is gone from the channel. *)
Lemma read_int8_consumes (s s' : CommGeneric) (v : Z) :
  _read_int8 s = Done v s' -> S (List.length (rx s')) = List.length (rx s).
Proof.
  unfold _read_int8, _read_chunk, read. unfold_M. intros H.
  repeat (break_match; try discriminate; simplify_eq; simpl in * ).
  rewrite length_drop.
  match goal with E : (_ <=? _) = true |- _ => apply Z.leb_le in E end.
  change (Z.to_nat 1) with 1%nat. lia.
Qed.

(** The decoder, called with a depth above the number of bytes left,
    returns or raises, and takes at least one byte when it returns. *)
Lemma receive_rpc_value_rec_settles (rpc_map : gmap Z py_value) (depth : nat)
    (s : CommGeneric) :
  (List.length (rx s) < depth)%nat ->
  match receive_rpc_value_rec depth rpc_map s with
  | Done _ s' => (List.length (rx s') < List.length (rx s))%nat
  | Raise _ s' => (List.length (rx s') <= List.length (rx s))%nat
  | Diverge => False
  end.
Proof.
  revert s. induction depth as [|depth IH]; intros s Hs; [lia|].
  assert (IH' : forall L, (L < depth)%nat ->
                  settles L (receive_rpc_value_rec depth rpc_map)).
  { intros L HL s0 Hs0. specialize (IH s0 ltac:(lia)).
    destruct (receive_rpc_value_rec depth rpc_map s0); try assumption; lia. }
  cbn [receive_rpc_value_rec]. unfold receive_rpc_value_body. unfold mbind at 1, M_bind at 1.
  pose proof (settles_read_int8 (List.length (rx s)) s (le_n _)) as H8.
  destruct (_read_int8 s) as [v s1|e s1|] eqn:E8; [|exact H8|exact H8].
  apply read_int8_consumes in E8.
  pose proof (IH' (List.length (rx s1)) ltac:(lia)) as IH1.
  clear IH IH'.
  match goal with
  | |- match ?k s1 with _ => _ end =>
      assert (K : settles (List.length (rx s1)) k)
  end.
  { settle. }
  specialize (K s1 (le_n _)).
  match goal with
  | |- match ?k with _ => _ end => destruct k
  end; try assumption; lia.
Qed.

Lemma receive_rpc_value_settles (rpc_map : gmap Z py_value) (s : CommGeneric) :
  match _receive_rpc_value rpc_map s with
  | Done _ s' => (List.length (rx s') < List.length (rx s))%nat
  | Raise _ s' => (List.length (rx s') <= List.length (rx s))%nat
  | Diverge => False
  end.
Proof.
  unfold _receive_rpc_value. apply receive_rpc_value_rec_settles. lia.
Qed.

Lemma receive_rpc_args_loop_settles (rpc_map : gmap Z py_value) (bound : nat)
    (args : list py_value) (s : CommGeneric) :
  (List.length (rx s) < bound)%nat ->
  match receive_rpc_args_loop bound rpc_map args s with
  | Done _ s' => (List.length (rx s') < List.length (rx s))%nat
  | Raise _ s' => (List.length (rx s') <= List.length (rx s))%nat
  | Diverge => False
  end.
Proof.
  revert args s. induction bound as [|bound IH]; intros args s Hs; [lia|].
  cbn [receive_rpc_args_loop]. unfold receive_rpc_args_body. unfold mbind, M_bind.
  pose proof (receive_rpc_value_settles rpc_map s) as Hv.
  destruct (_receive_rpc_value rpc_map s) as [v s1|e s1|]; try assumption.
  destruct (is_rpc_sentinel v); [exact Hv|].
  specialize (IH (args ++ [v]) s1 ltac:(lia)).
  destruct (receive_rpc_args_loop bound rpc_map (args ++ [v]) s1);
    try assumption; lia.
Qed.

Lemma receive_rpc_args_settles (rpc_map : gmap Z py_value) (L : nat) :
  settles L (_receive_rpc_args rpc_map).
Proof.
  intros s _. unfold _receive_rpc_args, receive_rpc_args_from.
  pose proof (receive_rpc_args_loop_settles rpc_map
                (S (List.length (rx s))) [] s ltac:(lia)) as H.
  destruct (receive_rpc_args_loop _ _ _ _); try assumption; lia.
Qed.

(** ** The bounds do not show *)

(** The bounded loops, entered with more turns than there are bytes on
    the channel, do not depend on the bound, so the methods satisfy the
    equations that the source states by recursion and by [while True]. *)

Lemma agree_refl {A} (L : nat) (m : M A) : agree L m m.
Proof. intros s _. reflexivity. Qed.

Lemma agree_bind {A B} (L : nat) (m1 m2 : M A) (f1 f2 : A -> M B) :
  agree L m1 m2 -> settles L m1 ->
  (forall a, agree L (f1 a) (f2 a)) ->
  agree L (m1 ≫= f1) (m2 ≫= f2).
Proof.
  intros Hm Hs Hf s HL. unfold mbind, M_bind.
  rewrite <- (Hm s HL). specialize (Hs s HL).
  destruct (m1 s) as [a s'|e s'|]; try reflexivity.
  apply Hf. lia.
Qed.

Lemma agree_repeatM {A} (L n : nat) (b1 b2 : M A) :
  agree L b1 b2 -> settles L b1 -> agree L (repeatM n b1) (repeatM n b2).
Proof.
  intros Hb Hs. induction n as [|n IH]; simpl; [apply agree_refl|].
  apply agree_bind; [assumption|assumption|]. intros x.
  apply agree_bind; [assumption|apply settles_repeatM; assumption|].
  intros xs. apply agree_refl.
Qed.

Ltac agree_step :=
  first
    [ assumption
    | apply agree_refl
    | apply agree_repeatM; [assumption|assumption]
    | apply agree_bind; [|solve [settle]|intros ?]
    | match goal with
      | |- agree _ (if ?c then _ else _) _ => destruct c
      | |- agree _ (match ?c with _ => _ end) _ => destruct c
      end ].

Lemma bind_same_head {A B} (m : M A) (f1 f2 : A -> M B) (s : CommGeneric) :
  (forall a s', m s = Done a s' -> f1 a s' = f2 a s') ->
  (m ≫= f1) s = (m ≫= f2) s.
Proof.
  intros H. unfold mbind, M_bind.
  destruct (m s) as [a s'|e s'|]; try reflexivity. apply H. reflexivity.
Qed.

Lemma receive_rpc_value_body_agree (rpc_map : gmap Z py_value)
    (self1 self2 : M py_value) (s : CommGeneric) :
  (forall L, (L < List.length (rx s))%nat -> agree L self1 self2) ->
  (forall L, (L < List.length (rx s))%nat -> settles L self1) ->
  receive_rpc_value_body self1 rpc_map s
  = receive_rpc_value_body self2 rpc_map s.
Proof.
  intros Ha Hs. unfold receive_rpc_value_body.
  apply bind_same_head. intros v s1 E8. cbv zeta.
  apply read_int8_consumes in E8.
  specialize (Ha (List.length (rx s1)) ltac:(lia)).
  specialize (Hs (List.length (rx s1)) ltac:(lia)).
  match goal with
  | |- ?k1 s1 = ?k2 s1 => assert (K : agree (List.length (rx s1)) k1 k2)
  end.
  { repeat agree_step. }
  apply K. reflexivity.
Qed.

Lemma receive_rpc_value_rec_bound (rpc_map : gmap Z py_value) (d1 d2 : nat)
    (s : CommGeneric) :
  (List.length (rx s) < d1)%nat -> (List.length (rx s) < d2)%nat ->
  receive_rpc_value_rec d1 rpc_map s = receive_rpc_value_rec d2 rpc_map s.
Proof.
  revert d2 s. induction d1 as [|d1 IH]; intros d2 s H1 H2; [lia|].
  destruct d2 as [|d2]; [lia|]. cbn [receive_rpc_value_rec].
  apply receive_rpc_value_body_agree.
  - intros L HL s' Hs'. apply IH; lia.
  - intros L HL s' Hs'.
    pose proof (receive_rpc_value_rec_settles rpc_map d1 s' ltac:(lia)) as G.
    destruct (receive_rpc_value_rec d1 rpc_map s'); try assumption; lia.
Qed.

(** [_receive_rpc_value] is its body applied to itself. *)
Lemma receive_rpc_value_unfold (rpc_map : gmap Z py_value) (s : CommGeneric) :
  _receive_rpc_value rpc_map s
  = receive_rpc_value_body (_receive_rpc_value rpc_map) rpc_map s.
Proof.
  unfold _receive_rpc_value at 1. cbn [receive_rpc_value_rec].
  apply receive_rpc_value_body_agree.
  - intros L HL s' Hs'. unfold _receive_rpc_value.
    apply receive_rpc_value_rec_bound; lia.
  - intros L HL s' Hs'.
    pose proof (receive_rpc_value_rec_settles rpc_map
                  (List.length (rx s)) s' ltac:(lia)) as G.
    destruct (receive_rpc_value_rec _ rpc_map s'); try assumption; lia.
Qed.

Lemma receive_rpc_args_loop_bound (rpc_map : gmap Z py_value) (b1 b2 : nat)
    (args : list py_value) (s : CommGeneric) :
  (List.length (rx s) < b1)%nat -> (List.length (rx s) < b2)%nat ->
  receive_rpc_args_loop b1 rpc_map args s
  = receive_rpc_args_loop b2 rpc_map args s.
Proof.
  revert b2 args s. induction b1 as [|b1 IH]; intros b2 args s H1 H2; [lia|].
  destruct b2 as [|b2]; [lia|]. cbn [receive_rpc_args_loop].
  unfold receive_rpc_args_body, mbind, M_bind.
  pose proof (receive_rpc_value_settles rpc_map s) as Hv.
  destruct (_receive_rpc_value rpc_map s) as [v s1|e s1|]; try reflexivity.
  destruct (is_rpc_sentinel v); [reflexivity|]. apply IH; lia.
Qed.

(** The loop of [_receive_rpc_args] is one turn followed by the loop. *)
Lemma receive_rpc_args_unfold (rpc_map : gmap Z py_value)
    (args : list py_value) (s : CommGeneric) :
  receive_rpc_args_from rpc_map args s
  = receive_rpc_args_body (receive_rpc_args_from rpc_map) rpc_map args s.
Proof.
  unfold receive_rpc_args_from at 1. cbn [receive_rpc_args_loop].
  unfold receive_rpc_args_body, mbind, M_bind.
  pose proof (receive_rpc_value_settles rpc_map s) as Hv.
  destruct (_receive_rpc_value rpc_map s) as [v s1|e s1|]; try reflexivity.
  destruct (is_rpc_sentinel v); [reflexivity|].
  unfold receive_rpc_args_from. apply receive_rpc_args_loop_bound; lia.
Qed.

(** ** Argument lists (C8) *)

Lemma receive_sentinel (rpc_map : gmap Z py_value) (s : CommGeneric)
    (rest : list byte) :
  rx s = x00 :: rest ->
  1 <= _read_length s ->
  _receive_rpc_value rpc_map s
  = Done VSentinel (Comm (_read_type s) (_write_type s) (_read_length s - 1)
                      (_write_buffer s) rest (tx s)).
Proof.
  intros Hrx Hr. unfold _receive_rpc_value. cbn [receive_rpc_value_rec]. unfold receive_rpc_value_body.
  rewrite (bind_Done _ _ _ _ _ (read_int8_step x00 _ s Hrx Hr)).
  reflexivity.
Qed.

Lemma receive_int32 (rpc_map : gmap Z py_value) (s : CommGeneric)
    (field rest : list byte) (v : Z) :
  rx s = x69 :: field ++ rest ->
  unpack_l field = Some v ->
  5 <= _read_length s ->
  _receive_rpc_value rpc_map s
  = Done (VInt v) (Comm (_read_type s) (_write_type s) (_read_length s - 5)
                     (_write_buffer s) rest (tx s)).
Proof.
  intros Hrx Hv Hr. unfold _receive_rpc_value. cbn [receive_rpc_value_rec]. unfold receive_rpc_value_body.
  rewrite (bind_Done _ _ _ _ _ (read_int8_step x69 _ s Hrx ltac:(lia))).
  change (chr (byte_val x69)) with "i"%char. cbn [Ascii.eqb Bool.eqb].
  cbv iota.
  erewrite bind_Done; [|apply (read_int32_step field rest v);
                          [reflexivity|exact Hv|simpl; lia]].
  simpl. unfold_M. do 2 f_equal. lia.
Qed.

Lemma receive_rpc_value_consumes (rpc_map : gmap Z py_value)
    (s s' : CommGeneric) (v : py_value) :
  _receive_rpc_value rpc_map s = Done v s' ->
  (List.length (rx s') < List.length (rx s))%nat.
Proof.
  intros H. pose proof (receive_rpc_value_settles rpc_map s) as G.
  rewrite H in G. exact G.
Qed.

Lemma decodes_consumes (rpc_map : gmap Z py_value) (s s' : CommGeneric)
    (vs : list py_value) :
  decodes rpc_map s vs s' ->
  (List.length (rx s') + List.length vs <= List.length (rx s))%nat.
Proof.
  induction 1 as [s|s v s1 vs s2 Hv _ _ IH]; simpl; [lia|].
  apply receive_rpc_value_consumes in Hv. lia.
Qed.

(** The loop of [_receive_rpc_args] on a channel that holds values and
    then a sentinel: the values are appended to [args] in order. *)
Lemma receive_rpc_args_loop_decodes (rpc_map : gmap Z py_value)
    (s s2 s3 : CommGeneric) (vs : list py_value) :
  decodes rpc_map s vs s2 ->
  _receive_rpc_value rpc_map s2 = Done VSentinel s3 ->
  forall bound args,
    (List.length vs < bound)%nat ->
    receive_rpc_args_loop bound rpc_map args s = Done (args ++ vs) s3.
Proof.
  intros Hd Hs.
  induction Hd as [s|s v s1 vs s2 Hv Hns _ IH]; intros bound args Hb.
  - destruct bound as [|bound]; [simpl in Hb; lia|].
    cbn [receive_rpc_args_loop]. unfold receive_rpc_args_body. rewrite (bind_Done _ _ _ _ _ Hs).
    simpl. rewrite app_nil_r. reflexivity.
  - destruct bound as [|bound]; [simpl in Hb; lia|].
    cbn [receive_rpc_args_loop]. unfold receive_rpc_args_body. rewrite (bind_Done _ _ _ _ _ Hv), Hns.
    rewrite (IH Hs bound (args ++ [v])) by (simpl in Hb; lia).
    rewrite <- app_assoc. reflexivity.
Qed.

(** Values, then the tag byte 0: [_receive_rpc_args] returns the values. *)
Lemma receive_rpc_args_decodes (rpc_map : gmap Z py_value)
    (s s2 : CommGeneric) (vs : list py_value) (rest : list byte) :
  decodes rpc_map s vs s2 ->
  rx s2 = x00 :: rest ->
  1 <= _read_length s2 ->
  _receive_rpc_args rpc_map s
  = Done vs (Comm (_read_type s2) (_write_type s2) (_read_length s2 - 1)
               (_write_buffer s2) rest (tx s2)).
Proof.
  intros Hd Hrx Hr.
  pose proof (receive_sentinel rpc_map s2 rest Hrx Hr) as Hs.
  pose proof (decodes_consumes _ _ _ _ Hd) as Hc.
  unfold _receive_rpc_args, receive_rpc_args_from.
  rewrite (receive_rpc_args_loop_decodes _ _ _ _ _ Hd Hs); [reflexivity|].
  rewrite Hrx in Hc. simpl in Hc. lia.
Qed.


(** ** The decoder on the wire format *)

Lemma unpack_pack_q (v : Z) (bs : list byte) :
  pack_q v = Some bs -> unpack_q bs = Some v.
Proof.
  unfold pack_q, unpack_q.
  destruct (_ && _) eqn:E; [|discriminate]. intros H.
  assert (bs = be_bytes 8 (v mod 2 ^ 64)) as -> by congruence. clear H.
  rewrite be_bytes_length. change (Nat.eqb 8 8) with true. cbv iota.
  rewrite be_unsigned_bytes. f_equal. unfold to_signed.
  change (256 ^ Z.of_nat 8) with (2 ^ 64).
  rewrite Z.mod_mod by lia.
  apply andb_true_iff in E as [E1 E2].
  apply Z.leb_le in E1, E2.
  destruct (Z.ltb_spec (v mod 2 ^ 64) (2 ^ (64 - 1))) as [H|H].
  - destruct (Z.lt_ge_cases v 0) as [Hn|Hn].
    + rewrite <- (Z.mod_add v 1), Z.mod_small in H; lia.
    + apply Z.mod_small. lia.
  - destruct (Z.lt_ge_cases v 0) as [Hn|Hn].
    + rewrite <- (Z.mod_add v 1), Z.mod_small; lia.
    + rewrite Z.mod_small in H; lia.
Qed.

Lemma unpack_pack_d (bits : Z) (bs : list byte) :
  pack_d bits = Some bs -> unpack_d bs = Some bits.
Proof.
  unfold pack_d, unpack_d.
  destruct (_ && _) eqn:E; [|discriminate]. intros H.
  assert (bs = be_bytes 8 bits) as -> by congruence. clear H.
  rewrite be_bytes_length. change (Nat.eqb 8 8) with true. cbv iota.
  rewrite be_unsigned_bytes. f_equal.
  apply andb_true_iff in E as [E1 E2].
  apply Z.leb_le in E1. apply Z.ltb_lt in E2.
  change (256 ^ Z.of_nat 8) with (2 ^ 64). apply Z.mod_small. lia.
Qed.

Lemma unpack_d_length (bs : list byte) (v : Z) :
  unpack_d bs = Some v -> List.length bs = 8%nat.
Proof.
  unfold unpack_d. destruct (Nat.eqb_spec (List.length bs) 8); congruence.
Qed.

Lemma advance_advance (s : CommGeneric) (a b : Z) (r1 r2 : list byte) :
  advance (advance s a r1) b r2 = advance s (a + b) r2.
Proof. unfold advance. simpl. f_equal. lia. Qed.

Lemma read_chunk_advance (bs rest : list byte) (s : CommGeneric) :
  rx s = bs ++ rest ->
  Z.of_nat (List.length bs) <= _read_length s ->
  _read_chunk (Z.of_nat (List.length bs)) s
  = Done bs (advance s (Z.of_nat (List.length bs)) rest).
Proof. exact (read_chunk_prefix bs rest s). Qed.

Lemma read_int8_advance (b : byte) (rest : list byte) (s : CommGeneric) :
  rx s = b :: rest -> 1 <= _read_length s ->
  _read_int8 s = Done (byte_val b) (advance s 1 rest).
Proof. exact (read_int8_step b rest s). Qed.

Lemma read_int32_advance (bs rest : list byte) (v : Z) (s : CommGeneric) :
  rx s = bs ++ rest -> unpack_l bs = Some v -> 4 <= _read_length s ->
  _read_int32 s = Done v (advance s 4 rest).
Proof. exact (read_int32_step bs rest v s). Qed.

Lemma read_int64_advance (bs rest : list byte) (v : Z) (s : CommGeneric) :
  rx s = bs ++ rest -> unpack_q bs = Some v -> 8 <= _read_length s ->
  _read_int64 s = Done v (advance s 8 rest).
Proof. exact (read_int64_step bs rest v s). Qed.

Lemma read_float64_advance (bs rest : list byte) (v : Z) (s : CommGeneric) :
  rx s = bs ++ rest -> unpack_d bs = Some v -> 8 <= _read_length s ->
  _read_float64 s = Done v (advance s 8 rest).
Proof.
  intros Hrx Hv Hr. unfold _read_float64.
  pose proof (read_chunk_advance bs rest s Hrx) as H.
  rewrite (unpack_d_length _ _ Hv) in H.
  rewrite (bind_Done _ _ _ _ _ (H Hr)), Hv. reflexivity.
Qed.

Lemma read_string_advance (field utf8 rest : list byte) (s : CommGeneric) :
  rx s = field ++ utf8 ++ [x00] ++ rest ->
  unpack_l field = Some (Z.of_nat (List.length (utf8 ++ [x00]))) ->
  utf8_valid utf8 = true ->
  4 + Z.of_nat (List.length (utf8 ++ [x00])) <= _read_length s ->
  _read_string s
  = Done utf8 (advance s (4 + Z.of_nat (List.length (utf8 ++ [x00]))) rest).
Proof.
  intros Hrx Hf Hu Hr. unfold _read_string, _read_bytes.
  rewrite (app_assoc utf8) in Hrx.
  erewrite bind_Done; [|erewrite bind_Done;
    [|apply (read_int32_advance field _ _ s Hrx Hf); lia]].
  2: { apply read_chunk_advance; [reflexivity|simpl; lia]. }
  rewrite advance_advance, removelast_last. unfold decode_utf8.
  rewrite Hu. reflexivity.
Qed.

(** After the tag byte, the decoder is in the branch of that tag. *)
Ltac decode_tag b c :=
  match goal with
  | H : rx _ = _ |- _ => rewrite <- ?app_comm_cons, <- ?app_assoc in H
  end;
  rewrite receive_rpc_value_unfold; unfold receive_rpc_value_body;
  erewrite bind_Done by (apply (read_int8_advance b); [eassumption|lia]);
  change (chr (byte_val b)) with c; cbn [Ascii.eqb Bool.eqb]; cbv iota.

Ltac same_state :=
  rewrite ?advance_advance; unfold_M; cbv zeta;
  refine (f_equal (Done _) _);
  refine (f_equal (fun n => advance _ n _) _);
  repeat (progress cbn [List.length] || rewrite length_app); lia.

(** The decoder returns the value that the bytes encode and takes exactly
    those bytes, for a single value and for values in a row. *)
Lemma wire_decodes (rpc_map : gmap Z py_value) :
  (forall v bs,
      wire rpc_map v bs ->
      forall s rest,
        rx s = bs ++ rest ->
        Z.of_nat (List.length bs) <= _read_length s ->
        _receive_rpc_value rpc_map s
        = Done v (advance s (Z.of_nat (List.length bs)) rest))
  /\ (forall vs bs,
        wire_seq rpc_map vs bs ->
        forall s rest,
          rx s = bs ++ rest ->
          Z.of_nat (List.length bs) <= _read_length s ->
          repeatM (List.length vs) (_receive_rpc_value rpc_map) s
          = Done vs (advance s (Z.of_nat (List.length bs)) rest)).
Proof.
  apply wire_mutind.
  - (* tuple *)
    intros items arity body _ IH Ha s rest Hrx Hr.
    cbn [List.length] in Hr. decode_tag x74 "t"%char.
    erewrite bind_Done by (apply (read_int8_advance arity); [reflexivity|simpl; lia]).
    rewrite Ha, Nat2Z.id.
    erewrite bind_Done by (apply IH; [reflexivity|simpl; lia]).
    same_state.
  - (* None *)
    intros s rest Hrx Hr. cbn [List.length] in Hr. decode_tag x6e "n"%char.
    same_state.
  - (* bool *)
    intros b s rest Hrx Hr. cbn [List.length] in Hr. decode_tag x62 "b"%char.
    erewrite bind_Done by (apply read_int8_advance; [reflexivity|simpl; lia]).
    destruct b; same_state.
  - (* int32 *)
    intros v field Hf s rest Hrx Hr. apply unpack_pack_l in Hf.
    pose proof (unpack_l_length _ _ Hf) as L.
    cbn [List.length] in Hr. decode_tag x69 "i"%char.
    erewrite bind_Done
      by (apply (read_int32_advance field); [reflexivity|exact Hf|simpl; lia]).
    same_state.
  - (* int64 *)
    intros v field Hf s rest Hrx Hr. apply unpack_pack_q in Hf.
    pose proof (unpack_q_length _ _ Hf) as L.
    cbn [List.length] in Hr. decode_tag x49 "I"%char.
    erewrite bind_Done
      by (apply (read_int64_advance field); [reflexivity|exact Hf|simpl; lia]).
    same_state.
  - (* float64 *)
    intros bits field Hf s rest Hrx Hr. apply unpack_pack_d in Hf.
    pose proof (unpack_d_length _ _ Hf) as L.
    cbn [List.length] in Hr. decode_tag x66 "f"%char.
    erewrite bind_Done
      by (apply (read_float64_advance field); [reflexivity|exact Hf|simpl; lia]).
    same_state.
  - (* Fraction *)
    intros n d g nb db Hn Hd Hnz -> s rest Hrx Hr.
    apply unpack_pack_q in Hn, Hd.
    pose proof (unpack_q_length _ _ Hn) as Ln.
    pose proof (unpack_q_length _ _ Hd) as Ld.
    cbn [List.length] in Hr. rewrite length_app in Hr.
    decode_tag x46 "F"%char.
    erewrite bind_Done
      by (apply (read_int64_advance nb (db ++ rest));
          [reflexivity|exact Hn|simpl; lia]).
    erewrite bind_Done
      by (apply (read_int64_advance db rest); [reflexivity|exact Hd|simpl; lia]).
    unfold Fraction. destruct (Z.eqb_spec d 0); [contradiction|].
    same_state.
  - (* str *)
    intros utf8 field Hu Hf s rest Hrx Hr. apply unpack_pack_l in Hf.
    pose proof (unpack_l_length _ _ Hf) as L.
    cbn [List.length] in Hr. rewrite length_app in Hr.
    decode_tag x73 "s"%char.
    erewrite bind_Done
      by (apply (read_string_advance field utf8 rest);
          [reflexivity|exact Hf|exact Hu
          |simpl _read_length; lia]).
    same_state.
  - (* list *)
    intros items field body _ IH Hf s rest Hrx Hr. apply unpack_pack_l in Hf.
    pose proof (unpack_l_length _ _ Hf) as L.
    cbn [List.length] in Hr. rewrite length_app in Hr.
    decode_tag x6c "l"%char.
    erewrite bind_Done
      by (apply (read_int32_advance field (body ++ rest));
          [reflexivity|exact Hf|simpl; lia]).
    rewrite Nat2Z.id.
    erewrite bind_Done by (apply IH; [reflexivity|simpl; lia]).
    same_state.
  - (* range *)
    intros lower upper step lo hi st b1 b2 b3 _ IH1 _ IH2 _ IH3 H1 H2 H3 Hst
      s rest Hrx Hr.
    cbn [List.length] in Hr. rewrite !length_app in Hr.
    decode_tag x72 "r"%char.
    erewrite bind_Done
      by (apply (IH1 _ (b2 ++ b3 ++ rest));
          [reflexivity|simpl; lia]).
    erewrite bind_Done
      by (apply (IH2 _ (b3 ++ rest)); [reflexivity|simpl; lia]).
    erewrite bind_Done by (apply (IH3 _ rest); [reflexivity|simpl; lia]).
    unfold range. rewrite H1, H2, H3.
    destruct (Z.eqb_spec st 0); [contradiction|].
    same_state.
  - (* object *)
    intros index field v Hf Hv s rest Hrx Hr. apply unpack_pack_l in Hf.
    pose proof (unpack_l_length _ _ Hf) as L.
    cbn [List.length] in Hr. decode_tag x6f "o"%char.
    erewrite bind_Done
      by (apply (read_int32_advance field); [reflexivity|exact Hf|simpl; lia]).
    unfold getitem. rewrite Hv. same_state.
  - (* no value *)
    intros s rest Hrx Hr. simpl. unfold_M. f_equal.
    destruct s; unfold advance; simpl in *. subst. f_equal. lia.
  - (* one more value *)
    intros v vs b bs _ IHv _ IHs s rest Hrx Hr.
    rewrite length_app in Hr. cbn [List.length repeatM].
    erewrite bind_Done
      by (apply (IHv _ (bs ++ rest));
          [rewrite Hrx, <- app_assoc; reflexivity|lia]).
    erewrite bind_Done by (apply (IHs _ rest); [reflexivity|simpl; lia]).
    same_state.
Qed.

Lemma wire_seq_decodes (rpc_map : gmap Z py_value) (vs : list py_value)
    (bs : list byte) :
  wire_seq rpc_map vs bs ->
  Forall (fun v => is_rpc_sentinel v = false) vs ->
  forall s rest,
    rx s = bs ++ rest ->
    Z.of_nat (List.length bs) <= _read_length s ->
    decodes rpc_map s vs (advance s (Z.of_nat (List.length bs)) rest).
Proof.
  induction 1 as [|v vs b bs Hv Hvs IH]; intros Hns s rest Hrx Hr.
  - simpl in Hrx. destruct s. unfold advance. simpl in *. subst.
    change (Z.of_nat 0) with 0. rewrite Z.sub_0_r. apply decodes_nil.
  - apply Forall_cons in Hns as [Hn Hns]. rewrite length_app in Hr.
    rewrite <- app_assoc in Hrx.
    eapply decodes_cons;
      [apply (proj1 (wire_decodes rpc_map) v b Hv s (bs ++ rest) Hrx); lia
      |exact Hn|].
    replace (advance s (Z.of_nat (List.length (b ++ bs))) rest)
      with (advance (advance s (Z.of_nat (List.length b)) (bs ++ rest))
              (Z.of_nat (List.length bs)) rest)
      by (rewrite advance_advance, length_app; f_equal; lia).
    apply IH; [exact Hns|reflexivity|simpl; lia].
Qed.

(** The round trip of an argument list: on the encodings of values that
    are not the sentinel, followed by the tag byte 0 of the sentinel,
    [_receive_rpc_args] returns the values and has taken exactly these
    bytes. *)
Lemma receive_rpc_args_wire (rpc_map : gmap Z py_value) (vs : list py_value)
    (bs rest : list byte) (s : CommGeneric) :
  wire_seq rpc_map vs bs ->
  Forall (fun v => is_rpc_sentinel v = false) vs ->
  rx s = bs ++ x00 :: rest ->
  Z.of_nat (List.length bs) + 1 <= _read_length s ->
  _receive_rpc_args rpc_map s
  = Done vs (advance s (Z.of_nat (List.length bs) + 1) rest).
Proof.
  intros Hw Hns Hrx Hr.
  pose proof (wire_seq_decodes rpc_map vs bs Hw Hns s (x00 :: rest) Hrx
                ltac:(lia)) as Hd.
  rewrite (receive_rpc_args_decodes rpc_map s _ vs rest Hd eq_refl)
    by (simpl; lia).
  f_equal. unfold advance. simpl. f_equal. lia.
Qed.

Example receive_rpc_args_wire_nested :
  let bs := [x6c; x00; x00; x00; x02;
             x74; x02; x62; x01; x6e;
             x73; x00; x00; x00; x03; xc3; xa9; x00] in
  forall rest s,
    rx s = bs ++ x00 :: rest ->
    19 <= _read_length s ->
    _receive_rpc_args ∅ s
    = Done [VList [VTuple [VBool true; VNone]; VStr [xc3; xa9]]]
        (advance s 19 rest).
Proof.
  intros bs rest s Hrx Hr.
  apply (receive_rpc_args_wire ∅ _ bs rest s);
    [|repeat constructor|exact Hrx|exact Hr].
  change bs with
    ((x6c :: [x00; x00; x00; x02]
        ++ (x74 :: x02 :: ([x62; x01] ++ [x6e] ++ []))
        ++ (x73 :: [x00; x00; x00; x03] ++ [xc3; xa9] ++ [x00]) ++ [])
     ++ []).
  repeat first
    [ apply wire_seq_nil
    | apply wire_seq_cons
    | apply wire_list; [|reflexivity]
    | apply wire_tuple; [|reflexivity]
    | apply (wire_bool ∅ true)
    | apply wire_none
    | apply wire_string; reflexivity ].
Qed.

(** ** Argument lists (C8) *)




(** ** The serve loop has an outcome *)

Lemma settles_write (L : nat) (data : list byte) : settles L (write data).
Proof. unfold write. settle. Qed.
#[local] Hint Resolve settles_write : settle.

Lemma settles_forM_ {A} (L : nat) (xs : list A) (body : A -> M unit) :
  (forall x, settles L (body x)) -> settles L (forM_ xs body).
Proof. intros H. induction xs as [|x xs IH]; simpl; settle. Qed.

Lemma settles_write_header (L : nat) (ty : _H2DMsgType) :
  settles L (_write_header ty).
Proof. unfold _write_header. settle. Qed.

Lemma settles_write_chunk (L : nat) (chunk : list byte) :
  settles L (_write_chunk chunk).
Proof. unfold _write_chunk. settle. Qed.
#[local] Hint Resolve settles_write_header settles_write_chunk : settle.

Lemma settles_write_int32 (L : nat) (v : Z) : settles L (_write_int32 v).
Proof. unfold _write_int32. settle. Qed.

Lemma settles_write_int64 (L : nat) (v : Z) : settles L (_write_int64 v).
Proof. unfold _write_int64. settle. Qed.
#[local] Hint Resolve settles_write_int32 settles_write_int64 : settle.

Lemma settles_write_string (L : nat) (v : text) : settles L (_write_string v).
Proof. unfold _write_string, _write_bytes. settle. Qed.

Lemma settles_write_flush (L : nat) : settles L _write_flush.
Proof. unfold _write_flush. settle. apply settles_forM_. auto with settle. Qed.
#[local] Hint Resolve settles_write_string settles_write_flush : settle.

Lemma settles_read_expect (L : nat) (ty : _D2HMsgType) :
  settles L (_read_expect ty).
Proof. unfold _read_expect. settle. Qed.
#[local] Hint Resolve settles_read_expect receive_rpc_args_settles : settle.

Lemma settles_handle (globals : list string) (L : nat) (lineno : Z)
    (exn : host_exn) :
  settles L (handle globals lineno exn).
Proof.
  unfold handle, handle_artiq_exception, handle_exception, param_item.
  settle; apply settles_forM_; intros; settle.
Qed.

Lemma settles_serve_rpc (invoke : nat -> list py_value -> call_outcome)
    (globals : list string) (rpc_map : gmap Z py_value) (L : nat) :
  settles L (_serve_rpc invoke globals rpc_map).
Proof.
  pose proof (settles_handle globals L).
  unfold _serve_rpc. settle.
Qed.

Lemma settles_serve_exception (L : nat) : settles L _serve_exception.
Proof. unfold _serve_exception. settle. Qed.

Lemma wait_sync_suffix (pending rest : list byte) (sync_count : Z) :
  wait_sync sync_count pending = Some rest ->
  (List.length rest <= List.length pending)%nat.
Proof.
  revert sync_count. induction pending as [|b pending IH]; intros c; simpl.
  - destruct (c <? 4); [discriminate|]. intros [= <-]. reflexivity.
  - destruct (c <? 4).
    + destruct (byte_val b =? 90); intros H; apply IH in H; lia.
    + intros [= <-]. reflexivity.
Qed.

(** A header that is accepted has been taken from the channel. *)
Lemma read_header_consumes (s : CommGeneric) :
  match _read_header s with
  | Done _ s' => (List.length (rx s') < List.length (rx s))%nat
  | Raise _ s' => (List.length (rx s') <= List.length (rx s))%nat
  | Diverge => False
  end.
Proof.
  unfold _read_header, read_message_header, sync, sync_from, read. unfold_M.
  repeat (break_match; try discriminate; simplify_eq; simpl in * );
    repeat match goal with
      | E : wait_sync _ _ = Some _ |- _ => apply wait_sync_suffix in E
      | E : (_ <=? _) = true |- _ => apply Z.leb_le in E
      end;
    rewrite ?length_drop; simpl; try lia.
Qed.

Lemma serve_loop_settles (invoke : nat -> list py_value -> call_outcome)
    (globals : list string) (rpc_map : gmap Z py_value) (bound : nat)
    (s : CommGeneric) :
  (List.length (rx s) < bound)%nat ->
  match serve_loop invoke globals bound rpc_map s with
  | Done _ s' => (List.length (rx s') <= List.length (rx s))%nat
  | Raise _ s' => (List.length (rx s') <= List.length (rx s))%nat
  | Diverge => False
  end.
Proof.
  revert s. induction bound as [|bound IH]; intros s Hs; [lia|].
  assert (IH' : forall L, (L < bound)%nat ->
                  settles L (serve_loop invoke globals bound rpc_map)).
  { intros L HL s0 Hs0. apply IH. lia. }
  cbn [serve_loop]. unfold serve_body. unfold mbind at 1, M_bind at 1.
  pose proof (read_header_consumes s) as Hh.
  destruct (_read_header s) as [[] s1|e s1|]; [|exact Hh|exact Hh].
  pose proof (IH' (List.length (rx s1)) ltac:(lia)) as IH1.
  pose proof (settles_serve_rpc invoke globals rpc_map (List.length (rx s1))).
  pose proof (settles_serve_exception (List.length (rx s1))).
  clear IH IH'.
  match goal with
  | |- match ?k s1 with _ => _ end =>
      assert (K : settles (List.length (rx s1)) k) by settle
  end.
  specialize (K s1 (le_n _)).
  match goal with
  | |- match ?k with _ => _ end => destruct k
  end; try assumption; lia.
Qed.

(** [serve] returns or raises. *)
Lemma serve_settles (invoke : nat -> list py_value -> call_outcome)
    (globals : list string) (rpc_map : gmap Z py_value) (s : CommGeneric) :
  serve invoke globals rpc_map s <> Diverge.
Proof.
  unfold serve.
  pose proof (serve_loop_settles invoke globals rpc_map
                (S (List.length (rx s))) s ltac:(lia)) as H.
  intros E. rewrite E in H. exact H.
Qed.

Lemma serve_loop_bound (invoke : nat -> list py_value -> call_outcome)
    (globals : list string) (rpc_map : gmap Z py_value) (b1 b2 : nat)
    (s : CommGeneric) :
  (List.length (rx s) < b1)%nat -> (List.length (rx s) < b2)%nat ->
  serve_loop invoke globals b1 rpc_map s
  = serve_loop invoke globals b2 rpc_map s.
Proof.
  revert b2 s. induction b1 as [|b1 IH]; intros b2 s H1 H2; [lia|].
  destruct b2 as [|b2]; [lia|]. cbn [serve_loop]. unfold serve_body.
  apply bind_same_head. intros [] s1 Eh.
  pose proof (read_header_consumes s) as Hh. rewrite Eh in Hh.
  apply bind_same_head. intros ty s1' [= <- <-].
  destruct (decide _).
  { apply bind_same_head. intros [] s2 Er.
    pose proof (settles_serve_rpc invoke globals rpc_map _ s1 (le_n _)) as Hr.
    rewrite Er in Hr.
    apply IH; lia. }
  destruct (decide _); [|reflexivity].
  apply bind_same_head. intros [] s2 Er.
  pose proof (settles_serve_exception _ s1 (le_n _)) as Hr.
  rewrite Er in Hr.
  apply IH; lia.
Qed.

(** [serve] is one turn of its loop followed by [serve]. *)
Lemma serve_unfold (invoke : nat -> list py_value -> call_outcome)
    (globals : list string) (rpc_map : gmap Z py_value) (s : CommGeneric) :
  serve invoke globals rpc_map s
  = serve_body invoke globals (serve invoke globals rpc_map) rpc_map s.
Proof.
  unfold serve at 1. cbn [serve_loop]. unfold serve_body.
  apply bind_same_head. intros [] s1 Eh.
  pose proof (read_header_consumes s) as Hh. rewrite Eh in Hh.
  apply bind_same_head. intros ty s1' [= <- <-].
  destruct (decide _).
  { apply bind_same_head. intros [] s2 Er.
    pose proof (settles_serve_rpc invoke globals rpc_map _ s1 (le_n _)) as Hr.
    rewrite Er in Hr.
    unfold serve. apply serve_loop_bound; lia. }
  destruct (decide _); [|reflexivity].
  apply bind_same_head. intros [] s2 Er.
  pose proof (settles_serve_exception _ s1 (le_n _)) as Hr.
  rewrite Er in Hr.
  unfold serve. apply serve_loop_bound; lia.
Qed.

(** ** The serve loop (C9) *)

Lemma read_expect_inv (ty : _D2HMsgType) (s s' : CommGeneric) :
  _read_expect ty s = Done tt s' -> s' = s /\ _read_type s = Some ty.
Proof.
  unfold _read_expect. unfold_M. destruct (decide _); [|discriminate].
  intros [= <-]. split; [reflexivity|assumption].
Qed.

(** A loop that returns does so from a state that [_read_header] has just
    produced, with the kind [KERNEL_FINISHED]. *)
Lemma serve_loop_returns (invoke : nat -> list py_value -> call_outcome)
    (globals : list string) (rpc_map : gmap Z py_value) (bound : nat)
    (s s' : CommGeneric) :
  serve_loop invoke globals bound rpc_map s = Done tt s' ->
  _read_type s' = Some KERNEL_FINISHED
  /\ exists s0, _read_header s0 = Done tt s'.
Proof.
  revert s. induction bound as [|bound IH]; intros s; [discriminate|].
  cbn [serve_loop]. unfold serve_body. unfold mbind at 1, M_bind at 1.
  destruct (_read_header s) as [[] s1|e s1|] eqn:Eh; try discriminate.
  unfold mbind at 1, M_bind at 1. unfold gets at 1.
  destruct (decide (_read_type s1 = Some RPC_REQUEST)).
  { unfold mbind, M_bind.
    destruct (_serve_rpc invoke globals rpc_map s1) as [[] s2| |];
      try discriminate.
    apply IH. }
  destruct (decide (_read_type s1 = Some KERNEL_EXCEPTION)).
  { unfold mbind, M_bind.
    destruct (_serve_exception s1) as [[] s2| |]; try discriminate.
    apply IH. }
  intros H. apply read_expect_inv in H as [-> H]. eauto.
Qed.

(** One turn of the loop on a header of a kind that is not served. *)
Lemma serve_loop_other_kind (invoke : nat -> list py_value -> call_outcome)
    (globals : list string) (rpc_map : gmap Z py_value) (bound : nat)
    (s s1 : CommGeneric) :
  _read_header s = Done tt s1 ->
  _read_type s1 <> Some RPC_REQUEST ->
  _read_type s1 <> Some KERNEL_EXCEPTION ->
  serve_loop invoke globals (S bound) rpc_map s
  = _read_expect KERNEL_FINISHED s1.
Proof.
  intros Hh H1 H2. cbn [serve_loop]. unfold serve_body. rewrite (bind_Done _ _ _ _ _ Hh).
  unfold mbind, M_bind, gets.
  destruct (decide _); [contradiction|].
  destruct (decide _); [contradiction|]. reflexivity.
Qed.

(** C9: [serve] returns only from a state in which the header just read
    has the kind [KERNEL_FINISHED]; after a header of a kind other than
    [RPC_REQUEST], [KERNEL_EXCEPTION] and [KERNEL_FINISHED] it raises the
    error of the incorrect reply, with that kind and the kind expected;
    and on a channel that delivers a [KERNEL_FINISHED] frame first, it
    returns without a call of [write]. *)
Theorem C9_serve (invoke : nat -> list py_value -> call_outcome)
    (globals : list string) (rpc_map : gmap Z py_value) :
  (forall s s',
      serve invoke globals rpc_map s = Done tt s' ->
      _read_type s' = Some KERNEL_FINISHED
      /\ exists s0, _read_header s0 = Done tt s')
  /\ (forall s s1 kind,
        _read_header s = Done tt s1 ->
        _read_type s1 = Some kind ->
        kind <> RPC_REQUEST -> kind <> KERNEL_EXCEPTION ->
        kind <> KERNEL_FINISHED ->
        serve invoke globals rpc_map s
        = Raise (IOError_incorrect_reply (Some kind) KERNEL_FINISHED) s1)
  /\ (forall s prefix field len rest,
        _read_length s <= 0 ->
        Forall (fun b => byte_val b <> 0x5a) prefix ->
        rx s = prefix ++ sync_sequence ++ field ++ x07 :: rest ->
        unpack_l field = Some len ->
        9 <= len ->
        serve invoke globals rpc_map s
        = Done tt (Comm (Some KERNEL_FINISHED) (_write_type s) (len - 9)
                     (_write_buffer s) rest (tx s))).
Proof.
  split; [|split].
  - intros s s'. unfold serve. apply serve_loop_returns.
  - intros s s1 kind Hh Hk H1 H2 H3. unfold serve.
    rewrite (serve_loop_other_kind _ _ _ _ _ _ Hh) by congruence.
    unfold _read_expect. unfold_M. rewrite Hk.
    destruct (decide _); [congruence|reflexivity].
  - intros s prefix field len rest Hr Hp Hrx Hf Hlen. unfold serve.
    assert (Hh : _read_header s
                 = Done tt (Comm (Some KERNEL_FINISHED) (_write_type s)
                              (len - 9) (_write_buffer s) rest (tx s))).
    { rewrite (read_header_after_sync s prefix _ Hr Hp Hrx).
      rewrite (read_message_header_frame (set_rx (field ++ x07 :: rest) s)
                 field len x07 rest eq_refl Hf).
      destruct (Z.eqb_spec len 0); [lia|].
      destruct (Z.ltb_spec len 9); [lia|]. reflexivity. }
    rewrite (serve_loop_other_kind _ _ _ _ _ _ Hh) by (simpl; congruence).
    reflexivity.
Qed.

Lemma C9_serve_witness :
  (serve (fun _ _ => Returns VNone) module_globals ∅
     (__init__ [x5a; x5a; x5a; x5a; x00; x00; x00; x09; x07])
   = Done tt (Comm (Some KERNEL_FINISHED) None 0 [] [] []))
  /\ (serve (fun _ _ => Returns VNone) module_globals ∅
        (__init__ [x5a; x5a; x5a; x5a; x00; x00; x00; x09; x01])
      = Raise (IOError_incorrect_reply (Some LOG_REPLY) KERNEL_FINISHED)
          (Comm (Some LOG_REPLY) None 0 [] [] [])).
Proof.
  pose proof (C9_serve (fun _ _ => Returns VNone) module_globals ∅)
    as (_ & H2 & H3).
  split.
  - apply (H3 (__init__ [x5a; x5a; x5a; x5a; x00; x00; x00; x09; x07])
              [] [x00; x00; x00; x09] 9 []);
      [simpl; lia|constructor|reflexivity|reflexivity|lia].
  - apply (H2 (__init__ [x5a; x5a; x5a; x5a; x00; x00; x00; x09; x01])
              (Comm (Some LOG_REPLY) None 0 [] [] []) LOG_REPLY);
      [reflexivity|reflexivity|discriminate|discriminate|discriminate].
Defined.

(** ** Results of an RPC (C1) *)

(** The results that line 332 lets through are the integers strictly
    between -2^31 and 2^31-1. *)
Lemma rpc_result_accepted (result : py_value) :
  rpc_result_rejected result = false
  <-> exists r, as_int result = Some r /\ - 2 ^ 31 < r < 2 ^ 31 - 1.
Proof.
  unfold rpc_result_rejected, in_rpc_range.
  destruct (as_int result) as [r|]; split.
  - intros H. exists r. split; [reflexivity|].
    apply negb_false_iff, andb_true_iff in H as [H1 H2].
    apply Z.ltb_lt in H1, H2. lia.
  - intros (r' & [= <-] & H). apply negb_false_iff, andb_true_iff.
    split; apply Z.ltb_lt; lia.
  - discriminate.
  - intros (r' & H & _). discriminate.
Qed.

(** C1: the code at the input on which it departs from the claim. A
    service that returns 2^31-1 has its result refused by line 333, with
    the [ValueError] whose text asks for an int of width 32, although
    [_write_int32] packs that integer. The neighbouring cases are as the
    claim has them: 2^31-2 is let through, and -2^31, 2^31 and a result
    that is not an integer are refused. *)
Theorem C1_rpc_result_upper_bound :
  let refused :=
    inr (333, HostExn IsException (text_of "ValueError")
                (text_of "An RPC must return an int(width=32)") []) in
  let try_with result :=
    try_body (fun _ _ => Returns result) {[3 := VObject 0]} 3 [] in
  try_with (VInt (2 ^ 31 - 1)) = refused
  /\ pack_l (2 ^ 31 - 1) = Some [x7f; xff; xff; xff]
  /\ try_with (VInt (2 ^ 31 - 2)) = inl (VInt (2 ^ 31 - 2))
  /\ try_with (VInt (- 2 ^ 31)) = refused
  /\ try_with (VInt (2 ^ 31)) = refused
  /\ try_with (VFloat 0) = refused
  /\ try_with VNone = refused.
Proof.
  intros refused try_with. subst try_with. unfold try_body, call_service.
  rewrite lookup_singleton_eq. repeat split.
Qed.

(** ** Failures of a callable (C2) *)

(** In the module as it stands the name [ARTIQException] is not bound, so
    no exception raised under the [try] reaches a handler. *)
Lemma handle_unbound (lineno : Z) (exn : host_exn) (s : CommGeneric) :
  handle module_globals lineno exn s = Raise (NameError "ARTIQException") s.
Proof. reflexivity. Qed.

(** With the name bound, the handler of [except Exception] still unpacks
    the traceback into exactly one frame, which fails as soon as the
    callable has a frame of its own. *)
Lemma handle_exception_deep (lineno : Z) (exn : host_exn) (s : CommGeneric) :
  he_frames exn <> [] ->
  (forall p, pack_l (Z.of_nat (List.length (he_type_name exn ++ [x00]))) = Some p ->
             forall q, pack_l (Z.of_nat (List.length (he_str exn ++ [x00]))) = Some q ->
             exists s', handle_exception lineno exn s = Raise ValueError_unpack s'
                        /\ tx s' = tx s).
Proof.
  intros Hf p Hp q Hq. unfold handle_exception, extract_tb.
  destruct (he_frames exn) as [|f fs]; [contradiction|].
  destruct f as [a b c].
  unfold _write_header, _write_string, _write_bytes, _write_int32,
    _write_int64, _write_chunk. unfold_M. simpl forM_. unfold_M.
  rewrite Hp. simpl. rewrite Hq. simpl.
  eexists. split; [reflexivity|reflexivity].
Qed.

(** Whatever the callable raised, [_serve_rpc] in the module as it stands
    ends with the [NameError], in the state in which the arguments were
    decoded. *)
Lemma serve_rpc_failure_unbound
    (invoke : nat -> list py_value -> call_outcome)
    (rpc_map : gmap Z py_value) (s s1 s2 : CommGeneric) (service lineno : Z)
    (args : list py_value) (exn : host_exn) :
  _read_int32 s = Done service s1 ->
  _receive_rpc_args rpc_map s1 = Done args s2 ->
  try_body invoke rpc_map service args = inr (lineno, exn) ->
  _serve_rpc invoke module_globals rpc_map s
  = Raise (NameError "ARTIQException") s2.
Proof.
  intros H1 H2 H3. unfold _serve_rpc.
  rewrite (bind_Done _ _ _ _ _ H1), (bind_Done _ _ _ _ _ H2), H3.
  apply handle_unbound.
Qed.

(** With the name bound and a failure raised in the frame of [_serve_rpc]
    itself (here the lookup of a service that the map does not have), the
    second handler does what it is written for: an [RPC_EXCEPTION] message
    with the name of the class, the text, three zeros, the file, the line,
    a column of -1 and the function. *)
Example serve_rpc_unknown_service_when_bound :
  let channel := [x00; x00; x00; x04; x00] in
  let s := Comm (Some RPC_REQUEST) None 5 [] channel [] in
  exists s',
    _serve_rpc (fun _ _ => Returns VNone) ("ARTIQException"%string :: module_globals)
      ∅ s = Done tt s'
    /\ concat (tx s')
       = [x5a; x5a; x5a; x5a; x00; x00; x00; x70; x07]
         ++ [x00; x00; x00; x09] ++ text_of "KeyError" ++ [x00]
         ++ [x00; x00; x00; x02] ++ text_of "4" ++ [x00]
         ++ repeat x00 24
         ++ [x00; x00; x00; x21] ++ this_file ++ [x00]
         ++ [x00; x00; x01; x4b]
         ++ [xff; xff; xff; xff]
         ++ [x00; x00; x00; x0b] ++ text_of "_serve_rpc" ++ [x00].
Proof.
  eexists. split; vm_compute; reflexivity.
Qed.

(** C2: the code at an input on which it departs from the claim. The
    channel delivers one [RPC_REQUEST] for service 3 without arguments,
    then a [KERNEL_FINISHED] frame; service 3 raises a [RuntimeError] from
    its own frame. In the module as it stands, [serve] ends with the
    [NameError] for [ARTIQException]; were that name bound, it would end
    with the [ValueError] of the unpacking of a two-frame traceback. In
    both cases nothing has been written. *)
Theorem C2_callable_failure_propagates :
  let boom :=
    HostExn IsException (text_of "RuntimeError") (text_of "boom")
      [Frame (text_of "experiment.py") 12 (text_of "service")] in
  let channel :=
    [x5a; x5a; x5a; x5a; x00; x00; x00; x0e; x0a; x00; x00; x00; x03; x00;
     x5a; x5a; x5a; x5a; x00; x00; x00; x09; x07] in
  let rpc_map : gmap Z py_value := {[3 := VObject 0]} in
  let invoke := fun (_ : nat) (_ : list py_value) => Raises boom in
  (exists s',
      serve invoke module_globals rpc_map (__init__ channel)
      = Raise (NameError "ARTIQException") s'
      /\ tx s' = [])
  /\ (exists s',
        serve invoke ("ARTIQException"%string :: module_globals) rpc_map
          (__init__ channel)
        = Raise ValueError_unpack s'
        /\ tx s' = [])
  /\ (forall lineno exn s,
        handle module_globals lineno exn s
        = Raise (NameError "ARTIQException") s).
Proof.
  split; [|split]; [| |exact handle_unbound];
    eexists; (split; [vm_compute; reflexivity|reflexivity]).
Qed.

(** * Further properties *)

(** ** The reader at the boundaries of a message *)

(** A header whose length field and type byte are accepted. *)
Lemma read_header_accept (s : CommGeneric) (prefix field rest : list byte)
    (len : Z) (raw : byte) (ty : _D2HMsgType) :
  _read_length s <= 0 ->
  Forall (fun b => byte_val b <> 0x5a) prefix ->
  rx s = prefix ++ sync_sequence ++ field ++ raw :: rest ->
  unpack_l field = Some len ->
  9 <= len ->
  D2H_of_value (byte_val raw) = Some ty ->
  _read_header s
  = Done tt (Comm (Some ty) (_write_type s) (len - 9) (_write_buffer s)
               rest (tx s)).
Proof.
  intros Hr Hp Hrx Hf Hlen Hty.
  rewrite (read_header_after_sync s prefix _ Hr Hp Hrx).
  rewrite (read_message_header_frame (set_rx (field ++ raw :: rest) s)
             field len raw rest eq_refl Hf).
  destruct (Z.eqb_spec len 0); [lia|]. rewrite Hty.
  destruct (Z.ltb_spec len 9); [lia|]. reflexivity.
Qed.

(** X1: on a channel that delivers noise, the synchronisation sequence, a
    length field and a type byte, [_read_header] (not in underrun) returns
    exactly when the declared length is at least 9 and the type byte is
    the code of a Device-to-Host kind; it then holds that kind and the
    declared length minus 9, has taken the header and nothing after it,
    and has left the writer and the transmitted bytes alone. *)
Theorem X1_read_header_accepts (s : CommGeneric) (prefix field rest : list byte)
    (len : Z) (raw : byte) :
  _read_length s <= 0 ->
  Forall (fun b => byte_val b <> 0x5a) prefix ->
  rx s = prefix ++ sync_sequence ++ field ++ raw :: rest ->
  unpack_l field = Some len ->
  ((exists s', _read_header s = Done tt s')
   <-> 9 <= len /\ exists ty, D2H_of_value (byte_val raw) = Some ty)
  /\ (forall s',
        _read_header s = Done tt s' ->
        _read_type s' = D2H_of_value (byte_val raw)
        /\ _read_length s' = len - 9
        /\ rx s' = rest
        /\ _write_type s' = _write_type s
        /\ _write_buffer s' = _write_buffer s
        /\ tx s' = tx s).
Proof.
  intros Hr Hp Hrx Hf.
  pose proof (read_header_after_sync s prefix _ Hr Hp Hrx) as H.
  rewrite (read_message_header_frame (set_rx (field ++ raw :: rest) s)
             field len raw rest eq_refl Hf) in H.
  rewrite H. clear H.
  destruct (Z.eqb_spec len 0) as [E|E].
  { split; [split|]; [intros [s' ?]; discriminate|lia|discriminate]. }
  destruct (D2H_of_value (byte_val raw)) as [ty|].
  2: { split; [split|]; [intros [s' ?]; discriminate
                        |intros [_ [ty ?]]; discriminate|discriminate]. }
  destruct (Z.ltb_spec len 9).
  { split; [split|]; [intros [s' ?]; discriminate|lia|discriminate]. }
  split; [split|].
  - intros _. split; [lia|eauto].
  - intros _. eauto.
  - intros s' [= <-]. simpl. repeat split.
Qed.

Lemma X1_read_header_accepts_witness :
  let s := Comm None (Some RUN_KERNEL) 0 [[x01]]
             [xff; x5a; x5a; x5a; x5a; x00; x00; x00; x0b; x01; x68; x69; x2a]
             [[x00]] in
  ((exists s', _read_header s = Done tt s')
   <-> 9 <= 11 /\ exists ty, D2H_of_value (byte_val x01) = Some ty)
  /\ (forall s',
        _read_header s = Done tt s' ->
        _read_type s' = D2H_of_value (byte_val x01)
        /\ _read_length s' = 11 - 9
        /\ rx s' = [x68; x69; x2a]
        /\ _write_type s' = _write_type s
        /\ _write_buffer s' = _write_buffer s
        /\ tx s' = tx s).
Proof.
  intros s.
  apply (X1_read_header_accepts s [xff] [x00; x00; x00; x0b] [x68; x69; x2a] 11 x01).
  - simpl. lia.
  - repeat constructor. vm_compute. discriminate.
  - reflexivity.
  - reflexivity.
Defined.

(** A header that declares the length zero. *)
Lemma read_header_closed (s : CommGeneric) (prefix field rest : list byte) :
  _read_length s <= 0 ->
  Forall (fun b => byte_val b <> 0x5a) prefix ->
  rx s = prefix ++ sync_sequence ++ field ++ rest ->
  unpack_l field = Some 0 ->
  _read_header s
  = Raise OSError_connection_closed
      (Comm (_read_type s) (_write_type s) 0 (_write_buffer s) rest (tx s)).
Proof.
  intros Hr Hp Hrx Hf.
  rewrite (read_header_after_sync s prefix _ Hr Hp Hrx).
  unfold read_message_header.
  pose proof (unpack_l_length _ _ Hf) as L.
  pose proof (read_prefix field rest (set_rx (field ++ rest) s) eq_refl) as R4.
  rewrite L in R4. change (Z.of_nat 4) with 4 in R4.
  unfold_M. rewrite R4, Hf. reflexivity.
Qed.

(** X2: a header that declares the length zero is the in-band close:
    [_read_header] raises the error of the closed connection as soon as it
    has read the length field, without asking the channel for a type
    byte, so also when nothing follows the length field. *)
Theorem X2_read_header_connection_closed (s : CommGeneric)
    (prefix field rest : list byte) :
  _read_length s <= 0 ->
  Forall (fun b => byte_val b <> 0x5a) prefix ->
  rx s = prefix ++ sync_sequence ++ field ++ rest ->
  unpack_l field = Some 0 ->
  _read_header s
  = Raise OSError_connection_closed
      (Comm (_read_type s) (_write_type s) 0 (_write_buffer s) rest (tx s)).
Proof.
  exact (read_header_closed s prefix field rest).
Qed.

Lemma X2_read_header_connection_closed_witness :
  let s := __init__ [x5a; x5a; x5a; x5a; x00; x00; x00; x00] in
  _read_header s = Raise OSError_connection_closed (Comm None None 0 [] [] []).
Proof.
  intros s.
  apply (X2_read_header_connection_closed s [] [x00; x00; x00; x00] []).
  - simpl. lia.
  - constructor.
  - reflexivity.
  - reflexivity.
Defined.


(** What [_read_chunk] does, case by case. *)
Lemma read_chunk_shape (n : Z) (s : CommGeneric) :
  (_read_length s < n ->
     _read_chunk n s
     = Raise (IOError_chunk_overrun n (_read_length s) (_read_type s)) s)
  /\ (n <= _read_length s ->
        _read_chunk n s = read n (set_read_length (_read_length s - n) s))
  /\ (0 <= n <= _read_length s -> n <= Z.of_nat (List.length (rx s)) ->
        exists bs s',
          _read_chunk n s = Done bs s'
          /\ Z.of_nat (List.length bs) = n
          /\ rx s = bs ++ rx s'
          /\ _read_length s' = _read_length s - n).
Proof.
  unfold _read_chunk. unfold_M. repeat split.
  - intros H. destruct (Z.ltb_spec (_read_length s) n); [reflexivity|lia].
  - intros H. destruct (Z.ltb_spec (_read_length s) n); [lia|reflexivity].
  - intros H Hrx. destruct (Z.ltb_spec (_read_length s) n); [lia|].
    unfold read. simpl.
    destruct (Z.leb_spec 0 n); [|lia].
    destruct (Z.leb_spec n (Z.of_nat (List.length (rx s)))); [|lia].
    simpl. eexists _, _. split; [reflexivity|]. simpl.
    rewrite take_drop, length_take. repeat split; lia.
Qed.

(** X3: a message must be read to its end before the next header. After
    a chunk of [n] bytes has been read from a body of [r] bytes,
    [_read_header] raises the underrun with the [r - n] bytes that remain
    and leaves the object and the channel as they are when [n < r], and
    goes on to the synchronisation on what follows when [n = r]. *)
Theorem X3_header_after_chunk (s : CommGeneric) (n : Z) :
  0 <= n <= _read_length s ->
  n <= Z.of_nat (List.length (rx s)) ->
  exists bs s',
    _read_chunk n s = Done bs s'
    /\ rx s = bs ++ rx s'
    /\ (n < _read_length s ->
        _read_header s' = Raise (IOError_read_underrun (_read_length s - n)) s')
    /\ (n = _read_length s ->
        _read_header s' = (sync;; read_message_header) s').
Proof.
  intros Hn Hrx.
  destruct (proj2 (proj2 (read_chunk_shape n s)) Hn Hrx)
    as (bs & s' & E & _ & Hbs & Hl).
  exists bs, s'. split; [exact E|]. split; [exact Hbs|].
  unfold _read_header. unfold_M. rewrite Hl. split; intros H.
  - destruct (Z.ltb_spec 0 (_read_length s - n)); [reflexivity|lia].
  - destruct (Z.ltb_spec 0 (_read_length s - n)); [lia|reflexivity].
Qed.

Lemma X3_header_after_chunk_witness :
  let s := Comm (Some LOG_REPLY) None 3 [] [x61; x62; x63; x5a] [] in
  exists bs s',
    _read_chunk 2 s = Done bs s'
    /\ rx s = bs ++ rx s'
    /\ (2 < _read_length s ->
        _read_header s' = Raise (IOError_read_underrun (_read_length s - 2)) s')
    /\ (2 = _read_length s ->
        _read_header s' = (sync;; read_message_header) s').
Proof.
  intros s. apply (X3_header_after_chunk s 2); simpl; lia.
Defined.

(** ** Reading a body *)

Lemma reads_body_ret {A} (a : A) : reads_body (mret a).
Proof.
  intros s a' s' [= <- <-]. exists []. simpl. repeat split. lia.
Qed.

Lemma reads_body_raise {A} (e : py_exn) : reads_body (@raise A e).
Proof. intros s a s' H. discriminate. Qed.

Lemma reads_body_struct {A} (o : option A) : reads_body (struct_ o).
Proof. destruct o; [apply reads_body_ret|apply reads_body_raise]. Qed.

Lemma reads_body_bind {A B} (m : M A) (f : A -> M B) :
  reads_body m -> (forall a, reads_body (f a)) -> reads_body (m ≫= f).
Proof.
  intros Hm Hf s b s'. unfold mbind, M_bind.
  destruct (m s) as [a s1| |] eqn:E; try discriminate. intros H.
  destruct (Hm s a s1 E) as (t1 & R1 & L1 & ? & ? & ? & ?).
  destruct (Hf a s1 b s' H) as (t2 & R2 & L2 & ? & ? & ? & ?).
  exists (t1 ++ t2). rewrite <- app_assoc, <- R2, length_app.
  repeat split; try congruence. lia.
Qed.

Lemma reads_body_read_chunk (n : Z) : reads_body (_read_chunk n).
Proof.
  intros s bs s'. unfold _read_chunk, read. unfold_M.
  destruct (Z.ltb_spec (_read_length s) n); [discriminate|]. simpl.
  destruct (Z.leb_spec 0 n); [|discriminate].
  destruct (Z.leb_spec n (Z.of_nat (List.length (rx s)))); [|discriminate].
  intros [= <- <-]. exists (take (Z.to_nat n) (rx s)). simpl.
  rewrite take_drop, length_take. repeat split. lia.
Qed.

Lemma reads_body_read_expect (ty : _D2HMsgType) : reads_body (_read_expect ty).
Proof.
  intros s a s'. unfold _read_expect. unfold_M.
  destruct (decide _); [|discriminate]. intros H.
  assert (s' = s) as -> by congruence.
  exists []. simpl. repeat split. lia.
Qed.

Lemma reads_body_read_int32 : reads_body _read_int32.
Proof.
  apply reads_body_bind; [apply reads_body_read_chunk|].
  intros bs. apply reads_body_struct.
Qed.

Lemma reads_body_read_bytes : reads_body _read_bytes.
Proof.
  apply reads_body_bind; [apply reads_body_read_int32|].
  intros n. apply reads_body_read_chunk.
Qed.

Lemma reads_body_op (op : reader_op) (s s' : CommGeneric) :
  parses_header op = false ->
  run_reader_op op s = (Some s', true) ->
  exists taken,
    rx s = taken ++ rx s'
    /\ Z.of_nat (List.length taken) = _read_length s - _read_length s'
    /\ _read_type s' = _read_type s
    /\ _write_type s' = _write_type s
    /\ _write_buffer s' = _write_buffer s
    /\ tx s' = tx s.
Proof.
  assert (K : forall A (m : M A), reads_body m ->
            (state_after (m s), returned (m s)) = (Some s', true) ->
            exists taken,
              rx s = taken ++ rx s'
              /\ Z.of_nat (List.length taken) = _read_length s - _read_length s'
              /\ _read_type s' = _read_type s
              /\ _write_type s' = _write_type s
              /\ _write_buffer s' = _write_buffer s
              /\ tx s' = tx s).
  { intros A m Hm. destruct (m s) as [a s1| |] eqn:E; simpl; try discriminate.
    intros [= <-]. exact (Hm s a s1 E). }
  destruct op; simpl; try discriminate; intros _.
  - apply K, reads_body_read_expect.
  - apply K, reads_body_read_chunk.
  - apply K, reads_body_bind; [apply reads_body_read_chunk|].
    intros bs. apply reads_body_struct.
  - apply K, reads_body_read_int32.
  - apply K, reads_body_bind; [apply reads_body_read_chunk|].
    intros bs. apply reads_body_struct.
  - apply K, reads_body_bind; [apply reads_body_read_chunk|].
    intros bs. apply reads_body_struct.
  - apply K, reads_body_read_bytes.
  - apply K, reads_body_bind; [apply reads_body_read_bytes|].
    intros bs s0 a s0'. unfold decode_utf8. unfold_M.
    destruct (utf8_valid _); [|discriminate]. intros [= <- <-].
    exists []. simpl. repeat split. lia.
Qed.

Lemma nonneg_op (op : reader_op) (s s' : CommGeneric) :
  parses_header op = false ->
  0 <= _read_length s ->
  run_reader_op op s = (Some s', true) ->
  0 <= _read_length s'.
Proof.
  assert (K : forall A (m : M A), keeps_nonneg m ->
            0 <= _read_length s ->
            (state_after (m s), returned (m s)) = (Some s', true) ->
            0 <= _read_length s').
  { intros A m Hm Hs. specialize (Hm s Hs).
    destruct (m s) as [a s1| |]; simpl; try discriminate.
    intros [= <-]. exact Hm. }
  destruct op; simpl; try discriminate; intros _.
  - apply K, keeps_nonneg_read_expect.
  - apply K, keeps_nonneg_read_chunk.
  - apply K, keeps_nonneg_bind; [apply keeps_nonneg_read_chunk|].
    intros bs. apply keeps_nonneg_struct.
  - apply K, keeps_nonneg_read_int32.
  - apply K, keeps_nonneg_bind; [apply keeps_nonneg_read_chunk|].
    intros bs. apply keeps_nonneg_struct.
  - apply K, keeps_nonneg_bind; [apply keeps_nonneg_read_chunk|].
    intros bs. apply keeps_nonneg_struct.
  - apply K, keeps_nonneg_read_bytes.
  - apply K, keeps_nonneg_bind; [apply keeps_nonneg_read_bytes|].
    intros bs s0 Hs0. unfold decode_utf8. unfold_M.
    destruct (utf8_valid _); exact Hs0.
Qed.

(** X4: the reads of a body never go past its end. Whatever operations
    of the reader interface other than the header ones are run in a row
    from a state with [r >= 0] bytes of body remaining, none of them
    asking for a negative number of bytes, if they all return, the bytes
    they took from the channel are a prefix of what it held, as many as
    the remaining-body-length went down, hence at most [r]; the kind, the
    writer and the transmitted bytes are untouched. *)
Theorem X4_body_reads_stay_in_message (ops : list reader_op)
    (s s' : CommGeneric) :
  Forall (fun op => parses_header op = false) ops ->
  sizes_nonneg ops s = true ->
  0 <= _read_length s ->
  run_reader_ops ops s = Some s' ->
  exists taken,
    rx s = taken ++ rx s'
    /\ Z.of_nat (List.length taken) = _read_length s - _read_length s'
    /\ Z.of_nat (List.length taken) <= _read_length s
    /\ 0 <= _read_length s'
    /\ _read_type s' = _read_type s
    /\ _write_type s' = _write_type s
    /\ _write_buffer s' = _write_buffer s
    /\ tx s' = tx s.
Proof.
  intros Hops. revert s. induction Hops as [|op ops Hop _ IH]; intros s Hz Hs.
  - intros [= <-]. exists []. simpl. repeat split; lia.
  - cbn [run_reader_ops]. cbn [sizes_nonneg] in Hz.
    apply andb_true_iff in Hz as [_ Hz].
    destruct (run_reader_op op s) as [[s1|] [|]] eqn:E; try discriminate.
    intros H.
    destruct (reads_body_op op s s1 Hop E) as (t1 & R1 & L1 & ? & ? & ? & ?).
    pose proof (nonneg_op op s s1 Hop Hs E) as Hs1.
    destruct (IH s1 Hz Hs1 H) as (t2 & R2 & L2 & B2 & N2 & ? & ? & ? & ?).
    exists (t1 ++ t2). rewrite <- app_assoc, <- R2, length_app.
    repeat split; try congruence; lia.
Qed.

Lemma X4_body_reads_stay_in_message_witness :
  let s := Comm (Some RPC_REQUEST) None 7 []
             [x00; x00; x00; x02; x68; x00; x2a; x5a] [] in
  let s' := Comm (Some RPC_REQUEST) None 0 [] [x5a] [] in
  exists taken,
    rx s = taken ++ rx s'
    /\ Z.of_nat (List.length taken) = _read_length s - _read_length s'
    /\ Z.of_nat (List.length taken) <= _read_length s
    /\ 0 <= _read_length s'
    /\ _read_type s' = _read_type s
    /\ _write_type s' = _write_type s
    /\ _write_buffer s' = _write_buffer s
    /\ tx s' = tx s.
Proof.
  intros s s'.
  apply (X4_body_reads_stay_in_message [Op_read_string; Op_read_int8] s s').
  - repeat constructor.
  - vm_compute. reflexivity.
  - simpl. lia.
  - vm_compute. reflexivity.
Defined.

(** ** The writer *)

Lemma total_length_concat (buffer : list (list byte)) :
  total_length buffer = Z.of_nat (List.length (concat buffer)).
Proof.
  unfold total_length. induction buffer as [|c buffer IH]; [reflexivity|].
  cbn [map fold_right concat]. rewrite IH, length_app. lia.
Qed.

Lemma write_chunk_run (chunk : list byte) (s : CommGeneric) :
  _write_chunk chunk s = Done tt (set_write_buffer (_write_buffer s ++ [chunk]) s).
Proof. reflexivity. Qed.

(** A flush that fits the length field. *)
Lemma write_flush_run (s : CommGeneric) (k : _H2DMsgType) :
  _write_type s = Some k ->
  9 + total_length (_write_buffer s) <= 2 ^ 31 - 1 ->
  _write_flush s
  = Done tt
      (set_tx (tx s
               ++ (sync_sequence
                   ++ be_bytes 4 (9 + total_length (_write_buffer s))
                   ++ [byte_of_Z (H2D_value k)])
                  :: _write_buffer s) s).
Proof.
  intros Hk Hlen.
  pose proof (total_length_nonneg (_write_buffer s)) as Hpos.
  unfold _write_flush. unfold_M. rewrite Hk.
  unfold pack_llB. rewrite pack_sync, pack_l_nonneg, pack_kind by lia.
  unfold write. unfold_M. rewrite forM_write. simpl.
  rewrite <- app_assoc. reflexivity.
Qed.

(** What a flush does, whatever the message. *)
Lemma write_flush_cases (s : CommGeneric) :
  match _write_flush s with
  | Done _ s' =>
      exists k, _write_type s = Some k
                /\ 9 + total_length (_write_buffer s) <= 2 ^ 31 - 1
  | Raise e s' => s' = s
  | Diverge => False
  end.
Proof.
  destruct (_write_type s) as [k|] eqn:Hk.
  - destruct (Z.le_gt_cases (9 + total_length (_write_buffer s)) (2 ^ 31 - 1)).
    + rewrite (write_flush_run s k Hk) by assumption. eauto.
    + rewrite (write_flush_too_long s k Hk) by lia. reflexivity.
  - unfold _write_flush. unfold_M. rewrite Hk. reflexivity.
Qed.

(** An operation of the writer appends its chunks or raises
    [struct.error] and appends nothing. *)
Lemma run_writer_op_cases (op : writer_op) (s : CommGeneric) :
  (exists chunks,
      chunks <> []
      /\ run_writer_op op s
         = Done tt (set_write_buffer (_write_buffer s ++ chunks) s)
      /\ forall t, run_writer_op op t
                   = Done tt (set_write_buffer (_write_buffer t ++ chunks) t))
  \/ (run_writer_op op s = Raise StructError s
      /\ forall t, run_writer_op op t = Raise StructError t).
Proof.
  assert (K : forall (o : option (list byte)),
            (exists chunks,
                chunks <> []
                /\ (bs ← struct_ o; _write_chunk bs) s
                   = Done tt (set_write_buffer (_write_buffer s ++ chunks) s)
                /\ forall t, (bs ← struct_ o; _write_chunk bs) t
                   = Done tt (set_write_buffer (_write_buffer t ++ chunks) t))
            \/ ((bs ← struct_ o; _write_chunk bs) s = Raise StructError s
                /\ forall t, (bs ← struct_ o; _write_chunk bs) t
                             = Raise StructError t)).
  { intros [bs|]; [left; exists [bs]|right]; repeat split. discriminate. }
  assert (B : forall value : list byte,
            (exists chunks,
                chunks <> []
                /\ _write_bytes value s
                   = Done tt (set_write_buffer (_write_buffer s ++ chunks) s)
                /\ forall t, _write_bytes value t
                   = Done tt (set_write_buffer (_write_buffer t ++ chunks) t))
            \/ (_write_bytes value s = Raise StructError s
                /\ forall t, _write_bytes value t = Raise StructError t)).
  { intros value. unfold _write_bytes, _write_int32.
    destruct (pack_l (Z.of_nat (List.length value))) as [field|].
    - left. exists [field; value]. split; [discriminate|].
      split; [|intros t]; unfold_M; unfold _write_chunk; unfold_M; simpl;
        rewrite <- app_assoc; reflexivity.
    - right. split; [|intros t]; reflexivity. }
  destruct op; simpl.
  - left. exists [chunk]. repeat split. discriminate.
  - apply K.
  - apply K.
  - apply K.
  - apply K.
  - apply B.
  - apply B.
Qed.

(** X5: integers come back as they were written. For a value in the
    range of its format (0..255, 32 bits signed, 64 bits signed), the
    writer appends one chunk to the pending message, and the reader, on a
    channel that delivers this chunk within the current body, returns the
    value and has taken exactly the chunk. *)
Theorem X5_integers_round_trip (v : Z) (s : CommGeneric) :
  (0 <= v <= 255 ->
   exists chunk,
     _write_int8 v s = Done tt (set_write_buffer (_write_buffer s ++ [chunk]) s)
     /\ forall reader rest,
          rx reader = chunk ++ rest -> 1 <= _read_length reader ->
          _read_int8 reader = Done v (advance reader 1 rest))
  /\ (- 2 ^ 31 <= v <= 2 ^ 31 - 1 ->
      exists chunk,
        _write_int32 v s = Done tt (set_write_buffer (_write_buffer s ++ [chunk]) s)
        /\ forall reader rest,
             rx reader = chunk ++ rest -> 4 <= _read_length reader ->
             _read_int32 reader = Done v (advance reader 4 rest))
  /\ (- 2 ^ 63 <= v <= 2 ^ 63 - 1 ->
      exists chunk,
        _write_int64 v s = Done tt (set_write_buffer (_write_buffer s ++ [chunk]) s)
        /\ forall reader rest,
             rx reader = chunk ++ rest -> 8 <= _read_length reader ->
             _read_int64 reader = Done v (advance reader 8 rest)).
Proof.
  split; [|split]; intros Hv.
  - exists [byte_of_Z v]. split.
    + unfold _write_int8, pack_B.
      destruct (Z.leb_spec 0 v); [|lia]. destruct (Z.leb_spec v 255); [|lia].
      reflexivity.
    + intros reader rest Hrx Hr.
      rewrite (read_int8_advance (byte_of_Z v) rest reader Hrx Hr).
      rewrite byte_val_of_Z, Z.mod_small by lia. reflexivity.
  - destruct (pack_l v) as [chunk|] eqn:E.
    2: { unfold pack_l in E. destruct (Z.leb_spec (- 2 ^ 31) v); [|lia].
         destruct (Z.leb_spec v (2 ^ 31 - 1)); [discriminate|lia]. }
    exists chunk. split.
    + unfold _write_int32. rewrite E. reflexivity.
    + intros reader rest Hrx Hr.
      exact (read_int32_advance chunk rest v reader Hrx (unpack_pack_l _ _ E) Hr).
  - destruct (pack_q v) as [chunk|] eqn:E.
    2: { unfold pack_q in E. destruct (Z.leb_spec (- 2 ^ 63) v); [|lia].
         destruct (Z.leb_spec v (2 ^ 63 - 1)); [discriminate|lia]. }
    exists chunk. split.
    + unfold _write_int64. rewrite E. reflexivity.
    + intros reader rest Hrx Hr.
      exact (read_int64_advance chunk rest v reader Hrx (unpack_pack_q _ _ E) Hr).
Qed.

Lemma X5_integers_round_trip_witness :
  (exists chunk,
      _write_int8 200 (__init__ [])
      = Done tt (set_write_buffer (_write_buffer (__init__ []) ++ [chunk]) (__init__ []))
      /\ forall reader rest,
           rx reader = chunk ++ rest -> 1 <= _read_length reader ->
           _read_int8 reader = Done 200 (advance reader 1 rest))
  /\ (exists chunk,
        _write_int32 (-5) (__init__ [])
        = Done tt (set_write_buffer (_write_buffer (__init__ []) ++ [chunk]) (__init__ []))
        /\ forall reader rest,
             rx reader = chunk ++ rest -> 4 <= _read_length reader ->
             _read_int32 reader = Done (-5) (advance reader 4 rest)).
Proof.
  split.
  - apply (proj1 (X5_integers_round_trip 200 (__init__ []))). lia.
  - apply (proj1 (proj2 (X5_integers_round_trip (-5) (__init__ [])))). lia.
Defined.

(** X6: a byte string and a text come back as they were written. The
    writer appends the length as an int32 and then the bytes (for a text,
    its UTF-8 bytes and a NUL byte, which the length counts); the reader,
    on a channel that delivers these two chunks within the current body,
    returns the bytes (for a well-formed text, the text without the NUL)
    and has taken exactly the two chunks. *)
Theorem X6_bytes_and_strings_round_trip (value : list byte) (s : CommGeneric) :
  Z.of_nat (List.length value) + 1 <= 2 ^ 31 - 1 ->
  exists field field',
    (_write_bytes value s
     = Done tt (set_write_buffer (_write_buffer s ++ [field; value]) s)
     /\ forall reader rest,
          rx reader = field ++ value ++ rest ->
          4 + Z.of_nat (List.length value) <= _read_length reader ->
          _read_bytes reader
          = Done value (advance reader (4 + Z.of_nat (List.length value)) rest))
    /\ (_write_string value s
        = Done tt (set_write_buffer
                     (_write_buffer s ++ [field'; value ++ [x00]]) s)
        /\ (utf8_valid value = true ->
            forall reader rest,
              rx reader = field' ++ value ++ [x00] ++ rest ->
              4 + Z.of_nat (List.length (value ++ [x00])) <= _read_length reader ->
              _read_string reader
              = Done value
                  (advance reader
                     (4 + Z.of_nat (List.length (value ++ [x00]))) rest))).
Proof.
  intros Hlen.
  assert (P : forall bs : list byte,
            Z.of_nat (List.length bs) <= 2 ^ 31 - 1 ->
            exists field,
              pack_l (Z.of_nat (List.length bs)) = Some field
              /\ _write_bytes bs s
                 = Done tt (set_write_buffer (_write_buffer s ++ [field; bs]) s)).
  { intros bs Hbs. rewrite pack_l_nonneg by lia. eexists. split; [reflexivity|].
    unfold _write_bytes, _write_int32. rewrite pack_l_nonneg by lia.
    unfold_M. unfold _write_chunk. unfold_M. simpl.
    rewrite <- app_assoc. reflexivity. }
  destruct (P value ltac:(lia)) as (field & Hf & Hw).
  destruct (P (value ++ [x00]) ltac:(rewrite length_app; simpl; lia))
    as (field' & Hf' & Hw').
  exists field, field'. split; split.
  - exact Hw.
  - intros reader rest Hrx Hr. unfold _read_bytes.
    pose proof (unpack_pack_l _ _ Hf) as Hu.
    erewrite bind_Done
      by (apply (read_int32_advance field (value ++ rest));
          [exact Hrx|exact Hu|lia]).
    rewrite (read_chunk_advance value rest (advance reader 4 (value ++ rest))
               eq_refl) by (simpl; lia).
    rewrite advance_advance. reflexivity.
  - exact Hw'.
  - intros Hu reader rest Hrx Hr.
    exact (read_string_advance field' value rest reader Hrx
             (unpack_pack_l _ _ Hf') Hu Hr).
Qed.

Lemma X6_bytes_and_strings_round_trip_witness :
  let s := __init__ [] in
  let value := [xc3; xa9; x21] in
  exists field field',
    (_write_bytes value s
     = Done tt (set_write_buffer (_write_buffer s ++ [field; value]) s)
     /\ forall reader rest,
          rx reader = field ++ value ++ rest ->
          4 + Z.of_nat (List.length value) <= _read_length reader ->
          _read_bytes reader
          = Done value (advance reader (4 + Z.of_nat (List.length value)) rest))
    /\ (_write_string value s
        = Done tt (set_write_buffer
                     (_write_buffer s ++ [field'; value ++ [x00]]) s)
        /\ (utf8_valid value = true ->
            forall reader rest,
              rx reader = field' ++ value ++ [x00] ++ rest ->
              4 + Z.of_nat (List.length (value ++ [x00])) <= _read_length reader ->
              _read_string reader
              = Done value
                  (advance reader
                     (4 + Z.of_nat (List.length (value ++ [x00]))) rest))).
Proof.
  intros s value.
  apply (X6_bytes_and_strings_round_trip value s). vm_compute. discriminate.
Defined.

(** ** Messages *)

Lemma forM_writer_ops_cases (ops : list writer_op) (s : CommGeneric) :
  exists chunks,
    (forM_ ops run_writer_op s
     = Done tt (set_write_buffer (_write_buffer s ++ chunks) s)
     /\ forall t, forM_ ops run_writer_op t
                  = Done tt (set_write_buffer (_write_buffer t ++ chunks) t))
    \/ (forM_ ops run_writer_op s
        = Raise StructError (set_write_buffer (_write_buffer s ++ chunks) s)
        /\ forall t, forM_ ops run_writer_op t
                     = Raise StructError
                         (set_write_buffer (_write_buffer t ++ chunks) t)).
Proof.
  assert (G : forall ops,
            exists chunks,
              (forall t, forM_ ops run_writer_op t
                         = Done tt (set_write_buffer (_write_buffer t ++ chunks) t))
              \/ (forall t, forM_ ops run_writer_op t
                            = Raise StructError
                                (set_write_buffer (_write_buffer t ++ chunks) t))).
  { clear. induction ops as [|op ops IH].
    - exists []. left. intros t. simpl. unfold_M. rewrite app_nil_r.
      destruct t; reflexivity.
    - destruct (run_writer_op_cases op (__init__ []))
        as [(cs & _ & _ & Hop)|[_ Hop]].
      + destruct IH as [chunks [IH|IH]]; exists (cs ++ chunks); [left|right];
          intros t; cbn [forM_]; rewrite (bind_Done _ _ _ _ _ (Hop t)), IH;
          simpl; rewrite <- app_assoc; reflexivity.
      + exists []. right. intros t. cbn [forM_].
        rewrite (bind_Raise _ _ _ _ _ (Hop t)), app_nil_r.
        destruct t; reflexivity. }
  destruct (G ops) as [chunks [H|H]]; exists chunks; [left|right]; auto.
Qed.

Lemma write_header_run (ty : _H2DMsgType) (s : CommGeneric) :
  _write_header ty s
  = Done tt (Comm (_read_type s) (Some ty) (_read_length s) [] (rx s) (tx s)).
Proof. reflexivity. Qed.

(** What [prepare] leaves: the chunks of the body, the same from every
    state, and nothing else changed but the kind. *)
Lemma prepare_cases (ty : _H2DMsgType) (ops : list writer_op) :
  exists chunks,
    (forall t, prepare ty ops t
               = Done tt (Comm (_read_type t) (Some ty) (_read_length t)
                            chunks (rx t) (tx t)))
    \/ (forall t, prepare ty ops t
                  = Raise StructError
                      (Comm (_read_type t) (Some ty) (_read_length t)
                         chunks (rx t) (tx t))).
Proof.
  destruct (forM_writer_ops_cases ops (__init__ [])) as [chunks [[_ H]|[_ H]]];
    exists chunks; [left|right]; intros t; unfold prepare;
    rewrite (bind_Done _ _ _ _ _ (write_header_run ty t)), H; reflexivity.
Qed.

(** X7: preparing a message stays in the object. Whatever the kind and
    the writes of the body, [_write_header] followed by them calls
    neither [write] nor [read] and leaves the reader's kind and remaining
    length alone, whether all the writes return or one of them raises;
    when they all return, the kind of the message in preparation is the
    one given. *)
Theorem X7_prepare_stays_in_object (ty : _H2DMsgType) (ops : list writer_op)
    (s : CommGeneric) :
  match prepare ty ops s with
  | Done _ s' =>
      tx s' = tx s /\ rx s' = rx s
      /\ _read_type s' = _read_type s /\ _read_length s' = _read_length s
      /\ _write_type s' = Some ty
  | Raise _ s' =>
      tx s' = tx s /\ rx s' = rx s
      /\ _read_type s' = _read_type s /\ _read_length s' = _read_length s
  | Diverge => False
  end.
Proof.
  destruct (prepare_cases ty ops) as [chunks [H|H]]; rewrite H; simpl;
    repeat split.
Qed.

(** What [send] does: a whole frame, or [struct.error] and nothing. *)
Lemma send_shape (ty : _H2DMsgType) (ops : list writer_op) (s : CommGeneric) :
  match send ty ops s with
  | Done _ s' =>
      exists written,
        tx s' = tx s ++ written
        /\ concat written = frame (H2D_value ty) (concat (_write_buffer s'))
        /\ 9 + Z.of_nat (List.length (concat (_write_buffer s'))) <= 2 ^ 31 - 1
  | Raise e s' => e = StructError /\ tx s' = tx s
  | Diverge => False
  end.
Proof.
  unfold send.
  destruct (prepare_cases ty ops) as [chunks [H|H]].
  - rewrite (bind_Done _ _ _ _ _ (H s)).
    set (p := Comm (_read_type s) (Some ty) (_read_length s) chunks (rx s) (tx s)).
    destruct (Z.le_gt_cases (9 + total_length chunks) (2 ^ 31 - 1)) as [L|L].
    + rewrite (write_flush_run p ty eq_refl L). simpl.
      eexists. split; [reflexivity|]. split.
      * unfold frame. rewrite <- total_length_concat. simpl.
        rewrite <- ?app_assoc. reflexivity.
      * rewrite <- total_length_concat. exact L.
    + rewrite (write_flush_too_long p ty eq_refl) by (simpl; lia).
      split; reflexivity.
  - rewrite (bind_Raise _ _ _ _ _ (H s)). split; reflexivity.
Qed.


(** X8: a message that has been sent is on the channel as one frame.
    When [send] returns, what it has written, put end to end, is the
    synchronisation sequence, the length of the body plus 9 on four
    bytes, the code of the kind, and the chunks of the body in order, and
    that length fits the field; when it is refused with [struct.error],
    by a write of the body or by the packing of the header, nothing has
    been written. *)
Theorem X8_send_returns_whole_frame (ty : _H2DMsgType)
    (ops : list writer_op) (s s' : CommGeneric) :
  (send ty ops s = Done tt s' ->
   exists written,
     tx s' = tx s ++ written
     /\ concat written = frame (H2D_value ty) (concat (_write_buffer s'))
     /\ 9 + Z.of_nat (List.length (concat (_write_buffer s'))) <= 2 ^ 31 - 1)
  /\ (send ty ops s = Raise StructError s' -> tx s' = tx s).
Proof.
  pose proof (send_shape ty ops s) as H. split; intros E; rewrite E in H.
  - exact H.
  - exact (proj2 H).
Qed.

Lemma X8_send_returns_whole_frame_witness :
  let s := Comm None (Some RUN_KERNEL) 0 [[xff]] [] [[x01]] in
  (exists written,
      [[x01]; sync_sequence ++ [x00; x00; x00; x10; x09];
       [x00; x00; x00; x02]; [x6b; x00]; [x07]]
      = tx s ++ written
      /\ concat written
         = frame (H2D_value FLASH_WRITE_REQUEST)
             (concat [[x00; x00; x00; x02]; [x6b; x00]; [x07]])
      /\ 9 + Z.of_nat (List.length
                         (concat [[x00; x00; x00; x02]; [x6b; x00]; [x07]]))
         <= 2 ^ 31 - 1)
  /\ [[x01]] = tx s.
Proof.
  intros s. split.
  - exact (proj1 (X8_send_returns_whole_frame FLASH_WRITE_REQUEST
                    [Op_write_string [x6b]; Op_write_chunk [x07]] s
                    (Comm None (Some FLASH_WRITE_REQUEST) 0
                       [[x00; x00; x00; x02]; [x6b; x00]; [x07]] []
                       [[x01]; sync_sequence ++ [x00; x00; x00; x10; x09];
                        [x00; x00; x00; x02]; [x6b; x00]; [x07]]))
                  eq_refl).
  - exact (proj2 (X8_send_returns_whole_frame SWITCH_CLOCK
                    [Op_write_chunk [x07]; Op_write_int8 256] s
                    (Comm None (Some SWITCH_CLOCK) 0 [[x07]] [] [[x01]]))
                  eq_refl).
Defined.

(** X9: what was buffered before [_write_header] is never sent. A
    message that [send] has written from one state is written, byte for
    byte, from every other state, whatever its pending buffer held. *)
Theorem X9_send_discards_stale_chunks (ty : _H2DMsgType)
    (ops : list writer_op) (s s' : CommGeneric) :
  send ty ops s = Done tt s' ->
  exists written,
    tx s' = tx s ++ written
    /\ forall t, exists t',
         send ty ops t = Done tt t'
         /\ tx t' = tx t ++ written
         /\ _write_buffer t' = _write_buffer s'.
Proof.
  unfold send.
  destruct (prepare_cases ty ops) as [chunks [H|H]].
  2: { rewrite (bind_Raise _ _ _ _ _ (H s)). discriminate. }
  rewrite (bind_Done _ _ _ _ _ (H s)).
  set (p := Comm (_read_type s) (Some ty) (_read_length s) chunks (rx s) (tx s)).
  destruct (Z.le_gt_cases (9 + total_length chunks) (2 ^ 31 - 1)) as [L|L].
  2: { rewrite (write_flush_too_long p ty eq_refl) by (simpl; lia).
       discriminate. }
  rewrite (write_flush_run p ty eq_refl L). intros [= <-].
  eexists. split; [reflexivity|]. intros t.
  rewrite (bind_Done _ _ _ _ _ (H t)).
  eexists. split;
    [apply (write_flush_run
              (Comm (_read_type t) (Some ty) (_read_length t) chunks (rx t) (tx t))
              ty eq_refl L)|].
  split; reflexivity.
Qed.

Lemma X9_send_discards_stale_chunks_witness :
  let s := Comm None (Some LOAD_LIBRARY) 0 [[xde; xad]] [] [] in
  let s' := Comm None (Some SWITCH_CLOCK) 0 [[x01]] []
              [[x5a; x5a; x5a; x5a; x00; x00; x00; x0a; x03]; [x01]] in
  exists written,
    tx s' = tx s ++ written
    /\ forall t, exists t',
         send SWITCH_CLOCK [Op_write_int8 1] t = Done tt t'
         /\ tx t' = tx t ++ written
         /\ _write_buffer t' = _write_buffer s'.
Proof.
  intros s s'.
  apply (X9_send_discards_stale_chunks SWITCH_CLOCK [Op_write_int8 1] s s').
  vm_compute. reflexivity.
Defined.

(** A frame on the channel, as the reader takes it. *)
Lemma read_header_frame (reader : CommGeneric) (code : Z) (kind : _D2HMsgType)
    (body rest : list byte) :
  _read_length reader <= 0 ->
  rx reader = frame code body ++ rest ->
  D2H_of_value code = Some kind ->
  9 + Z.of_nat (List.length body) <= 2 ^ 31 - 1 ->
  _read_header reader
  = Done tt (Comm (Some kind) (_write_type reader)
               (Z.of_nat (List.length body)) (_write_buffer reader)
               (body ++ rest) (tx reader)).
Proof.
  intros Hr Hrx Hk Hlen.
  assert (Hc : byte_val (byte_of_Z code) = code).
  { rewrite byte_val_of_Z. apply Z.mod_small.
    destruct code as [|q|q]; try discriminate.
    repeat (match goal with q : positive |- _ => destruct q end;
            try discriminate; try lia). }
  rewrite (read_header_accept reader [] (be_bytes 4 (9 + Z.of_nat (List.length body)))
             (body ++ rest) (9 + Z.of_nat (List.length body))
             (byte_of_Z code) kind Hr).
  - do 2 f_equal. lia.
  - constructor.
  - rewrite Hrx. unfold frame. simpl. rewrite <- ?app_assoc. reflexivity.
  - apply unpack_pack_l, pack_l_nonneg. lia.
  - lia.
  - rewrite Hc. exact Hk.
Qed.

(** X10: the reader takes the frames the writer makes. When [send] has
    written a message, a reader (not in the middle of a body) whose
    channel delivers what was written takes from [_read_header] the kind
    with the same code and the length of the body, and then from
    [_read_chunk] the body as the writer buffered it, after which the
    message is read to its end. *)
Theorem X10_frame_round_trip (ty : _H2DMsgType) (ops : list writer_op)
    (s s' reader : CommGeneric) (written : list (list byte))
    (rest : list byte) :
  send ty ops s = Done tt s' ->
  tx s' = tx s ++ written ->
  _read_length reader <= 0 ->
  rx reader = concat written ++ rest ->
  let body := concat (_write_buffer s') in
  exists kind after_header,
    _read_header reader = Done tt after_header
    /\ _read_type after_header = Some kind
    /\ D2H_value kind = H2D_value ty
    /\ _read_length after_header = Z.of_nat (List.length body)
    /\ _read_chunk (Z.of_nat (List.length body)) after_header
       = Done body (Comm (Some kind) (_write_type reader) 0
                      (_write_buffer reader) rest (tx reader)).
Proof.
  intros Hs Htx Hr Hrx body.
  pose proof (send_shape ty ops s) as H8. rewrite Hs in H8.
  destruct H8 as (w & Hw & Hc & Hlen).
  assert (w = written) as -> by (rewrite Hw in Htx; exact (app_inv_head _ _ _ Htx)).
  fold body in Hc, Hlen. rewrite Hc in Hrx.
  assert (exists kind, D2H_of_value (H2D_value ty) = Some kind
                       /\ D2H_value kind = H2D_value ty) as (kind & Hk & Hv)
    by (destruct ty; eexists; split; reflexivity).
  exists kind. eexists. split; [|split; [|split; [|split]]].
  - exact (read_header_frame reader _ kind body rest Hr Hrx Hk Hlen).
  - reflexivity.
  - exact Hv.
  - reflexivity.
  - rewrite (read_chunk_advance body rest
               (Comm (Some kind) (_write_type reader)
                  (Z.of_nat (List.length body)) (_write_buffer reader)
                  (body ++ rest) (tx reader)) eq_refl) by (simpl; lia).
    unfold advance. simpl. rewrite Z.sub_diag. reflexivity.
Qed.

Lemma X10_frame_round_trip_witness :
  let s := __init__ [] in
  let s' := Comm None (Some FLASH_READ_REQUEST) 0
              [[x00; x00; x00; x02]; [x6b; x00]] []
              [[x5a; x5a; x5a; x5a; x00; x00; x00; x0f; x08];
               [x00; x00; x00; x02]; [x6b; x00]] in
  let reader := __init__ [x5a; x5a; x5a; x5a; x00; x00; x00; x0f; x08;
                          x00; x00; x00; x02; x6b; x00; xff] in
  let body := concat (_write_buffer s') in
  exists kind after_header,
    _read_header reader = Done tt after_header
    /\ _read_type after_header = Some kind
    /\ D2H_value kind = H2D_value FLASH_READ_REQUEST
    /\ _read_length after_header = Z.of_nat (List.length body)
    /\ _read_chunk (Z.of_nat (List.length body)) after_header
       = Done body (Comm (Some kind) (_write_type reader) 0
                      (_write_buffer reader) [xff] (tx reader)).
Proof.
  intros s s' reader.
  apply (X10_frame_round_trip FLASH_READ_REQUEST [Op_write_string [x6b]]
           s s' reader
           [[x5a; x5a; x5a; x5a; x00; x00; x00; x0f; x08];
            [x00; x00; x00; x02]; [x6b; x00]] [xff]).
  - vm_compute. reflexivity.
  - reflexivity.
  - simpl. lia.
  - reflexivity.
Defined.

(** ** Texts at their edges *)

(** X11: [_read_string] takes the length-prefixed byte string and drops
    its last byte without looking at it: whatever byte ends the string,
    the text is the bytes before it; and a byte string of length zero is
    the empty text. *)
Theorem X11_read_string_drops_last_byte (reader : CommGeneric)
    (field utf8 rest : list byte) (last : byte) :
  utf8_valid utf8 = true ->
  (rx reader = field ++ utf8 ++ [last] ++ rest ->
   unpack_l field = Some (Z.of_nat (List.length utf8) + 1) ->
   5 + Z.of_nat (List.length utf8) <= _read_length reader ->
   _read_string reader
   = Done utf8 (advance reader (5 + Z.of_nat (List.length utf8)) rest))
  /\ (rx reader = field ++ rest ->
      unpack_l field = Some 0 ->
      4 <= _read_length reader ->
      _read_string reader = Done [] (advance reader 4 rest)).
Proof.
  intros Hu. split.
  - intros Hrx Hf Hr. unfold _read_string, _read_bytes.
    rewrite (app_assoc utf8) in Hrx.
    erewrite bind_Done; [|erewrite bind_Done;
      [|apply (read_int32_advance field _ _ reader Hrx Hf); lia]].
    2: { replace (Z.of_nat (List.length utf8) + 1)
           with (Z.of_nat (List.length (utf8 ++ [last])))
           by (rewrite length_app; simpl; lia).
         apply read_chunk_advance; [reflexivity|].
         rewrite length_app. simpl. lia. }
    rewrite advance_advance, removelast_last. unfold decode_utf8.
    rewrite Hu. unfold_M. do 2 f_equal. rewrite length_app. simpl. lia.
  - intros Hrx Hf Hr. unfold _read_string, _read_bytes.
    erewrite bind_Done; [|erewrite bind_Done;
      [|apply (read_int32_advance field _ _ reader Hrx Hf); lia]].
    2: { apply (read_chunk_advance [] rest); [reflexivity|simpl; lia]. }
    rewrite advance_advance. reflexivity.
Qed.

Lemma X11_read_string_drops_last_byte_witness :
  let reader := Comm (Some LOG_REPLY) None 7 []
                  [x00; x00; x00; x03; x68; x69; xff; x2a] [] in
  (rx reader = [x00; x00; x00; x03] ++ [x68; x69] ++ [xff] ++ [x2a] ->
   unpack_l [x00; x00; x00; x03] = Some (Z.of_nat (List.length [x68; x69]) + 1) ->
   5 + Z.of_nat (List.length [x68; x69]) <= _read_length reader ->
   _read_string reader
   = Done [x68; x69] (advance reader (5 + Z.of_nat (List.length [x68; x69])) [x2a]))
  /\ (rx reader = [x00; x00; x00; x03] ++ [x68; x69; xff; x2a] ->
      unpack_l [x00; x00; x00; x03] = Some 0 ->
      4 <= _read_length reader ->
      _read_string reader = Done [] (advance reader 4 [x68; x69; xff; x2a])).
Proof.
  intros reader.
  split.
  - apply (proj1 (X11_read_string_drops_last_byte reader [x00; x00; x00; x03]
                    [x68; x69] [x2a] xff eq_refl)).
  - apply (proj2 (X11_read_string_drops_last_byte reader [x00; x00; x00; x03]
                    [x68; x69] [x68; x69; xff; x2a] xff eq_refl)).
Defined.

(** ** The exported operations *)

Ltac fields :=
  cbn [_read_type _write_type _read_length _write_buffer rx tx H2D_value].

Lemma write_empty_run (k : _H2DMsgType) (s : CommGeneric) :
  _write_empty k s
  = Done tt (Comm (_read_type s) (Some k) (_read_length s) [] (rx s)
               (tx s ++ [frame (H2D_value k) []])).
Proof.
  unfold _write_empty.
  rewrite (bind_Done _ _ _ _ _ (write_header_run k s)).
  rewrite (write_flush_run
             (Comm (_read_type s) (Some k) (_read_length s) [] (rx s) (tx s))
             k eq_refl) by (unfold total_length; simpl; lia).
  destruct k; reflexivity.
Qed.

(** The reply to a request: a header, then the check of its kind. *)
Lemma read_empty_reply (s : CommGeneric) (prefix field rest : list byte)
    (len : Z) (raw : byte) (kind ty : _D2HMsgType) :
  _read_length s <= 0 ->
  Forall (fun b => byte_val b <> 0x5a) prefix ->
  rx s = prefix ++ sync_sequence ++ field ++ raw :: rest ->
  unpack_l field = Some len ->
  9 <= len ->
  D2H_of_value (byte_val raw) = Some kind ->
  _read_empty ty s
  = let s' := Comm (Some kind) (_write_type s) (len - 9) (_write_buffer s)
                rest (tx s) in
    if decide (kind = ty) then Done tt s'
    else Raise (IOError_incorrect_reply (Some kind) ty) s'.
Proof.
  intros Hr Hp Hrx Hf Hlen Hk. unfold _read_empty.
  rewrite (bind_Done _ _ _ _ _
             (read_header_accept s prefix field rest len raw kind
                Hr Hp Hrx Hf Hlen Hk)).
  unfold _read_expect. unfold_M. simpl.
  destruct (decide (Some kind = Some ty)) as [E|E];
    destruct (decide (kind = ty)) as [E'|E']; try reflexivity; congruence.
Qed.

(** X12: [reset_session] writes, in one [write] and whatever the state
    of the object, the synchronisation sequence and a length field of
    zero, eight bytes in all, and changes nothing else; a reader that is
    sent these bytes finds in them the in-band close. *)
Theorem X12_reset_session (s : CommGeneric) :
  reset_session s
  = Done tt (set_tx (tx s ++ [sync_sequence ++ [x00; x00; x00; x00]]) s)
  /\ forall reader rest,
       _read_length reader <= 0 ->
       rx reader = sync_sequence ++ [x00; x00; x00; x00] ++ rest ->
       exists reader',
         _read_header reader = Raise OSError_connection_closed reader'
         /\ rx reader' = rest.
Proof.
  split; [reflexivity|].
  intros reader rest Hr Hrx. eexists. split.
  - apply (read_header_closed reader [] [x00; x00; x00; x00] rest Hr);
      [constructor|exact Hrx|reflexivity].
  - reflexivity.
Qed.

(** X13: [check_ident] sends the empty [IDENT_REQUEST] frame and, on an
    [IDENT_REPLY] with at least four bytes of body, returns when the
    first four are the bytes of "AROR" and raises [UnsupportedDevice]
    with these four bytes when they are not; it reads four bytes of the
    body and no more. *)
Theorem X13_check_ident (s : CommGeneric) (prefix field id rest : list byte)
    (len : Z) :
  _read_length s <= 0 ->
  Forall (fun b => byte_val b <> 0x5a) prefix ->
  rx s = prefix ++ sync_sequence ++ field ++ x02 :: id ++ rest ->
  unpack_l field = Some len ->
  13 <= len ->
  List.length id = 4%nat ->
  let s' := Comm (Some IDENT_REPLY) (Some IDENT_REQUEST) (len - 13) [] rest
              (tx s ++ [frame 2 []]) in
  check_ident s
  = if decide (id = [x41; x52; x4f; x52]) then Returned tt s'
    else Raised (UnsupportedDevice id) s'.
Proof.
  intros Hr Hp Hrx Hf Hlen Hid s'. unfold check_ident.
  rewrite (bind_Done _ _ _ _ _ (write_empty_run IDENT_REQUEST s)).
  erewrite bind_Done
    by (apply (read_header_accept _ prefix field (id ++ rest) len x02 IDENT_REPLY);
        [exact Hr|exact Hp|exact Hrx|exact Hf|lia|reflexivity]).
  erewrite bind_Done by reflexivity. fields.
  pose proof (read_chunk_advance id rest
                (Comm (Some IDENT_REPLY) (Some IDENT_REQUEST) (len - 9) []
                   (id ++ rest) (tx s ++ [frame 2 []])) eq_refl) as Hc.
  rewrite Hid in Hc. change (Z.of_nat 4) with 4 in Hc.
  rewrite Hc by (simpl; lia).
  unfold advance. simpl.
  replace (len - 9 - 4) with (len - 13) by lia. reflexivity.
Qed.

Lemma X13_check_ident_witness :
  let s := __init__ [x5a; x5a; x5a; x5a; x00; x00; x00; x0d; x02;
                     x41; x52; x4f; x52] in
  check_ident s
  = Returned tt (Comm (Some IDENT_REPLY) (Some IDENT_REQUEST) 0 [] []
                   [frame 2 []]).
Proof.
  intros s.
  apply (X13_check_ident s [] [x00; x00; x00; x0d] [x41; x52; x4f; x52] [] 13).
  - simpl. lia.
  - constructor.
  - reflexivity.
  - reflexivity.
  - lia.
  - reflexivity.
Defined.

(** X14: [get_log] sends the empty [LOG_REQUEST] frame and, on a
    [LOG_REPLY], reads the whole body, which leaves the message read to
    its end, and returns it as text; a body that is not well-formed UTF-8
    raises the decoding error after it has been read. *)
Theorem X14_get_log (s : CommGeneric) (prefix field body rest : list byte) :
  _read_length s <= 0 ->
  Forall (fun b => byte_val b <> 0x5a) prefix ->
  rx s = prefix ++ sync_sequence ++ field ++ x01 :: body ++ rest ->
  unpack_l field = Some (9 + Z.of_nat (List.length body)) ->
  let s' := Comm (Some LOG_REPLY) (Some LOG_REQUEST) 0 [] rest
              (tx s ++ [frame 1 []]) in
  get_log s
  = if utf8_valid body then Done body s' else Raise UnicodeDecodeError s'.
Proof.
  intros Hr Hp Hrx Hf s'. unfold get_log.
  rewrite (bind_Done _ _ _ _ _ (write_empty_run LOG_REQUEST s)).
  erewrite bind_Done
    by (apply (read_header_accept _ prefix field (body ++ rest)
                 (9 + Z.of_nat (List.length body)) x01 LOG_REPLY);
        [exact Hr|exact Hp|exact Hrx|exact Hf|lia|reflexivity]).
  erewrite bind_Done by reflexivity.
  erewrite bind_Done by reflexivity. fields.
  replace (9 + Z.of_nat (List.length body) - 9)
    with (Z.of_nat (List.length body)) by lia.
  erewrite bind_Done
    by (apply (read_chunk_advance body rest); [reflexivity|simpl; lia]).
  unfold decode_utf8, advance. simpl. rewrite Z.sub_diag.
  destruct (utf8_valid body); reflexivity.
Qed.

Lemma X14_get_log_witness :
  let s := __init__ [x5a; x5a; x5a; x5a; x00; x00; x00; x0b; x01; x68; x69; x2a] in
  get_log s
  = Done [x68; x69]
      (Comm (Some LOG_REPLY) (Some LOG_REQUEST) 0 [] [x2a] [frame 1 []]).
Proof.
  intros s.
  apply (X14_get_log s [] [x00; x00; x00; x0b] [x68; x69] [x2a]).
  - simpl. lia.
  - constructor.
  - reflexivity.
  - reflexivity.
Defined.

Ltac state :=
  cbn [set_write_buffer set_write_type set_tx set_rx set_read_length
       set_read_type app _read_type _write_type _read_length _write_buffer
       rx tx H2D_value].

Ltac fits :=
  unfold total_length; cbn [map fold_right List.length];
  rewrite ?length_app, ?be_bytes_length; cbn [List.length]; lia.

Lemma write_flush_record (rt : option _D2HMsgType) (k : _H2DMsgType) (rl : Z)
    (buffer : list (list byte)) (pending : list byte) (out : list (list byte)) :
  9 + total_length buffer <= 2 ^ 31 - 1 ->
  _write_flush (Comm rt (Some k) rl buffer pending out)
  = Done tt
      (Comm rt (Some k) rl buffer pending
         (out ++ (sync_sequence ++ be_bytes 4 (9 + total_length buffer)
                  ++ [byte_of_Z (H2D_value k)]) :: buffer)).
Proof.
  intros H. exact (write_flush_run (Comm rt (Some k) rl buffer pending out) k eq_refl H).
Qed.

Lemma write_bytes_run (value : list byte) (s : CommGeneric) :
  Z.of_nat (List.length value) <= 2 ^ 31 - 1 ->
  _write_bytes value s
  = Done tt (set_write_buffer
               (_write_buffer s
                ++ [be_bytes 4 (Z.of_nat (List.length value)); value]) s).
Proof.
  intros H. unfold _write_bytes, _write_int32. rewrite pack_l_nonneg by lia.
  unfold_M. unfold _write_chunk. unfold_M. simpl.
  rewrite <- app_assoc. reflexivity.
Qed.

Lemma write_string_run (value : text) (s : CommGeneric) :
  Z.of_nat (List.length value) + 1 <= 2 ^ 31 - 1 ->
  _write_string value s
  = Done tt (set_write_buffer
               (_write_buffer s
                ++ [be_bytes 4 (Z.of_nat (List.length value) + 1);
                    value ++ [x00]]) s).
Proof.
  intros H. unfold _write_string.
  rewrite write_bytes_run by (rewrite length_app; simpl; lia).
  rewrite length_app. simpl List.length.
  replace (Z.of_nat (List.length value + 1)) with (Z.of_nat (List.length value) + 1)
    by lia.
  reflexivity.
Qed.

Lemma frame_of_chunks (k : _H2DMsgType) (buffer : list (list byte)) :
  concat ((sync_sequence ++ be_bytes 4 (9 + total_length buffer)
           ++ [byte_of_Z (H2D_value k)]) :: buffer)
  = frame (H2D_value k) (concat buffer).
Proof.
  unfold frame. rewrite <- total_length_concat. simpl.
  rewrite <- ?app_assoc. reflexivity.
Qed.

Ltac same_frame k :=
  rewrite (frame_of_chunks k); cbn [concat];
  rewrite ?app_nil_r, <- ?app_assoc; reflexivity.

(** X15: [flash_storage_read] sends one [FLASH_READ_REQUEST] frame whose
    body is the key as a string (length, UTF-8 bytes, NUL) and, on a
    [FLASH_READ_REPLY], returns the whole body as it is, which leaves the
    message read to its end. *)
Theorem X15_flash_storage_read (s : CommGeneric) (key : text)
    (prefix field body rest : list byte) :
  _read_length s <= 0 ->
  Forall (fun b => byte_val b <> 0x5a) prefix ->
  rx s = prefix ++ sync_sequence ++ field ++ x0b :: body ++ rest ->
  unpack_l field = Some (9 + Z.of_nat (List.length body)) ->
  Z.of_nat (List.length key) + 14 <= 2 ^ 31 - 1 ->
  exists s' written,
    flash_storage_read key s = Done body s'
    /\ rx s' = rest
    /\ _read_length s' = 0
    /\ _read_type s' = Some FLASH_READ_REPLY
    /\ tx s' = tx s ++ written
    /\ concat written
       = frame 8 (be_bytes 4 (Z.of_nat (List.length key) + 1) ++ key ++ [x00]).
Proof.
  intros Hr Hp Hrx Hf Hk. unfold flash_storage_read.
  rewrite (bind_Done _ _ _ _ _ (write_header_run _ s)).
  erewrite bind_Done by (apply write_string_run; lia). state.
  erewrite bind_Done by (apply write_flush_record; fits).
  erewrite bind_Done
    by (apply (read_header_accept _ prefix field (body ++ rest)
                 (9 + Z.of_nat (List.length body)) x0b FLASH_READ_REPLY);
        [exact Hr|exact Hp|exact Hrx|exact Hf|lia|reflexivity]).
  erewrite bind_Done by reflexivity.
  erewrite bind_Done by reflexivity. state.
  replace (9 + Z.of_nat (List.length body) - 9)
    with (Z.of_nat (List.length body)) by lia.
  erewrite (read_chunk_advance body rest) by (first [reflexivity|simpl; lia]).
  eexists _, _. split; [reflexivity|]. unfold advance. state.
  repeat split; [lia|].
  same_frame FLASH_READ_REQUEST.
Qed.

Lemma X15_flash_storage_read_witness :
  let s := __init__ [x5a; x5a; x5a; x5a; x00; x00; x00; x0b; x0b; xca; xfe; x2a] in
  exists s' written,
    flash_storage_read [x6b] s = Done [xca; xfe] s'
    /\ rx s' = [x2a]
    /\ _read_length s' = 0
    /\ _read_type s' = Some FLASH_READ_REPLY
    /\ tx s' = tx s ++ written
    /\ concat written
       = frame 8 (be_bytes 4 (Z.of_nat (List.length [x6b]) + 1) ++ [x6b] ++ [x00]).
Proof.
  intros s.
  apply (X15_flash_storage_read s [x6b] [] [x00; x00; x00; x0b] [xca; xfe] [x2a]).
  - simpl. lia.
  - constructor.
  - reflexivity.
  - reflexivity.
  - vm_compute. discriminate.
Defined.

(** X16: [flash_storage_write] sends one [FLASH_WRITE_REQUEST] frame
    whose body is the key as a string and the value as a length-prefixed
    byte string, and then goes by the kind of the reply: it returns on
    [FLASH_OK_REPLY], raises the error of the full storage on
    [FLASH_ERROR_REPLY], and the error of the incorrect reply, with
    [FLASH_OK_REPLY] as the kind expected, on any other kind. *)
Theorem X16_flash_storage_write (s : CommGeneric) (key : text)
    (value prefix field rest : list byte) (len : Z) (raw : byte)
    (kind : _D2HMsgType) :
  _read_length s <= 0 ->
  Forall (fun b => byte_val b <> 0x5a) prefix ->
  rx s = prefix ++ sync_sequence ++ field ++ raw :: rest ->
  unpack_l field = Some len ->
  9 <= len ->
  D2H_of_value (byte_val raw) = Some kind ->
  Z.of_nat (List.length key) + Z.of_nat (List.length value) + 18 <= 2 ^ 31 - 1 ->
  exists s' written,
    flash_storage_write key value s
    = match kind with
      | FLASH_OK_REPLY => Returned tt s'
      | FLASH_ERROR_REPLY => Raised IOError_flash_full s'
      | _ => Raised (Inner (IOError_incorrect_reply (Some kind) FLASH_OK_REPLY)) s'
      end
    /\ rx s' = rest
    /\ _read_type s' = Some kind
    /\ tx s' = tx s ++ written
    /\ concat written
       = frame 9 (be_bytes 4 (Z.of_nat (List.length key) + 1) ++ key ++ [x00]
                  ++ be_bytes 4 (Z.of_nat (List.length value)) ++ value).
Proof.
  intros Hr Hp Hrx Hf Hlen Hkind Hk. unfold flash_storage_write.
  rewrite (bind_Done _ _ _ _ _ (write_header_run _ s)).
  erewrite bind_Done by (apply write_string_run; lia). state.
  erewrite bind_Done by (apply write_bytes_run; lia). state.
  erewrite bind_Done by (apply write_flush_record; fits).
  match goal with
  | |- context [_read_header ?st] =>
      rewrite (read_header_accept st prefix field rest len raw kind
                 Hr Hp Hrx Hf Hlen Hkind)
  end. state.
  match goal with
  | |- context [Raised IOError_flash_full ?st] => exists st
  end.
  eexists. split; [|split; [reflexivity|split; [reflexivity|split;
                     [reflexivity|]]]].
  - unfold _read_expect. unfold_M. state. destruct kind; reflexivity.
  - same_frame FLASH_WRITE_REQUEST.
Qed.

Lemma X16_flash_storage_write_witness :
  let s := __init__ [x5a; x5a; x5a; x5a; x00; x00; x00; x09; x0d] in
  exists s' written,
    flash_storage_write [x6b] [x01; x02] s = Raised IOError_flash_full s'
    /\ rx s' = []
    /\ _read_type s' = Some FLASH_ERROR_REPLY
    /\ tx s' = tx s ++ written
    /\ concat written
       = frame 9 (be_bytes 4 (Z.of_nat (List.length [x6b]) + 1) ++ [x6b] ++ [x00]
                  ++ be_bytes 4 (Z.of_nat (List.length [x01; x02])) ++ [x01; x02]).
Proof.
  intros s.
  apply (X16_flash_storage_write s [x6b] [x01; x02] [] [x00; x00; x00; x09] []
           9 x0d FLASH_ERROR_REPLY).
  - simpl. lia.
  - constructor.
  - reflexivity.
  - reflexivity.
  - lia.
  - reflexivity.
  - vm_compute. discriminate.
Defined.

(** X17: [load] sends one [LOAD_LIBRARY] frame whose body is the library,
    byte for byte, and returns exactly when the reply is of the kind
    [LOAD_COMPLETED]; any other kind, [LOAD_FAILED] included, raises the
    error of the incorrect reply. *)
Theorem X17_load (s : CommGeneric) (kernel_library prefix field rest : list byte)
    (len : Z) (raw : byte) (kind : _D2HMsgType) :
  _read_length s <= 0 ->
  Forall (fun b => byte_val b <> 0x5a) prefix ->
  rx s = prefix ++ sync_sequence ++ field ++ raw :: rest ->
  unpack_l field = Some len ->
  9 <= len ->
  D2H_of_value (byte_val raw) = Some kind ->
  9 + Z.of_nat (List.length kernel_library) <= 2 ^ 31 - 1 ->
  exists s' written,
    load kernel_library s
    = (if decide (kind = LOAD_COMPLETED) then Done tt s'
       else Raise (IOError_incorrect_reply (Some kind) LOAD_COMPLETED) s')
    /\ rx s' = rest
    /\ tx s' = tx s ++ written
    /\ concat written = frame 4 kernel_library.
Proof.
  intros Hr Hp Hrx Hf Hlen Hkind Hk. unfold load.
  rewrite (bind_Done _ _ _ _ _ (write_header_run _ s)).
  rewrite (bind_Done _ _ _ _ _ (write_chunk_run _ _)). state.
  erewrite bind_Done by (apply write_flush_record; fits).
  match goal with
  | |- context [_read_empty _ ?st] =>
      rewrite (read_empty_reply st prefix field rest len raw kind LOAD_COMPLETED
                 Hr Hp Hrx Hf Hlen Hkind)
  end. state.
  eexists _, _. split; [reflexivity|]. state.
  split; [reflexivity|split; [reflexivity|]].
  same_frame LOAD_LIBRARY.
Qed.

Lemma X17_load_witness :
  let s := __init__ [x5a; x5a; x5a; x5a; x00; x00; x00; x09; x06] in
  exists s' written,
    load [x7f; x45; x4c; x46] s
    = (if decide (LOAD_FAILED = LOAD_COMPLETED) then Done tt s'
       else Raise (IOError_incorrect_reply (Some LOAD_FAILED) LOAD_COMPLETED) s')
    /\ rx s' = []
    /\ tx s' = tx s ++ written
    /\ concat written = frame 4 [x7f; x45; x4c; x46].
Proof.
  intros s.
  apply (X17_load s [x7f; x45; x4c; x46] [] [x00; x00; x00; x09] [] 9 x06 LOAD_FAILED).
  - simpl. lia.
  - constructor.
  - reflexivity.
  - reflexivity.
  - lia.
  - reflexivity.
  - vm_compute. discriminate.
Defined.

(** X18: [switch_clock] packs its flag as one unsigned byte. A flag
    outside 0..255 raises [struct.error] before anything is written or
    read; a flag inside is sent as the one-byte body of a [SWITCH_CLOCK]
    frame, and the operation returns exactly when the reply is of the
    kind [CLOCK_SWITCH_COMPLETED]. *)
Theorem X18_switch_clock (s : CommGeneric) (external : Z) :
  (external < 0 \/ 255 < external ->
   switch_clock external s
   = Raise StructError
       (Comm (_read_type s) (Some SWITCH_CLOCK) (_read_length s) []
          (rx s) (tx s)))
  /\ (0 <= external <= 255 ->
      forall prefix field rest len raw kind,
        _read_length s <= 0 ->
        Forall (fun b => byte_val b <> 0x5a) prefix ->
        rx s = prefix ++ sync_sequence ++ field ++ raw :: rest ->
        unpack_l field = Some len ->
        9 <= len ->
        D2H_of_value (byte_val raw) = Some kind ->
        exists s' written,
          switch_clock external s
          = (if decide (kind = CLOCK_SWITCH_COMPLETED) then Done tt s'
             else Raise (IOError_incorrect_reply (Some kind)
                           CLOCK_SWITCH_COMPLETED) s')
          /\ rx s' = rest
          /\ tx s' = tx s ++ written
          /\ concat written = frame 3 [byte_of_Z external]).
Proof.
  split.
  - intros H. unfold switch_clock.
    rewrite (bind_Done _ _ _ _ _ (write_header_run _ s)).
    apply bind_Raise. unfold _write_int8, pack_B.
    destruct (Z.leb_spec 0 external); destruct (Z.leb_spec external 255);
      try lia; reflexivity.
  - intros H prefix field rest len raw kind Hr Hp Hrx Hf Hlen Hkind.
    unfold switch_clock.
    rewrite (bind_Done _ _ _ _ _ (write_header_run _ s)).
    erewrite bind_Done.
    2: { unfold _write_int8, pack_B.
         destruct (Z.leb_spec 0 external); [|lia].
         destruct (Z.leb_spec external 255); [|lia]. reflexivity. }
    state.
    erewrite bind_Done by (apply write_flush_record; fits).
    match goal with
    | |- context [_read_empty _ ?st] =>
        rewrite (read_empty_reply st prefix field rest len raw kind
                   CLOCK_SWITCH_COMPLETED Hr Hp Hrx Hf Hlen Hkind)
    end. state.
    eexists _, _. split; [reflexivity|]. state.
    split; [reflexivity|split; [reflexivity|]].
    same_frame SWITCH_CLOCK.
Qed.

(** X19: for [flash_storage_erase] and [flash_storage_remove] the only
    reply that counts is [FLASH_OK_REPLY]: they return on it and raise
    the error of the incorrect reply on every other kind, the
    [FLASH_ERROR_REPLY] that [flash_storage_write] reports as a full
    storage included. *)
Theorem X19_flash_erase_and_remove (s : CommGeneric) (key : text)
    (prefix field rest : list byte) (len : Z) (raw : byte)
    (kind : _D2HMsgType) :
  _read_length s <= 0 ->
  Forall (fun b => byte_val b <> 0x5a) prefix ->
  rx s = prefix ++ sync_sequence ++ field ++ raw :: rest ->
  unpack_l field = Some len ->
  9 <= len ->
  D2H_of_value (byte_val raw) = Some kind ->
  Z.of_nat (List.length key) + 14 <= 2 ^ 31 - 1 ->
  (exists s',
      flash_storage_erase s
      = (if decide (kind = FLASH_OK_REPLY) then Done tt s'
         else Raise (IOError_incorrect_reply (Some kind) FLASH_OK_REPLY) s')
      /\ rx s' = rest
      /\ tx s' = tx s ++ [frame 10 []])
  /\ (exists s' written,
        flash_storage_remove key s
        = (if decide (kind = FLASH_OK_REPLY) then Done tt s'
           else Raise (IOError_incorrect_reply (Some kind) FLASH_OK_REPLY) s')
        /\ rx s' = rest
        /\ tx s' = tx s ++ written
        /\ concat written
           = frame 11 (be_bytes 4 (Z.of_nat (List.length key) + 1)
                       ++ key ++ [x00])).
Proof.
  intros Hr Hp Hrx Hf Hlen Hkind Hk. split.
  - unfold flash_storage_erase.
    rewrite (bind_Done _ _ _ _ _ (write_empty_run FLASH_ERASE_REQUEST s)).
    match goal with
    | |- context [_read_empty _ ?st] =>
        rewrite (read_empty_reply st prefix field rest len raw kind
                   FLASH_OK_REPLY Hr Hp Hrx Hf Hlen Hkind)
    end. state.
    eexists. split; [reflexivity|]. split; reflexivity.
  - unfold flash_storage_remove.
    rewrite (bind_Done _ _ _ _ _ (write_header_run _ s)).
    erewrite bind_Done by (apply write_string_run; lia). state.
    erewrite bind_Done by (apply write_flush_record; fits).
    match goal with
    | |- context [_read_empty _ ?st] =>
        rewrite (read_empty_reply st prefix field rest len raw kind
                   FLASH_OK_REPLY Hr Hp Hrx Hf Hlen Hkind)
    end. state.
    eexists _, _. split; [reflexivity|]. state.
    split; [reflexivity|split; [reflexivity|]].
    same_frame FLASH_REMOVE_REQUEST.
Qed.

Lemma X19_flash_erase_and_remove_witness :
  let s := __init__ [x5a; x5a; x5a; x5a; x00; x00; x00; x09; x0d] in
  (exists s',
      flash_storage_erase s
      = (if decide (FLASH_ERROR_REPLY = FLASH_OK_REPLY) then Done tt s'
         else Raise (IOError_incorrect_reply (Some FLASH_ERROR_REPLY)
                       FLASH_OK_REPLY) s')
      /\ rx s' = []
      /\ tx s' = tx s ++ [frame 10 []])
  /\ (exists s' written,
        flash_storage_remove [x6b] s
        = (if decide (FLASH_ERROR_REPLY = FLASH_OK_REPLY) then Done tt s'
           else Raise (IOError_incorrect_reply (Some FLASH_ERROR_REPLY)
                         FLASH_OK_REPLY) s')
        /\ rx s' = []
        /\ tx s' = tx s ++ written
        /\ concat written
           = frame 11 (be_bytes 4 (Z.of_nat (List.length [x6b]) + 1)
                       ++ [x6b] ++ [x00])).
Proof.
  intros s.
  apply (X19_flash_erase_and_remove s [x6b] [] [x00; x00; x00; x09] [] 9 x0d
           FLASH_ERROR_REPLY).
  - simpl. lia.
  - constructor.
  - reflexivity.
  - reflexivity.
  - lia.
  - reflexivity.
  - vm_compute. discriminate.
Defined.

(** ** The decoder at its edges *)

(** X20: a tag byte that is none of the twelve the decoder knows makes
    it raise the error of the unknown tag, with the character of that
    byte, after it has read the tag byte and nothing else. *)
Theorem X20_unknown_tag (rpc_map : gmap Z py_value) (s : CommGeneric)
    (tag : byte) (rest : list byte) :
  rx s = tag :: rest ->
  1 <= _read_length s ->
  ~ In (byte_val tag) rpc_tags ->
  _receive_rpc_value rpc_map s
  = Raise (IOError_unknown_rpc_tag (chr (byte_val tag))) (advance s 1 rest).
Proof.
  intros Hrx Hr Htag.
  rewrite receive_rpc_value_unfold. unfold receive_rpc_value_body.
  rewrite (bind_Done _ _ _ _ _ (read_int8_advance tag rest s Hrx Hr)).
  assert (E : existsb (Z.eqb (byte_val tag)) rpc_tags = false).
  { destruct (existsb _ _) eqn:E; [|reflexivity]. exfalso. apply Htag.
    apply existsb_exists in E as (x & Hin & Hx).
    apply Z.eqb_eq in Hx. congruence. }
  clear Htag Hrx Hr. cbv zeta.
  destruct tag; try discriminate E; reflexivity.
Qed.

Lemma X20_unknown_tag_witness :
  let s := Comm (Some RPC_REQUEST) None 3 [] [x7a; x01; x02] [] in
  _receive_rpc_value ∅ s
  = Raise (IOError_unknown_rpc_tag "z") (advance s 1 [x01; x02]).
Proof.
  intros s. apply (X20_unknown_tag ∅ s x7a [x01; x02]).
  - reflexivity.
  - simpl. lia.
  - vm_compute. intuition discriminate.
Defined.

(** X21: an object reference is looked up in the map that the caller
    supplied. The decoder reads the tag ['o'] and an int32 index, and
    returns the value that the map holds under the index, or raises
    [KeyError] with the index when the map holds none. *)
Theorem X21_object_reference (rpc_map : gmap Z py_value) (s : CommGeneric)
    (field rest : list byte) (index : Z) :
  rx s = x6f :: field ++ rest ->
  unpack_l field = Some index ->
  5 <= _read_length s ->
  _receive_rpc_value rpc_map s
  = match rpc_map !! index with
    | Some v => Done v (advance s 5 rest)
    | None => Raise (KeyError index) (advance s 5 rest)
    end.
Proof.
  intros Hrx Hf Hr.
  rewrite receive_rpc_value_unfold. unfold receive_rpc_value_body.
  erewrite bind_Done by (apply (read_int8_advance x6f); [exact Hrx|lia]).
  change (chr (byte_val x6f)) with "o"%char. cbn [Ascii.eqb Bool.eqb]. cbv iota.
  erewrite bind_Done
    by (apply (read_int32_advance field rest index); [reflexivity|exact Hf|simpl; lia]).
  rewrite advance_advance. unfold getitem.
  destruct (rpc_map !! index); reflexivity.
Qed.

Lemma X21_object_reference_witness :
  let s := Comm (Some RPC_REQUEST) None 5 [] [x6f; x00; x00; x00; x07] [] in
  _receive_rpc_value {[7 := VObject 3]} s
  = match ({[7 := VObject 3]} : gmap Z py_value) !! 7 with
    | Some v => Done v (advance s 5 [])
    | None => Raise (KeyError 7) (advance s 5 [])
    end.
Proof.
  intros s.
  apply (X21_object_reference {[7 := VObject 3]} s [x00; x00; x00; x07] [] 7).
  - reflexivity.
  - reflexivity.
  - simpl. lia.
Defined.

(** X22: a list whose count is zero or negative is the empty list. The
    decoder reads the tag ['l'] and the int32 count and, for a count that
    is not positive, returns the empty list without reading further; a
    negative count is not an error. *)
Theorem X22_list_without_items (rpc_map : gmap Z py_value) (s : CommGeneric)
    (field rest : list byte) (count : Z) :
  rx s = x6c :: field ++ rest ->
  unpack_l field = Some count ->
  count <= 0 ->
  5 <= _read_length s ->
  _receive_rpc_value rpc_map s = Done (VList []) (advance s 5 rest).
Proof.
  intros Hrx Hf Hc Hr.
  rewrite receive_rpc_value_unfold. unfold receive_rpc_value_body.
  erewrite bind_Done by (apply (read_int8_advance x6c); [exact Hrx|lia]).
  change (chr (byte_val x6c)) with "l"%char. cbn [Ascii.eqb Bool.eqb]. cbv iota.
  erewrite bind_Done
    by (apply (read_int32_advance field rest count); [reflexivity|exact Hf|simpl; lia]).
  rewrite advance_advance.
  replace (Z.to_nat count) with 0%nat by lia. reflexivity.
Qed.

Lemma X22_list_without_items_witness :
  let s := Comm (Some RPC_REQUEST) None 6 [] [x6c; xff; xff; xff; xfd; x00] [] in
  _receive_rpc_value ∅ s = Done (VList []) (advance s 5 [x00]).
Proof.
  intros s.
  apply (X22_list_without_items ∅ s [xff; xff; xff; xfd] [x00] (-3)).
  - reflexivity.
  - reflexivity.
  - lia.
  - simpl. lia.
Defined.

(** X23: the decoder inverts the wire format. On a channel that delivers
    the encoding of a value within the current body, whatever the nesting
    of tuples, lists and ranges in it, [_receive_rpc_value] returns the
    value and has taken exactly the bytes of the encoding. *)
Theorem X23_value_round_trip (rpc_map : gmap Z py_value) (v : py_value)
    (bs rest : list byte) (s : CommGeneric) :
  wire rpc_map v bs ->
  rx s = bs ++ rest ->
  Z.of_nat (List.length bs) <= _read_length s ->
  _receive_rpc_value rpc_map s
  = Done v (advance s (Z.of_nat (List.length bs)) rest).
Proof.
  intros Hw. exact (proj1 (wire_decodes rpc_map) v bs Hw s rest).
Qed.

Lemma X23_value_round_trip_witness :
  let bs := [x74; x02; x69; xff; xff; xff; xfe; x72; x62; x00; x62; x01; x69;
             x00; x00; x00; x03] in
  let s := Comm (Some RPC_REQUEST) None 20 [] (bs ++ [x00]) [] in
  _receive_rpc_value ∅ s
  = Done (VTuple [VInt (-2); VRange 0 1 3]) (advance s 17 [x00]).
Proof.
  intros bs s.
  apply (X23_value_round_trip ∅ (VTuple [VInt (-2); VRange 0 1 3]) bs [x00] s).
  - change bs with
      (x74 :: x02
         :: ((x69 :: [xff; xff; xff; xfe])
             ++ (x72 :: ([x62; x00] ++ [x62; x01]
                         ++ (x69 :: [x00; x00; x00; x03])))
             ++ [])).
    apply wire_tuple; [|reflexivity].
    apply wire_seq_cons; [apply wire_int32; reflexivity|].
    apply wire_seq_cons; [|apply wire_seq_nil].
    apply (wire_range ∅ (VBool false) (VBool true) (VInt 3) 0 1 3);
      [apply (wire_bool ∅ false)|apply (wire_bool ∅ true)
      |apply wire_int32; reflexivity|reflexivity|reflexivity|reflexivity
      |discriminate].
  - reflexivity.
  - simpl. lia.
Defined.

(** ** Serving the kernel *)

Lemma pack_l_run (v : Z) :
  - 2 ^ 31 <= v <= 2 ^ 31 - 1 ->
  pack_l v = Some (be_bytes 4 (v mod 2 ^ 32)).
Proof.
  intros H. unfold pack_l.
  destruct (Z.leb_spec (- 2 ^ 31) v); [|lia].
  destruct (Z.leb_spec v (2 ^ 31 - 1)); [|lia]. reflexivity.
Qed.

Lemma pack_q_run (v : Z) :
  - 2 ^ 63 <= v <= 2 ^ 63 - 1 ->
  pack_q v = Some (be_bytes 8 (v mod 2 ^ 64)).
Proof.
  intros H. unfold pack_q.
  destruct (Z.leb_spec (- 2 ^ 63) v); [|lia].
  destruct (Z.leb_spec v (2 ^ 63 - 1)); [|lia]. reflexivity.
Qed.

Lemma write_int32_run (v : Z) (s : CommGeneric) :
  - 2 ^ 31 <= v <= 2 ^ 31 - 1 ->
  _write_int32 v s
  = Done tt (set_write_buffer (_write_buffer s ++ [be_bytes 4 (v mod 2 ^ 32)]) s).
Proof.
  intros H. unfold _write_int32. rewrite (pack_l_run v H). reflexivity.
Qed.

Lemma write_int64_run (v : Z) (s : CommGeneric) :
  - 2 ^ 63 <= v <= 2 ^ 63 - 1 ->
  _write_int64 v s
  = Done tt (set_write_buffer (_write_buffer s ++ [be_bytes 8 (v mod 2 ^ 64)]) s).
Proof.
  intros H. unfold _write_int64. rewrite (pack_q_run v H). reflexivity.
Qed.

(** What [_serve_rpc] does once the service has returned an integer that
    line 332 lets through. *)
Lemma serve_rpc_reply (invoke : nat -> list py_value -> call_outcome)
    (globals : list string) (rpc_map : gmap Z py_value)
    (s s1 s2 : CommGeneric) (service r : Z) (args : list py_value) (o : nat)
    (result : py_value) :
  _read_int32 s = Done service s1 ->
  _receive_rpc_args rpc_map s1 = Done args s2 ->
  rpc_map !! service = Some (VObject o) ->
  invoke o args = Returns result ->
  as_int result = Some r ->
  - 2 ^ 31 < r < 2 ^ 31 - 1 ->
  _serve_rpc invoke globals rpc_map s
  = Done tt
      (Comm (_read_type s2) (Some RPC_REPLY) (_read_length s2)
         [be_bytes 4 (r mod 2 ^ 32)] (rx s2)
         (tx s2 ++ [sync_sequence ++ be_bytes 4 13 ++ [x06];
                    be_bytes 4 (r mod 2 ^ 32)])).
Proof.
  intros H1 H2 Hm Hi Hr Hrange. unfold _serve_rpc.
  rewrite (bind_Done _ _ _ _ _ H1), (bind_Done _ _ _ _ _ H2).
  unfold try_body, call_service. rewrite Hm, Hi.
  replace (rpc_result_rejected result) with false
    by (symmetry; apply rpc_result_accepted; eauto).
  rewrite Hr.
  rewrite (bind_Done _ _ _ _ _ (write_header_run _ s2)).
  erewrite bind_Done by (apply write_int32_run; lia).
  unfold set_write_buffer. state.
  rewrite write_flush_record by fits. reflexivity.
Qed.

Lemma unpack_l_field (v : Z) :
  - 2 ^ 31 <= v <= 2 ^ 31 - 1 -> unpack_l (be_bytes 4 (v mod 2 ^ 32)) = Some v.
Proof. intros H. apply unpack_pack_l, pack_l_run, H. Qed.

Lemma unpack_q_field (v : Z) :
  - 2 ^ 63 <= v <= 2 ^ 63 - 1 -> unpack_q (be_bytes 8 (v mod 2 ^ 64)) = Some v.
Proof. intros H. apply unpack_pack_q, pack_q_run, H. Qed.

Lemma string_field_length (v : text) :
  Z.of_nat (List.length (string_field v)) = Z.of_nat (List.length v) + 5.
Proof.
  unfold string_field. rewrite !length_app, be_bytes_length. simpl. lia.
Qed.

(** [_read_string] on what [_write_string] lays out. *)
Lemma read_string_field (v : text) (rest : list byte) (s : CommGeneric) :
  rx s = string_field v ++ rest ->
  utf8_valid v = true ->
  Z.of_nat (List.length v) + 1 <= 2 ^ 31 - 1 ->
  Z.of_nat (List.length v) + 5 <= _read_length s ->
  _read_string s = Done v (advance s (Z.of_nat (List.length v) + 5) rest).
Proof.
  intros Hrx Hu Hb Hr. unfold string_field in Hrx.
  rewrite <- !app_assoc in Hrx.
  assert (Hl : Z.of_nat (List.length (v ++ [x00])) = Z.of_nat (List.length v) + 1)
    by (rewrite length_app; simpl; lia).
  rewrite (read_string_advance (be_bytes 4 (Z.of_nat (List.length v) + 1))
             v rest s Hrx).
  - rewrite Hl. do 2 f_equal. lia.
  - rewrite Hl.
    rewrite <- (Z.mod_small (Z.of_nat (List.length v) + 1) (2 ^ 32)) at 1 by lia.
    apply unpack_l_field. lia.
  - exact Hu.
  - rewrite Hl. lia.
Qed.

(** The backtrace is read entry by entry and kept nowhere. *)
Lemma read_backtrace (count : nat) :
  forall (entries rest : list byte) (s : CommGeneric),
    List.length entries = (4 * count)%nat ->
    rx s = entries ++ rest ->
    4 * Z.of_nat count <= _read_length s ->
    exists backtrace,
      repeatM count _read_int32 s
      = Done backtrace (advance s (4 * Z.of_nat count) rest).
Proof.
  induction count as [|count IH]; intros entries rest s Hl Hrx Hr.
  - destruct entries; [|discriminate]. exists []. simpl.
    unfold_M. f_equal. unfold advance. destruct s. simpl in *. subst.
    f_equal. lia.
  - destruct entries as [|b0 [|b1 [|b2 [|b3 entries]]]]; try (simpl in Hl; lia).
    assert (exists v, unpack_l [b0; b1; b2; b3] = Some v) as [v Hv]
      by (unfold unpack_l; simpl; eauto).
    destruct (IH entries rest (advance s 4 (entries ++ rest))) as [vs Hvs];
      [simpl in Hl; lia|reflexivity|simpl; lia|].
    exists (v :: vs). cbn [repeatM].
    erewrite bind_Done
      by (apply (read_int32_advance [b0; b1; b2; b3] (entries ++ rest) v);
          [exact Hrx|exact Hv|lia]).
    rewrite (bind_Done _ _ _ _ _ Hvs). unfold_M.
    rewrite advance_advance. do 2 f_equal. lia.
Qed.

(** [_serve_exception] on the fields of an exception, a count and a
    backtrace of that many entries. *)
Lemma serve_exception_fields (exn : artiq_exception) (p0 p1 p2 count : Z)
    (field entries rest : list byte) (s : CommGeneric) :
  rx s = exception_fields exn p0 p1 p2 ++ field ++ entries ++ rest ->
  unpack_l field = Some count ->
  List.length entries = (4 * Z.to_nat count)%nat ->
  utf8_valid (name exn) = true ->
  utf8_valid (message exn) = true ->
  utf8_valid (filename exn) = true ->
  utf8_valid (function exn) = true ->
  - 2 ^ 63 <= p0 <= 2 ^ 63 - 1 ->
  - 2 ^ 63 <= p1 <= 2 ^ 63 - 1 ->
  - 2 ^ 63 <= p2 <= 2 ^ 63 - 1 ->
  - 2 ^ 31 <= line exn <= 2 ^ 31 - 1 ->
  - 2 ^ 31 <= column exn <= 2 ^ 31 - 1 ->
  Z.of_nat (List.length (exception_fields exn p0 p1 p2)) <= 2 ^ 31 - 1 ->
  Z.of_nat (List.length (exception_fields exn p0 p1 p2 ++ field ++ entries))
  <= _read_length s ->
  _serve_exception s
  = Raise (RaisedARTIQException
             (ArtiqExn (name exn) (message exn) [p0; p1; p2] (filename exn)
                (line exn) (column exn) (function exn)))
      (advance s
         (Z.of_nat (List.length (exception_fields exn p0 p1 p2 ++ field ++ entries)))
         rest).
Proof.
  intros Hrx Hf Hl Un Um Uf Ug R0 R1 R2 Rl Rc Hb Hr.
  assert (Hfl : List.length field = 4%nat).
  { unfold unpack_l in Hf. destruct (Nat.eqb_spec (List.length field) 4);
      [assumption|discriminate]. }
  unfold exception_fields in *.
  repeat (rewrite ?length_app, ?be_bytes_length, ?Nat2Z.inj_add,
            ?string_field_length in Hb).
  repeat (rewrite ?length_app, ?be_bytes_length, ?Nat2Z.inj_add,
            ?string_field_length in Hr).
  repeat (rewrite ?length_app, ?be_bytes_length, ?Nat2Z.inj_add,
            ?string_field_length).
  rewrite Hfl, Hl in *.
  rewrite <- ?app_assoc in Hrx.
  unfold _serve_exception.
  erewrite bind_Done
    by (apply read_string_field; [exact Hrx|exact Un|lia|lia]).
  erewrite bind_Done
    by (apply read_string_field; [reflexivity|exact Um|lia|simpl; lia]).
  rewrite advance_advance.
  cbn [repeatM].
  erewrite bind_Done.
  2: { erewrite bind_Done
         by (apply (read_int64_advance (be_bytes 8 (p0 mod 2 ^ 64)));
             [reflexivity|apply unpack_q_field; exact R0|simpl; lia]).
       erewrite bind_Done.
       2: { erewrite bind_Done
              by (apply (read_int64_advance (be_bytes 8 (p1 mod 2 ^ 64)));
                  [reflexivity|apply unpack_q_field; exact R1|simpl; lia]).
            erewrite bind_Done.
            2: { erewrite bind_Done
                   by (apply (read_int64_advance (be_bytes 8 (p2 mod 2 ^ 64)));
                       [reflexivity|apply unpack_q_field; exact R2|simpl; lia]).
                 reflexivity. }
            reflexivity. }
       reflexivity. }
  rewrite !advance_advance.
  erewrite bind_Done
    by (apply read_string_field; [reflexivity|exact Uf|lia|simpl; lia]).
  rewrite advance_advance.
  erewrite bind_Done
    by (apply (read_int32_advance (be_bytes 4 (line exn mod 2 ^ 32)));
        [reflexivity|apply unpack_l_field; exact Rl|simpl; lia]).
  rewrite advance_advance.
  erewrite bind_Done
    by (apply (read_int32_advance (be_bytes 4 (column exn mod 2 ^ 32)));
        [reflexivity|apply unpack_l_field; exact Rc|simpl; lia]).
  rewrite advance_advance.
  erewrite bind_Done
    by (apply read_string_field; [reflexivity|exact Ug|lia|simpl; lia]).
  rewrite advance_advance.
  erewrite bind_Done
    by (apply (read_int32_advance field); [reflexivity|exact Hf|simpl; lia]).
  rewrite advance_advance.
  match goal with
  | |- context [repeatM _ _ ≫= _] =>
      match goal with
      | |- (_ ≫= _) ?st = _ =>
          destruct (read_backtrace (Z.to_nat count) entries rest st Hl eq_refl)
            as [backtrace Hbt]; [simpl; lia|]
      end
  end.
  rewrite (bind_Done _ _ _ _ _ Hbt), advance_advance.
  unfold raise. do 2 f_equal. lia.
Qed.

(** The handler of [except ARTIQException] on an exception with at least
    three parameters, all fields within the ranges of their formats. *)
Lemma handle_artiq_exception_run (exn : artiq_exception) (p0 p1 p2 : Z)
    (more : list Z) (s : CommGeneric) :
  param exn = p0 :: p1 :: p2 :: more ->
  - 2 ^ 63 <= p0 <= 2 ^ 63 - 1 ->
  - 2 ^ 63 <= p1 <= 2 ^ 63 - 1 ->
  - 2 ^ 63 <= p2 <= 2 ^ 63 - 1 ->
  - 2 ^ 31 <= line exn <= 2 ^ 31 - 1 ->
  - 2 ^ 31 <= column exn <= 2 ^ 31 - 1 ->
  Z.of_nat (List.length (exception_fields exn p0 p1 p2)) + 9 <= 2 ^ 31 - 1 ->
  exists s' written,
    handle_artiq_exception exn s = Done tt s'
    /\ rx s' = rx s
    /\ _read_length s' = _read_length s
    /\ tx s' = tx s ++ written
    /\ concat written = frame 7 (exception_fields exn p0 p1 p2).
Proof.
  intros Hp R0 R1 R2 Rl Rc Hb.
  unfold exception_fields in *.
  repeat (rewrite ?length_app, ?be_bytes_length, ?Nat2Z.inj_add,
            ?string_field_length in Hb).
  unfold handle_artiq_exception. destruct s as [rt wt rl buffer pending out].
  erewrite bind_Done by apply write_header_run.
  erewrite bind_Done by (apply write_string_run; lia).
  erewrite bind_Done by (apply write_string_run; lia).
  cbn [forM_]. unfold param_item. rewrite Hp. cbn [lookup list_lookup].
  erewrite bind_Done
    by (erewrite bind_Done by (erewrite bind_Done by reflexivity;
                                 apply write_int64_run; exact R0);
        erewrite bind_Done by (erewrite bind_Done by reflexivity;
                                 apply write_int64_run; exact R1);
        erewrite bind_Done by (erewrite bind_Done by reflexivity;
                                 apply write_int64_run; exact R2);
        reflexivity).
  erewrite bind_Done by (apply write_string_run; lia).
  erewrite bind_Done by (apply write_int32_run; exact Rl).
  erewrite bind_Done by (apply write_int32_run; exact Rc).
  erewrite bind_Done by (apply write_string_run; lia).
  cbv [set_write_buffer _read_type _write_type _read_length _write_buffer rx tx].
  cbn [app].
  rewrite write_flush_record by fits.
  eexists _, _. split; [reflexivity|]. state.
  repeat split.
  rewrite (frame_of_chunks RPC_EXCEPTION). unfold string_field.
  cbn [concat H2D_value]. rewrite ?app_nil_r, <- ?app_assoc. reflexivity.
Qed.

(** [_serve_rpc] on the bytes of a request whose service returns an
    integer that line 332 lets through. *)
Lemma serve_rpc_request (invoke : nat -> list py_value -> call_outcome)
    (globals : list string) (rpc_map : gmap Z py_value) (s : CommGeneric)
    (field bs rest : list byte) (service r : Z) (args : list py_value)
    (o : nat) (result : py_value) :
  rx s = field ++ bs ++ x00 :: rest ->
  unpack_l field = Some service ->
  wire_seq rpc_map args bs ->
  Forall (fun v => is_rpc_sentinel v = false) args ->
  5 + Z.of_nat (List.length bs) <= _read_length s ->
  rpc_map !! service = Some (VObject o) ->
  invoke o args = Returns result ->
  as_int result = Some r ->
  - 2 ^ 31 < r < 2 ^ 31 - 1 ->
  exists s' written,
    _serve_rpc invoke globals rpc_map s = Done tt s'
    /\ rx s' = rest
    /\ _read_length s' = _read_length s - (5 + Z.of_nat (List.length bs))
    /\ tx s' = tx s ++ written
    /\ concat written = frame 6 (be_bytes 4 (r mod 2 ^ 32))
    /\ unpack_l (be_bytes 4 (r mod 2 ^ 32)) = Some r.
Proof.
  intros Hrx Hf Hw Hns Hr Hm Hi Hres Hrange.
  pose proof (read_int32_advance field _ service s Hrx Hf ltac:(lia)) as H1.
  pose proof (receive_rpc_args_wire rpc_map args bs rest
                (advance s 4 (bs ++ x00 :: rest)) Hw Hns eq_refl
                ltac:(simpl; lia)) as H2.
  rewrite advance_advance in H2.
  rewrite (serve_rpc_reply invoke globals rpc_map _ _ _ _ _ _ _ _
             H1 H2 Hm Hi Hres Hrange).
  eexists _, _. split; [reflexivity|]. state. unfold advance. state.
  split; [reflexivity|]. split; [lia|]. split; [reflexivity|].
  split; [|apply unpack_l_field; lia].
  unfold frame. rewrite be_bytes_length. cbn [concat].
  rewrite app_nil_r, <- ?app_assoc. reflexivity.
Qed.


(** X24: a request whose service returns an integer strictly between
    -2^31 and 2^31-1 is answered by one [RPC_REPLY] frame of 13 bytes
    that carries the integer as an int32, whether or not the name
    [ARTIQException] is bound: [_serve_rpc] takes the service number, the
    arguments and the sentinel byte from the channel, calls the service
    with the arguments decoded, and returns. *)
Theorem X24_serve_rpc_replies (invoke : nat -> list py_value -> call_outcome)
    (globals : list string) (rpc_map : gmap Z py_value) (s : CommGeneric)
    (field bs rest : list byte) (service r : Z) (args : list py_value)
    (o : nat) (result : py_value) :
  rx s = field ++ bs ++ x00 :: rest ->
  unpack_l field = Some service ->
  wire_seq rpc_map args bs ->
  Forall (fun v => is_rpc_sentinel v = false) args ->
  5 + Z.of_nat (List.length bs) <= _read_length s ->
  rpc_map !! service = Some (VObject o) ->
  invoke o args = Returns result ->
  as_int result = Some r ->
  - 2 ^ 31 < r < 2 ^ 31 - 1 ->
  exists s' written,
    _serve_rpc invoke globals rpc_map s = Done tt s'
    /\ rx s' = rest
    /\ _read_length s' = _read_length s - (5 + Z.of_nat (List.length bs))
    /\ tx s' = tx s ++ written
    /\ concat written = frame 6 (be_bytes 4 (r mod 2 ^ 32))
    /\ unpack_l (be_bytes 4 (r mod 2 ^ 32)) = Some r.
Proof. exact (serve_rpc_request invoke globals rpc_map s field bs rest service r args o result). Qed.

Lemma X24_serve_rpc_replies_witness :
  let s := Comm (Some RPC_REQUEST) None 11 []
             [x00; x00; x00; x03; x69; x00; x00; x00; x2a; x6e; x00; x5a] [] in
  let invoke := fun (o : nat) (args : list py_value) =>
                  match args with
                  | [VInt a; VNone] => Returns (VInt (- a))
                  | _ => Returns VNone
                  end in
  exists s' written,
    _serve_rpc invoke module_globals {[3 := VObject 0]} s = Done tt s'
    /\ rx s' = [x5a]
    /\ _read_length s'
       = _read_length s
         - (5 + Z.of_nat (List.length [x69; x00; x00; x00; x2a; x6e]))
    /\ tx s' = tx s ++ written
    /\ concat written = frame 6 (be_bytes 4 (-42 mod 2 ^ 32))
    /\ unpack_l (be_bytes 4 (-42 mod 2 ^ 32)) = Some (-42).
Proof.
  intros s invoke.
  apply (X24_serve_rpc_replies invoke module_globals {[3 := VObject 0]} s
           [x00; x00; x00; x03] [x69; x00; x00; x00; x2a; x6e] [x5a] 3 (-42)
           [VInt 42; VNone] 0%nat (VInt (-42))).
  - reflexivity.
  - reflexivity.
  - change [x69; x00; x00; x00; x2a; x6e]
      with ((x69 :: [x00; x00; x00; x2a]) ++ [x6e] ++ []).
    apply wire_seq_cons; [apply wire_int32; reflexivity|].
    apply wire_seq_cons; [apply wire_none|apply wire_seq_nil].
  - repeat constructor.
  - simpl. lia.
  - reflexivity.
  - reflexivity.
  - reflexivity.
  - lia.
Defined.

(** ** Exceptions of the kernel *)

Lemma leaves_writer_ret {A} (a : A) : leaves_writer (mret a).
Proof. intros s. simpl. auto. Qed.

Lemma leaves_writer_raise {A} (e : py_exn) : leaves_writer (@raise A e).
Proof. intros s. simpl. auto. Qed.

Lemma leaves_writer_struct {A} (o : option A) : leaves_writer (struct_ o).
Proof. destruct o; [apply leaves_writer_ret|apply leaves_writer_raise]. Qed.

Lemma leaves_writer_bind {A B} (m : M A) (f : A -> M B) :
  leaves_writer m -> (forall a, leaves_writer (f a)) -> leaves_writer (m ≫= f).
Proof.
  intros Hm Hf s. specialize (Hm s). unfold mbind, M_bind.
  destruct (m s) as [a s'|e s'|]; try assumption.
  specialize (Hf a s'). destruct Hm as (H1 & H2 & H3).
  destruct (f a s'); try assumption; rewrite <- H1, <- H2, <- H3; assumption.
Qed.

Lemma leaves_writer_read_chunk (n : Z) : leaves_writer (_read_chunk n).
Proof.
  intros s. unfold _read_chunk, read. unfold_M.
  destruct (_ <? _); [auto|]. destruct (_ && _); simpl; auto.
Qed.

Lemma leaves_writer_read_int32 : leaves_writer _read_int32.
Proof.
  apply leaves_writer_bind; [apply leaves_writer_read_chunk|].
  intros bs. apply leaves_writer_struct.
Qed.

Lemma leaves_writer_read_int64 : leaves_writer _read_int64.
Proof.
  apply leaves_writer_bind; [apply leaves_writer_read_chunk|].
  intros bs. apply leaves_writer_struct.
Qed.

Lemma leaves_writer_read_string : leaves_writer _read_string.
Proof.
  apply leaves_writer_bind.
  - apply leaves_writer_bind; [apply leaves_writer_read_int32|].
    intros n. apply leaves_writer_read_chunk.
  - intros bs. unfold decode_utf8.
    destruct (utf8_valid _); [apply leaves_writer_ret|apply leaves_writer_raise].
Qed.

Lemma leaves_writer_repeatM {A} (n : nat) (body : M A) :
  leaves_writer body -> leaves_writer (repeatM n body).
Proof.
  intros Hb. induction n as [|n IH]; [apply leaves_writer_ret|].
  cbn [repeatM]. apply leaves_writer_bind; [exact Hb|]. intros x.
  apply leaves_writer_bind; [exact IH|]. intros xs. apply leaves_writer_ret.
Qed.

Lemma leaves_writer_serve_exception : leaves_writer _serve_exception.
Proof.
  unfold _serve_exception.
  repeat first
    [ apply leaves_writer_raise
    | apply leaves_writer_read_string
    | apply leaves_writer_read_int32
    | apply leaves_writer_repeatM; apply leaves_writer_read_int64
    | apply leaves_writer_repeatM; apply leaves_writer_read_int32
    | apply leaves_writer_bind; [|intros ?] ].
Qed.

(** A sequence that ends in a [raise] does not return. *)
Lemma bind_never_returns {A B} (m : M A) (f : A -> M B) :
  (forall a s s' b, f a s <> Done b s') ->
  forall s s' b, (m ≫= f) s <> Done b s'.
Proof.
  intros Hf s s' b. unfold mbind, M_bind.
  destruct (m s) as [a s1|e s1|]; [apply Hf|discriminate|discriminate].
Qed.

Lemma serve_exception_never_returns (s s' : CommGeneric) :
  _serve_exception s <> Done tt s'.
Proof.
  unfold _serve_exception.
  repeat (apply bind_never_returns; intros ?). discriminate.
Qed.

Lemma serve_exception_raises (s : CommGeneric) :
  exists e s',
    _serve_exception s = Raise e s'
    /\ _write_type s' = _write_type s
    /\ _write_buffer s' = _write_buffer s
    /\ tx s' = tx s.
Proof.
  pose proof (leaves_writer_serve_exception s) as Hw.
  pose proof (settles_serve_exception _ s (le_n _)) as Ht.
  destruct (_serve_exception s) as [[] s'|e s'|] eqn:E.
  - exfalso. exact (serve_exception_never_returns s s' E).
  - eauto.
  - contradiction.
Qed.

(** X25: [_serve_exception] never returns and never writes. From every
    state and whatever the channel delivers, it ends by raising, either
    the exception of the kernel or the error of one of its reads, and it
    leaves the kind and the chunks of the message being written and the
    bytes transmitted as they were. *)
Theorem X25_serve_exception_always_raises (s : CommGeneric) :
  exists e s',
    _serve_exception s = Raise e s'
    /\ _write_type s' = _write_type s
    /\ _write_buffer s' = _write_buffer s
    /\ tx s' = tx s.
Proof. exact (serve_exception_raises s). Qed.

(** X26: the two directions lay an exception out in the same way. What
    the handler of [except ARTIQException] sends for an exception with at
    least three parameters is one [RPC_EXCEPTION] frame whose body, once
    followed by a backtrace count of zero, [_serve_exception] reads back
    as the same exception: same name, message, file name, line, column
    and function, and the first three parameters. *)
Theorem X26_exception_layout_round_trip (exn : artiq_exception)
    (p0 p1 p2 : Z) (more : list Z) (s : CommGeneric) :
  param exn = p0 :: p1 :: p2 :: more ->
  utf8_valid (name exn) = true ->
  utf8_valid (message exn) = true ->
  utf8_valid (filename exn) = true ->
  utf8_valid (function exn) = true ->
  - 2 ^ 63 <= p0 <= 2 ^ 63 - 1 ->
  - 2 ^ 63 <= p1 <= 2 ^ 63 - 1 ->
  - 2 ^ 63 <= p2 <= 2 ^ 63 - 1 ->
  - 2 ^ 31 <= line exn <= 2 ^ 31 - 1 ->
  - 2 ^ 31 <= column exn <= 2 ^ 31 - 1 ->
  Z.of_nat (List.length (exception_fields exn p0 p1 p2)) + 9 <= 2 ^ 31 - 1 ->
  exists body s' written,
    handle_artiq_exception exn s = Done tt s'
    /\ tx s' = tx s ++ written
    /\ concat written = frame 7 body
    /\ forall reader rest,
         rx reader = body ++ [x00; x00; x00; x00] ++ rest ->
         Z.of_nat (List.length body) + 4 <= _read_length reader ->
         _serve_exception reader
         = Raise (RaisedARTIQException
                    (ArtiqExn (name exn) (message exn) [p0; p1; p2]
                       (filename exn) (line exn) (column exn) (function exn)))
             (advance reader (Z.of_nat (List.length body) + 4) rest).
Proof.
  intros Hp Un Um Uf Ug R0 R1 R2 Rl Rc Hb.
  destruct (handle_artiq_exception_run exn p0 p1 p2 more s Hp R0 R1 R2 Rl Rc Hb)
    as (s' & written & Hrun & _ & _ & Htx & Hfr).
  exists (exception_fields exn p0 p1 p2), s', written.
  repeat split; [exact Hrun|exact Htx|exact Hfr|].
  intros reader rest Hrx Hr.
  rewrite (serve_exception_fields exn p0 p1 p2 0 [x00; x00; x00; x00] [] rest
             reader Hrx eq_refl eq_refl Un Um Uf Ug R0 R1 R2 Rl Rc).
  - do 2 f_equal. rewrite !length_app. cbn [List.length]. lia.
  - lia.
  - rewrite !length_app. cbn [List.length]. lia.
Qed.

Lemma X26_exception_layout_round_trip_witness :
  let exn := ArtiqExn (text_of "RTIOUnderflow") (text_of "late by {0}")
               [-7; 0; 5; 9] (text_of "a.py") 12 (-1) (text_of "run") in
  exists body s' written,
    handle_artiq_exception exn (__init__ []) = Done tt s'
    /\ tx s' = tx (__init__ []) ++ written
    /\ concat written = frame 7 body
    /\ forall reader rest,
         rx reader = body ++ [x00; x00; x00; x00] ++ rest ->
         Z.of_nat (List.length body) + 4 <= _read_length reader ->
         _serve_exception reader
         = Raise (RaisedARTIQException
                    (ArtiqExn (name exn) (message exn) [-7; 0; 5]
                       (filename exn) (line exn) (column exn) (function exn)))
             (advance reader (Z.of_nat (List.length body) + 4) rest).
Proof.
  intros exn.
  apply (X26_exception_layout_round_trip exn (-7) 0 5 [9] (__init__ [])).
  - reflexivity.
  - reflexivity.
  - reflexivity.
  - reflexivity.
  - reflexivity.
  - lia.
  - lia.
  - lia.
  - simpl. lia.
  - simpl. lia.
  - vm_compute. discriminate.
Defined.

(** ** The loop, turn by turn *)

Lemma unpack_l_range (bs : list byte) (v : Z) :
  unpack_l bs = Some v -> - 2 ^ 31 <= v <= 2 ^ 31 - 1.
Proof.
  unfold unpack_l. destruct (Nat.eqb_spec (List.length bs) 4) as [L|]; [|discriminate].
  destruct bs as [|b0 [|b1 [|b2 [|b3 [|]]]]]; try discriminate L.
  intros [= <-]. unfold be_unsigned, to_signed. cbn [fold_left].
  pose proof (byte_val_range b0). pose proof (byte_val_range b1).
  pose proof (byte_val_range b2). pose proof (byte_val_range b3).
  destruct (Z.ltb_spec (((0 * 256 + byte_val b0) * 256 + byte_val b1) * 256
                        * 256 + byte_val b2 * 256 + byte_val b3) 0); [lia|].
  match goal with |- context [?u <? _] => destruct (Z.ltb_spec u (2 ^ (32 - 1))) end;
    change (2 ^ (32 - 1)) with 2147483648 in *;
    change (2 ^ 32) with 4294967296; change (2 ^ 31) with 2147483648; lia.
Qed.

(** X27: [serve] answers a request and goes on with what follows it.
    On a channel that delivers an [RPC_REQUEST] message made of a service
    number, encoded arguments and the sentinel byte, for a service that
    returns an integer strictly between -2^31 and 2^31-1, the loop
    transmits one [RPC_REPLY] frame with that integer and is then at its
    start again, the message read to its end: the outcome of [serve] is
    its outcome on the rest of the channel. *)
Theorem X27_serve_answers_and_goes_on
    (invoke : nat -> list py_value -> call_outcome)
    (globals : list string) (rpc_map : gmap Z py_value) (s : CommGeneric)
    (prefix header field bs rest : list byte) (service r : Z)
    (args : list py_value) (o : nat) (result : py_value) :
  _read_length s <= 0 ->
  Forall (fun b => byte_val b <> 0x5a) prefix ->
  rx s = prefix ++ sync_sequence ++ header ++ x0a :: field ++ bs ++ x00 :: rest ->
  unpack_l header = Some (14 + Z.of_nat (List.length bs)) ->
  unpack_l field = Some service ->
  wire_seq rpc_map args bs ->
  Forall (fun v => is_rpc_sentinel v = false) args ->
  rpc_map !! service = Some (VObject o) ->
  invoke o args = Returns result ->
  as_int result = Some r ->
  - 2 ^ 31 < r < 2 ^ 31 - 1 ->
  exists s' written,
    serve invoke globals rpc_map s = serve invoke globals rpc_map s'
    /\ rx s' = rest
    /\ _read_length s' = 0
    /\ tx s' = tx s ++ written
    /\ concat written = frame 6 (be_bytes 4 (r mod 2 ^ 32)).
Proof.
  intros Hr Hp Hrx Hh Hf Hw Hns Hm Hi Hres Hrange.
  rewrite serve_unfold. unfold serve_body.
  erewrite bind_Done
    by (apply (read_header_accept s prefix header (field ++ bs ++ x00 :: rest)
                 (14 + Z.of_nat (List.length bs)) x0a RPC_REQUEST);
        [exact Hr|exact Hp|exact Hrx|exact Hh|lia|reflexivity]).
  erewrite bind_Done by reflexivity. state.
  destruct (decide _) as [_|N]; [|contradiction].
  match goal with
  | |- context [(_ ≫= _) ?st] =>
      destruct (serve_rpc_request invoke globals rpc_map st field bs rest
                  service r args o result eq_refl Hf Hw Hns
                  ltac:(simpl; lia) Hm Hi Hres Hrange)
        as (s' & written & Hrun & Hrx' & Hlen & Htx & Hfr & _)
  end.
  rewrite (bind_Done _ _ _ _ _ Hrun).
  exists s', written. simpl in Hlen, Htx.
  repeat split; [exact Hrx'|lia|exact Htx|exact Hfr].
Qed.

Lemma X27_serve_answers_and_goes_on_witness :
  let invoke := fun (o : nat) (args : list py_value) => Returns (VInt 5) in
  let s := __init__ ([x5a; x5a; x5a; x5a; x00; x00; x00; x10; x0a;
                      x00; x00; x00; x03; x62; x01; x00; x2a]) in
  exists s' written,
    serve invoke module_globals {[3 := VObject 0]} s
    = serve invoke module_globals {[3 := VObject 0]} s'
    /\ rx s' = [x2a]
    /\ _read_length s' = 0
    /\ tx s' = tx s ++ written
    /\ concat written = frame 6 (be_bytes 4 (5 mod 2 ^ 32)).
Proof.
  intros invoke s.
  apply (X27_serve_answers_and_goes_on invoke module_globals {[3 := VObject 0]}
           s [] [x00; x00; x00; x10] [x00; x00; x00; x03] [x62; x01] [x2a] 3 5
           [VBool true] 0%nat (VInt 5)).
  - simpl. lia.
  - constructor.
  - reflexivity.
  - reflexivity.
  - reflexivity.
  - change [x62; x01] with ([x62; x01] ++ []).
    apply wire_seq_cons; [apply (wire_bool _ true)|apply wire_seq_nil].
  - repeat constructor.
  - reflexivity.
  - reflexivity.
  - reflexivity.
  - lia.
Defined.

(** X28: a [KERNEL_EXCEPTION] message ends [serve] with the exception of
    the kernel. On a channel that delivers such a message, made of the
    fields of an exception, a backtrace count and that many int32
    entries, the loop raises the exception with those fields, the
    backtrace dropped, having read the message to its end and written
    nothing. *)
Theorem X28_serve_raises_kernel_exception
    (invoke : nat -> list py_value -> call_outcome)
    (globals : list string) (rpc_map : gmap Z py_value) (s : CommGeneric)
    (exn : artiq_exception) (p0 p1 p2 count : Z)
    (prefix header field entries rest : list byte) :
  _read_length s <= 0 ->
  Forall (fun b => byte_val b <> 0x5a) prefix ->
  rx s = prefix ++ sync_sequence ++ header
         ++ x09 :: exception_fields exn p0 p1 p2 ++ field ++ entries ++ rest ->
  unpack_l header
  = Some (9 + Z.of_nat (List.length
                          (exception_fields exn p0 p1 p2 ++ field ++ entries))) ->
  unpack_l field = Some count ->
  List.length entries = (4 * Z.to_nat count)%nat ->
  utf8_valid (name exn) = true ->
  utf8_valid (message exn) = true ->
  utf8_valid (filename exn) = true ->
  utf8_valid (function exn) = true ->
  - 2 ^ 63 <= p0 <= 2 ^ 63 - 1 ->
  - 2 ^ 63 <= p1 <= 2 ^ 63 - 1 ->
  - 2 ^ 63 <= p2 <= 2 ^ 63 - 1 ->
  - 2 ^ 31 <= line exn <= 2 ^ 31 - 1 ->
  - 2 ^ 31 <= column exn <= 2 ^ 31 - 1 ->
  serve invoke globals rpc_map s
  = Raise (RaisedARTIQException
             (ArtiqExn (name exn) (message exn) [p0; p1; p2] (filename exn)
                (line exn) (column exn) (function exn)))
      (Comm (Some KERNEL_EXCEPTION) (_write_type s) 0 (_write_buffer s) rest
         (tx s)).
Proof.
  intros Hr Hp Hrx Hh Hf Hl Un Um Uf Ug R0 R1 R2 Rl Rc.
  pose proof (unpack_l_range _ _ Hh) as Hb.
  rewrite serve_unfold. unfold serve_body.
  erewrite bind_Done
    by (apply (read_header_accept s prefix header
                 (exception_fields exn p0 p1 p2 ++ field ++ entries ++ rest)
                 (9 + Z.of_nat (List.length
                                  (exception_fields exn p0 p1 p2 ++ field ++ entries)))
                 x09 KERNEL_EXCEPTION);
        [exact Hr|exact Hp|exact Hrx|exact Hh|lia|reflexivity]).
  erewrite bind_Done by reflexivity. state.
  destruct (decide _) as [E|_]; [discriminate E|].
  destruct (decide _) as [_|N]; [|contradiction].
  erewrite bind_Raise
    by (apply (serve_exception_fields exn p0 p1 p2 count field entries rest);
        [reflexivity|exact Hf|exact Hl|exact Un|exact Um|exact Uf|exact Ug
        |exact R0|exact R1|exact R2|exact Rl|exact Rc
        |rewrite length_app in Hb; lia|simpl; lia]).
  unfold advance. state. do 2 f_equal. lia.
Qed.

Lemma X28_serve_raises_kernel_exception_witness :
  let exn := ArtiqExn (text_of "E") [] [] (text_of "k.py") 3 4 (text_of "f") in
  let body := exception_fields exn 1 (-2) 3 in
  let s := __init__ (sync_sequence ++ be_bytes 4 (9 + Z.of_nat (List.length body) + 8)
                     ++ x09 :: body ++ [x00; x00; x00; x01]
                     ++ [x00; x00; x10; x00] ++ [x2a]) in
  serve (fun _ _ => Returns VNone) module_globals ∅ s
  = Raise (RaisedARTIQException
             (ArtiqExn (text_of "E") [] [1; -2; 3] (text_of "k.py") 3 4
                (text_of "f")))
      (Comm (Some KERNEL_EXCEPTION) None 0 [] [x2a] []).
Proof.
  intros exn body s.
  apply (X28_serve_raises_kernel_exception (fun _ _ => Returns VNone)
           module_globals ∅ s exn 1 (-2) 3 1 []
           (be_bytes 4 (9 + Z.of_nat (List.length body) + 8))
           [x00; x00; x00; x01] [x00; x00; x10; x00] [x2a]).
  - simpl. lia.
  - constructor.
  - reflexivity.
  - reflexivity.
  - reflexivity.
  - reflexivity.
  - reflexivity.
  - reflexivity.
  - reflexivity.
  - reflexivity.
  - lia.
  - lia.
  - lia.
  - simpl. lia.
  - simpl. lia.
Defined.

(** X29: an exception with fewer than three parameters is not reported.
    With the name [ARTIQException] bound, an exception of that class
    raised under the [try] reaches the first handler, which indexes the
    parameters 0, 1 and 2. When one of them is missing it raises
    [IndexError]: by then the message in preparation is an
    [RPC_EXCEPTION] that holds the name, the message and the parameters
    there are, and nothing has been transmitted. *)
Theorem X29_exception_with_missing_parameter (globals : list string)
    (lineno : Z) (raised : host_exn) (exn : artiq_exception)
    (s : CommGeneric) :
  name_bound globals "ARTIQException" = true ->
  he_class raised = IsARTIQException exn ->
  (List.length (param exn) < 3)%nat ->
  Forall (fun p => - 2 ^ 63 <= p <= 2 ^ 63 - 1) (param exn) ->
  Z.of_nat (List.length (name exn)) + 1 <= 2 ^ 31 - 1 ->
  Z.of_nat (List.length (message exn)) + 1 <= 2 ^ 31 - 1 ->
  handle globals lineno raised s
  = Raise IndexError
      (Comm (_read_type s) (Some RPC_EXCEPTION) (_read_length s)
         ([be_bytes 4 (Z.of_nat (List.length (name exn)) + 1);
           name exn ++ [x00];
           be_bytes 4 (Z.of_nat (List.length (message exn)) + 1);
           message exn ++ [x00]]
          ++ map (fun p => be_bytes 8 (p mod 2 ^ 64)) (param exn))
         (rx s) (tx s)).
Proof.
  intros Hb Hc Hn Hp Ln Lm. unfold handle. rewrite Hb, Hc.
  unfold handle_artiq_exception. destruct s as [rt wt rl buffer pending out].
  erewrite bind_Done by apply write_header_run.
  erewrite bind_Done by (apply write_string_run; lia).
  erewrite bind_Done by (apply write_string_run; lia).
  cbn [forM_]. unfold param_item.
  destruct (param exn) as [|q0 [|q1 [|q2 more]]];
    try (simpl in Hn; lia); cbn [lookup list_lookup map].
  - reflexivity.
  - apply Forall_cons_1 in Hp as [H0 _].
    erewrite bind_Raise.
    2: { erewrite bind_Done by (erewrite bind_Done by reflexivity;
                                 apply write_int64_run; exact H0).
         reflexivity. }
    reflexivity.
  - apply Forall_cons_1 in Hp as [H0 Hp]. apply Forall_cons_1 in Hp as [H1 _].
    erewrite bind_Raise.
    2: { erewrite bind_Done by (erewrite bind_Done by reflexivity;
                                 apply write_int64_run; exact H0).
         erewrite bind_Done by (erewrite bind_Done by reflexivity;
                                 apply write_int64_run; exact H1).
         reflexivity. }
    reflexivity.
Qed.

Lemma X29_exception_with_missing_parameter_witness :
  let exn := ArtiqExn (text_of "E") (text_of "m") [1; -2] [] 0 0 [] in
  let raised := HostExn (IsARTIQException exn) (text_of "E") (text_of "m") [] in
  handle ("ARTIQException"%string :: module_globals) 331 raised
    (Comm (Some RPC_REQUEST) None 0 [[xff]] [x2a] [[x01]])
  = Raise IndexError
      (Comm (Some RPC_REQUEST) (Some RPC_EXCEPTION) 0
         [[x00; x00; x00; x02]; [x45; x00]; [x00; x00; x00; x02]; [x6d; x00];
          [x00; x00; x00; x00; x00; x00; x00; x01];
          [xff; xff; xff; xff; xff; xff; xff; xfe]]
         [x2a] [[x01]]).
Proof.
  intros exn raised.
  apply (X29_exception_with_missing_parameter
           ("ARTIQException"%string :: module_globals) 331 raised exn
           (Comm (Some RPC_REQUEST) None 0 [[xff]] [x2a] [[x01]])).
  - reflexivity.
  - reflexivity.
  - simpl. lia.
  - repeat constructor; lia.
  - simpl. lia.
  - simpl. lia.
Defined.
